(** * twtxt: the lextwt AST, its metadata store and the Twt aggregate

    A shallow embedding of [types/lextwt/ast.go] and of the parts of the
    [types] package it relies on.  Go strings are byte sequences and are
    modelled by [string]; Go's [int] is the 64-bit two's complement integer
    and is modelled by [Z] with its wrap-around written out; objects that are
    mutated through pointers ([*Mention], [*Tag]) live in an explicit store,
    objects that are never written after construction are modelled by
    value. *)

From Stdlib Require Import ZArith NArith String Ascii List Lia Bool.
From stdpp Require Import base list strings gmap.
Import ListNotations.
Local Open Scope string_scope.
Local Open Scope list_scope.

(** ** Strings: the functions of Go's [strings], [unicode] and [utf8]
       packages that the source calls *)

Definition chr (n : N) : string := String (ascii_of_N n) EmptyString.

Definition TAB : string := chr 9.
Definition NL : string := chr 10.
(** U+2028 LINE SEPARATOR in UTF-8. *)
Definition LS : string := chr 226 +:+ chr 128 +:+ chr 168.

Definition byteAt (s : string) (i : nat) : option N :=
  match String.get i s with
  | Some c => Some (N_of_ascii c)
  | None => None
  end.

Definition inRange (lo hi : N) (b : option N) : bool :=
  match b with
  | Some x => ((lo <=? x) && (x <=? hi))%N
  | None => false
  end.

Definition RuneError : N := 65533.

Definition low6 (b : option N) : N := N.land (default 0%N b) 63.

(** [utf8.DecodeRuneInString] on a non-empty string whose first byte is [b0]:
    the rune and its width.  Ill-formed and truncated sequences decode to
    [(RuneError, 1)]. *)
Definition DecodeRune (b0 : N) (rest : string) : N * nat :=
  let b1 := byteAt rest 0 in
  let b2 := byteAt rest 1 in
  let b3 := byteAt rest 2 in
  let tail := inRange 128 191 in
  let two := (N.shiftl (N.land b0 31) 6 + low6 b1)%N in
  let three := (N.shiftl (N.land b0 15) 12 + N.shiftl (low6 b1) 6 + low6 b2)%N in
  let four :=
    (N.shiftl (N.land b0 7) 18 + N.shiftl (low6 b1) 12
     + N.shiftl (low6 b2) 6 + low6 b3)%N in
  if (b0 <? 128)%N then (b0, 1)
  else if (b0 <? 194)%N then (RuneError, 1)
  else if (b0 <? 224)%N then
    if tail b1 then (two, 2) else (RuneError, 1)
  else if (b0 <? 240)%N then
    let lo := if (b0 =? 224)%N then 160%N else 128%N in
    let hi := if (b0 =? 237)%N then 159%N else 191%N in
    if inRange lo hi b1 && tail b2 then (three, 3) else (RuneError, 1)
  else if (b0 <? 245)%N then
    let lo := if (b0 =? 240)%N then 144%N else 128%N in
    let hi := if (b0 =? 244)%N then 143%N else 191%N in
    if inRange lo hi b1 && tail b2 && tail b3 then (four, 4) else (RuneError, 1)
  else (RuneError, 1).

(** The runes of a string as [for _, r := range s] yields them, each with the
    bytes it was decoded from.  [skip] counts the bytes of the current rune
    still to be stepped over. *)
Fixpoint runes_from (s : string) (skip : nat) : list (N * string) :=
  match s with
  | EmptyString => []
  | String c s' =>
      match skip with
      | S k => runes_from s' k
      | O =>
          let '(r, w) := DecodeRune (N_of_ascii c) s' in
          (r, substring 0 w s) :: runes_from s' (w - 1)
      end
  end.

Definition runes (s : string) : list (N * string) := runes_from s 0.

(** [unicode.IsSpace]. *)
Definition IsSpace (r : N) : bool :=
  if (r <=? 255)%N then
    inRange 9 13 (Some r) || (r =? 32)%N || (r =? 133)%N || (r =? 160)%N
  else
    (r =? 5760)%N || inRange 8192 8202 (Some r) || (r =? 8232)%N
    || (r =? 8233)%N || (r =? 8239)%N || (r =? 8287)%N || (r =? 12288)%N.

(** The loop of [strings.FieldsFunc]: [cur] is the field being read, if any. *)
Fixpoint fields_loop (rs : list (N * string)) (cur : option string) : list string :=
  match rs with
  | [] => match cur with Some f => [f] | None => [] end
  | (r, bytes) :: rs' =>
      if IsSpace r then
        match cur with
        | Some f => f :: fields_loop rs' None
        | None => fields_loop rs' None
        end
      else fields_loop rs' (Some (default "" cur +:+ bytes))
  end.

(** [strings.Fields]: the maximal runs of non-space runes. *)
Definition Fields (s : string) : list string := fields_loop (runes s) None.

Definition HasPrefix (s pre : string) : bool := String.prefix pre s.

Definition HasSuffix (s suf : string) : bool :=
  (String.length suf <=? String.length s)%nat
  && String.eqb (substring (String.length s - String.length suf) (String.length suf) s) suf.

(** [strings.SplitN s sep n] for a non-empty [sep] and [n > 0]: at most [n]
    pieces, the last one the unsplit rest. *)
Fixpoint splitn_loop (cuts : nat) (s sep : string) : list string :=
  match cuts with
  | S k =>
      match index 0 sep s with
      | Some m =>
          let from := (m + String.length sep)%nat in
          substring 0 m s
            :: splitn_loop k (substring from (String.length s - from) s) sep
      | None => [s]
      end
  | O => [s]
  end.

Definition SplitN (s sep : string) (n : nat) : list string :=
  match n with
  | O => []
  | S k => splitn_loop k s sep
  end.

(** [strings.ReplaceAll s old new] for a non-empty [old]: the occurrences are
    replaced from the left, without overlap. *)
Fixpoint replace_from (old new s : string) (skip : nat) : string :=
  match s with
  | EmptyString => EmptyString
  | String c s' =>
      match skip with
      | S k => replace_from old new s' k
      | O =>
          if String.prefix old s
          then new +:+ replace_from old new s' (String.length old - 1)
          else String c (replace_from old new s' 0)
      end
  end.

Definition ReplaceAll (s old new : string) : string := replace_from old new s 0.

(** ** Go's [int] *)

Definition int_min : Z := - 2 ^ 63.
Definition int_max : Z := 2 ^ 63 - 1.
Definition is_int (z : Z) : Prop := (int_min <= z <= int_max)%Z.
Definition wrap_int (z : Z) : Z := ((z - int_min) mod 2 ^ 64 + int_min)%Z.
Definition int_neg (z : Z) : Z := wrap_int (- z).
Definition int_add (a b : Z) : Z := wrap_int (a + b).
Definition len {A} (l : list A) : Z := Z.of_nat (length l).

(** What a call does: it returns, or the Go runtime panics. *)
Inductive res (A : Type) : Type :=
  | Ok (a : A)
  | Panic.
Arguments Ok {A} a.
Arguments Panic {A}.

(** ** types.Twter *)

(** The [Follow] map of a Twter is left out: no function modelled here reads
    or writes it, and it is nil in every Twter these functions build. *)
Record Twter : Type :=
  mkTwter { Nick : string; URL : string; Avatar : string; Tagline : string }.

Definition Twter_zero : Twter := mkTwter "" "" "" "".

(** ** Comments: the metadata store *)

Record Comment : Type := mkComment { comment : string; key : string; value : string }.

Definition NewComment (c : string) : Comment := mkComment c "" "".
Definition NewCommentValue (c k v : string) : Comment := mkComment c k v.
Definition Comment_IsNil (n : Comment) : bool := String.eqb (comment n) "".
Definition Comment_Literal (n : Comment) : string := comment n +:+ NL.

(** [Comments] is [[]*Comment]; the entries are never written after the parser
    built them and are kept by value. *)
Definition Comments : Type := list Comment.

Definition Comments_String (lis : Comments) : string :=
  String.concat "" (map Comment_Literal lis).

(** The loop of [GetN] from entry [i] on, [idx] holding the positions of the
    matches seen so far: the entry returned from inside the loop, or the
    final [idx]. *)
Fixpoint GetN_loop (k : string) (n : Z) (rest : list Comment) (i : nat) (idx : list nat)
  : Comment + list nat :=
  match rest with
  | [] => inr idx
  | c :: rest' =>
      if (n =? 0)%Z && String.eqb k (key c) then inl c
      else
        let idx' := if String.eqb k (key c) then (idx ++ [i])%list else idx in
        if (n =? len idx')%Z && String.eqb k (key c) then inl c
        else GetN_loop k n rest' (S i) idx'
  end.

(** Indexing a slice: out of range is a run-time panic. *)
Definition at_index {A} (l : list A) (i : Z) : res A :=
  if (i <? 0)%Z then Panic
  else match l !! Z.to_nat i with
       | Some x => Ok x
       | None => Panic
       end.

Definition Comments_GetN (lis : Comments) (k : string) (n : Z) : res (option Comment) :=
  match GetN_loop k n lis 0 [] with
  | inl c => Ok (Some c)
  | inr idx =>
      if (n <? 0)%Z && (int_neg n <? len idx)%Z then
        match at_index idx (int_add (len idx) n) with
        | Ok j => match at_index lis (Z.of_nat j) with
                  | Ok c => Ok (Some c)
                  | Panic => Panic
                  end
        | Panic => Panic
        end
      else Ok None
  end.

Fixpoint Comments_GetAll (lis : Comments) (pre : string) : list Comment :=
  match lis with
  | [] => []
  | c :: rest =>
      if String.eqb (key c) "" then Comments_GetAll rest pre
      else if HasPrefix (key c) pre then c :: Comments_GetAll rest pre
      else Comments_GetAll rest pre
  end.

(** The loop of [Followers] over the entries [GetAll] returned. *)
Fixpoint Followers_loop (flis : list Comment) : list Twter :=
  match flis with
  | [] => []
  | o :: rest =>
      match Fields (value o) with
      | nick :: url :: _ => mkTwter nick url "" "" :: Followers_loop rest
      | _ => Followers_loop rest
      end
  end.

Definition Comments_Followers (lis : Comments) : list Twter :=
  Followers_loop (Comments_GetAll lis "follow").


(** *** Reference definitions for [Followers] and [GetN] *)

(** The follower an entry stands for: its key starts with "follow" and its
    value has at least two fields, the first two being nick and url. *)
Definition follower (c : Comment) : option Twter :=
  if HasPrefix (key c) "follow" then
    match Fields (value c) with
    | nick :: url :: _ => Some (mkTwter nick url "" "")
    | _ => None
    end
  else None.

(** The entries whose key equals [k], in order. *)
Fixpoint matches (k : string) (lis : list Comment) : list Comment :=
  match lis with
  | [] => []
  | c :: rest => if String.eqb k (key c) then c :: matches k rest else matches k rest
  end.

(** Their positions, counted from [i]. *)
Fixpoint positions (k : string) (lis : list Comment) (i : nat) : list nat :=
  match lis with
  | [] => []
  | c :: rest =>
      if String.eqb k (key c) then i :: positions k rest (S i) else positions k rest (S i)
  end.


(** ** The libraries the source imports *)

Definition error : Type := string.

(** A parsed [url.URL], kept as what the source observes of it. *)
Record url_URL : Type := mkURL { url_Hostname : string; url_Path : string }.

(** [time], [net/url] and [blake2b] are taken as they are: a type of instants
    with the zero [time.Time{}] and its RFC 3339 layout, [url.Parse], and
    [blake2b.Sum256], whose result type is [[32]byte], and [json.Unmarshal]
    into the struct of [DecodeJSON]. *)
(** The struct [DecodeJSON] unmarshals into, over the type of instants. *)
Record DecodedJSON (T : Type) : Type := mkDecodedJSON {
  enc_Twter : Twter;
  enc_Text : string;
  enc_Created : T;
  enc_Hash : string
}.
Arguments mkDecodedJSON {T}.
Arguments enc_Twter {T}.
Arguments enc_Text {T}.
Arguments enc_Created {T}.
Arguments enc_Hash {T}.

Class GoLib : Type := {
  time_Time : Type;
  time_zero : time_Time;
  time_Format_RFC3339 : time_Time -> string;
  url_Parse : string -> url_URL + error;
  blake2b_Sum256 : string -> string;
  blake2b_Sum256_length : forall p, String.length (blake2b_Sum256 p) = 32%nat;
  json_Unmarshal : string -> DecodedJSON time_Time + error
}.

(** *** encoding/base32, [StdEncoding] without padding *)

Definition encodeStd : string := "ABCDEFGHIJKLMNOPQRSTUVWXYZ234567".

Definition encodeChar (v : N) : string :=
  match String.get (N.to_nat (N.land v 31)) encodeStd with
  | Some c => String c EmptyString
  | None => EmptyString
  end.

Definition bytes_of (s : string) : list N := map N_of_ascii (list_ascii_of_string s).

(** The eight 5-bit groups of a quantum of up to five bytes; bytes past the
    end of the input count as zero. *)
Definition quantum (src : list N) : list N :=
  let s i := nth i src 0%N in
  let lo5 x := N.land x 31 in
  [ N.shiftr (s 0%nat) 3;
    N.lor (lo5 (N.shiftl (s 0%nat) 2)) (lo5 (N.shiftr (s 1%nat) 6));
    lo5 (N.shiftr (s 1%nat) 1);
    N.lor (lo5 (N.shiftl (s 1%nat) 4)) (lo5 (N.shiftr (s 2%nat) 4));
    N.lor (lo5 (N.shiftl (s 2%nat) 1)) (N.shiftr (s 3%nat) 7);
    lo5 (N.shiftr (s 3%nat) 2);
    N.lor (lo5 (N.shiftl (s 3%nat) 3)) (N.shiftr (s 4%nat) 5);
    lo5 (s 4%nat) ].

(** How many characters a final quantum of [n < 5] bytes yields. *)
Definition quantum_chars (n : nat) : nat :=
  match n with
  | 1 => 2 | 2 => 4 | 3 => 5 | 4 => 7 | _ => 8
  end%nat.

Definition encodeQuantum (src : list N) : string :=
  String.concat "" (map encodeChar (take (quantum_chars (length src)) (quantum src))).

Fixpoint base32_encode (src : list N) : string :=
  match src with
  | [] => EmptyString
  | a :: b :: c :: d :: e :: rest => encodeQuantum [a; b; c; d; e] +:+ base32_encode rest
  | _ => encodeQuantum src
  end.

Definition base32_EncodeToString (src : string) : string := base32_encode (bytes_of src).

(** [strings.ToLower] on the bytes of ASCII; [Hash] applies it to base32 text
    only.  Bytes from 128 on are left as they are here. *)
Definition lowerByte (c : ascii) : ascii :=
  let n := N_of_ascii c in
  if ((65 <=? n) && (n <=? 90))%N then ascii_of_N (n + 32) else c.

Fixpoint ToLower (s : string) : string :=
  match s with
  | EmptyString => EmptyString
  | String c s' => String (lowerByte c) (ToLower s')
  end.

Definition TwtHashLength : nat := 7.

(** The characters of lowercase base32: a to z and 2 to 7. *)
Definition is_base32_lower (c : ascii) : bool :=
  let n := N_of_ascii c in
  ((97 <=? n) && (n <=? 122) || (50 <=? n) && (n <=? 55))%N.

Fixpoint string_forall (p : ascii -> bool) (s : string) : bool :=
  match s with
  | EmptyString => true
  | String c s' => p c && string_forall p s'
  end.

(** ** The elements *)

(** A pointer is the index of its object in the store. *)
Abbreviation ptr := nat.

Definition QUOTE : string := chr 34.

(** [url] and [err] cache the outcome of [url.Parse] on the target; a
    [*url.URL] is never written through and is kept by value. *)
Record Mention : Type := mkMention {
  Mention_lit : string;
  Mention_name : string;
  Mention_domain : string;
  Mention_target : string;
  Mention_url : option url_URL;
  Mention_err : option error
}.

Record Tag : Type := mkTag {
  Tag_lit : string;
  Tag_tag : string;
  Tag_target : string;
  Tag_url : option url_URL;
  Tag_err : option error
}.

(** [tag] is a [*Tag]: nil, or the address of a Tag in the store. *)
Record Subject : Type := mkSubject { Subject_subject : string; Subject_tag : option ptr }.

Record Text : Type := mkText { Text_lit : string }.

Inductive LinkType : Type := LinkStandard | LinkMedia | LinkPlain | LinkNaked | LinkOther (n : Z).

Record Link : Type := mkLink { Link_linkType : LinkType; Link_text : string; Link_target : string }.

Inductive CodeType : Type := CodeInline | CodeBlock | CodeOther (n : Z).

Record Code : Type := mkCode { Code_codeType : CodeType; Code_lit : string }.

(** A value of the interface [Elem]: the nil interface, or one of the seven
    implementations of the package with its receiver, which for a pointer
    type may be the nil pointer.  Mentions and Tags are written through
    their pointers and live in the store; the other elements are never
    written after they are built and are kept by value.  [lineSeparator] is
    an empty struct none of whose methods reads its receiver. *)
Inductive Elem : Type :=
  | ENil
  | EMention (p : option ptr)
  | ETag (p : option ptr)
  | ESubject (s : option Subject)
  | EText (t : option Text)
  | ELineSeparator
  | ELink (l : option Link)
  | ECode (c : option Code).

(** ** The store and the monad of the methods *)

Record Store : Type := mkStore { mentionsAt : list Mention; tagsAt : list Tag }.

(** A method runs from a store, writes to its [io.Writer], and returns or
    panics; what it wrote and stored before a panic stays. *)
Definition M (A : Type) : Type := Store -> res A * string * Store.

Definition ret {A} (a : A) : M A := fun h => (Ok a, "", h).

Definition bind {A B} (m : M A) (f : A -> M B) : M B :=
  fun h =>
    match m h with
    | (Ok a, w, h') => let '(r, w', h'') := f a h' in (r, w +:+ w', h'')
    | (Panic, w, h') => (Panic, w, h')
    end.

Definition panic {A} : M A := fun h => (Panic, "", h).

Definition write (s : string) : M unit := fun h => (Ok tt, s, h).

(** Running a method on a [strings.Builder] of its own and taking
    [b.String()]. *)
Definition collect {A} (m : M A) : M string :=
  fun h =>
    match m h with
    | (Ok _, w, h') => (Ok w, "", h')
    | (Panic, _, h') => (Panic, "", h')
    end.

Definition loadMention (p : ptr) : M Mention :=
  fun h => match mentionsAt h !! p with
           | Some n => (Ok n, "", h)
           | None => (Panic, "", h)
           end.

Definition storeMention (p : ptr) (n : Mention) : M unit :=
  fun h => (Ok tt, "", mkStore (<[p := n]> (mentionsAt h)) (tagsAt h)).

Definition newMention (n : Mention) : M ptr :=
  fun h => (Ok (length (mentionsAt h)), "", mkStore (mentionsAt h ++ [n]) (tagsAt h)).

Definition loadTag (p : ptr) : M Tag :=
  fun h => match tagsAt h !! p with
           | Some n => (Ok n, "", h)
           | None => (Panic, "", h)
           end.

Definition storeTag (p : ptr) (n : Tag) : M unit :=
  fun h => (Ok tt, "", mkStore (mentionsAt h) (<[p := n]> (tagsAt h))).

Definition newTag (n : Tag) : M ptr :=
  fun h => (Ok (length (tagsAt h)), "", mkStore (mentionsAt h) (tagsAt h ++ [n])).

Notation "x <- m ;; k" := (bind m (fun x => k))
  (at level 100, m at next level, right associativity).
Notation "m ;;; k" := (bind m (fun _ => k))
  (at level 100, right associativity).

(** [m] returns [a] from [h] without writing or storing. *)
Definition reads {A} (m : M A) (h : Store) (a : A) : Prop := m h = (Ok a, "", h).

Fixpoint mapM {A B} (f : A -> M B) (l : list A) : M (list B) :=
  match l with
  | [] => ret []
  | a :: l' => b <- f a ;; bs <- mapM f l' ;; ret (b :: bs)
  end.

Fixpoint forM_ {A} (l : list A) (f : A -> M unit) : M unit :=
  match l with
  | [] => ret tt
  | a :: l' => f a ;;; forM_ l' f
  end.

Section Lextwt.
Context {L : GoLib}.

Record DateTime : Type := mkDateTime { DateTime_lit : string; DateTime_dt : time_Time }.

Definition NewDateTime (dt : time_Time) (lit : string) : DateTime :=
  mkDateTime (if String.eqb lit "" then time_Format_RFC3339 dt else lit) dt.

(** The methods of [*DateTime] take a receiver that may be nil. *)
Definition DateTime_IsNil (n : option DateTime) : bool :=
  match n with Some _ => false | None => true end.
Definition DateTime_Literal (n : option DateTime) : string :=
  match n with Some d => DateTime_lit d | None => "" end.
Definition DateTime_DateTime (n : option DateTime) : time_Time :=
  match n with Some d => DateTime_dt d | None => time_zero end.

(** ** Mention *)

Definition Mention_FormatCompact (n : Mention) : string :=
  if String.eqb (Mention_name n) "" && negb (String.eqb (Mention_target n) "")
  then "@<" +:+ Mention_target n +:+ ">"
  else "@" +:+ Mention_name n.

Definition Mention_FormatText (n : Mention) : string :=
  let name := negb (String.eqb (Mention_name n) "") in
  let target := negb (String.eqb (Mention_target n) "") in
  if name && negb target then "@" +:+ Mention_name n
  else if negb name && target then "@<" +:+ Mention_target n +:+ ">"
  else if name && target then "@<" +:+ Mention_name n +:+ " " +:+ Mention_target n +:+ ">"
  else "".

Definition Mention_FormatMarkdown (n : Mention) : string :=
  let name := negb (String.eqb (Mention_name n) "") in
  let target := negb (String.eqb (Mention_target n) "") in
  if name && negb target then "@" +:+ Mention_name n
  else if negb name && target then "<" +:+ Mention_target n +:+ ">"
  else if name && target
       then "[@" +:+ Mention_name n +:+ "](" +:+ Mention_target n +:+ "#" +:+ Mention_name n +:+ ")"
  else "".

Definition Mention_FormatHTML (n : Mention) : string :=
  if String.eqb (Mention_target n) "" then
    "@" +:+ Mention_name n
    +:+ (if String.eqb (Mention_domain n) "" then ""
         else "<em>@" +:+ Mention_name n +:+ "</em>")
  else
    "<a href=" +:+ QUOTE +:+ Mention_target n +:+ QUOTE +:+ ">@" +:+ Mention_name n
    +:+ (if String.eqb (Mention_domain n) "" then ""
         else "<em>@" +:+ Mention_domain n +:+ "</em>")
    +:+ "</a>".

(** [URL()] parses the target once and keeps the outcome. *)
Definition Mention_URL (n : Mention) : Mention * option url_URL :=
  match Mention_url n, Mention_err n with
  | None, None =>
      match url_Parse (Mention_target n) with
      | inl u => (mkMention (Mention_lit n) (Mention_name n) (Mention_domain n)
                            (Mention_target n) (Some u) None, Some u)
      | inr e => (mkMention (Mention_lit n) (Mention_name n) (Mention_domain n)
                            (Mention_target n) None (Some e), None)
      end
  | u, _ => (n, u)
  end.

Definition Mention_SetTarget (n : Mention) (target : string) : Mention :=
  mkMention (Mention_lit n) (Mention_name n) (Mention_domain n) target None None.

Definition set_Mention_domain (n : Mention) (d : string) : Mention :=
  mkMention (Mention_lit n) (Mention_name n) d (Mention_target n) (Mention_url n) (Mention_err n).
Definition set_Mention_name (n : Mention) (x : string) : Mention :=
  mkMention (Mention_lit n) x (Mention_domain n) (Mention_target n) (Mention_url n) (Mention_err n).
Definition set_Mention_target (n : Mention) (t : string) : Mention :=
  mkMention (Mention_lit n) (Mention_name n) (Mention_domain n) t (Mention_url n) (Mention_err n).
Definition set_Mention_lit (n : Mention) (l : string) : Mention :=
  mkMention l (Mention_name n) (Mention_domain n) (Mention_target n) (Mention_url n) (Mention_err n).

Definition NewMention (name target : string) : M ptr :=
  let m0 := mkMention "" name "" target None None in
  let m1 := set_Mention_lit m0 (Mention_FormatText m0) in
  let m2 :=
    match SplitN name "@" 2 with
    | [a; b] => set_Mention_domain (set_Mention_name m1 a) b
    | _ => m1
    end in
  let m3 :=
    if String.eqb (Mention_domain m2) "" && negb (String.eqb (Mention_target m2) "") then
      match Mention_URL m2 with
      | (m2', Some u) => set_Mention_domain m2' (url_Hostname u)
      | (m2', None) => m2'
      end
    else m2 in
  newMention m3.

(** ** Tag *)

Definition Tag_FormatCompact (n : Tag) : string := "#" +:+ Tag_tag n.

Definition Tag_FormatText (n : Tag) : string :=
  if String.eqb (Tag_target n) "" then Tag_FormatCompact n
  else if String.eqb (Tag_tag n) "" then "#<" +:+ Tag_target n +:+ ">"
  else "#<" +:+ Tag_tag n +:+ " " +:+ Tag_target n +:+ ">".

Definition Tag_URL (n : Tag) : Tag * (option url_URL * option error) :=
  match Tag_url n, Tag_err n with
  | None, None =>
      match url_Parse (Tag_target n) with
      | inl u => (mkTag (Tag_lit n) (Tag_tag n) (Tag_target n) (Some u) None, (Some u, None))
      | inr e => (mkTag (Tag_lit n) (Tag_tag n) (Tag_target n) None (Some e), (None, Some e))
      end
  | u, e => (n, (u, e))
  end.

(** The Tag after the call, and the text written, unless the cached URL is
    nil and [url.Hostname()] panics. *)
Definition Tag_FormatMarkdown (n : Tag) : Tag * res string :=
  if String.eqb (Tag_target n) "" then (n, Ok (Tag_FormatCompact n))
  else if String.eqb (Tag_tag n) "" then
    match Tag_URL n with
    | (n', (Some u, _)) =>
        (n', Ok ("[" +:+ url_Hostname u +:+ url_Path u +:+ "](" +:+ Tag_target n +:+ ")"))
    | (n', (None, _)) => (n', Panic)
    end
  else (n, Ok ("[#" +:+ Tag_tag n +:+ "](" +:+ Tag_target n +:+ ")")).

Definition Tag_FormatHTML (n : Tag) : string :=
  if String.eqb (Tag_target n) "" then Tag_FormatCompact n
  else "<a href=" +:+ QUOTE +:+ Tag_target n +:+ QUOTE +:+ ">#" +:+ Tag_tag n +:+ "</a>".

Definition set_Tag_target (n : Tag) (t : string) : Tag :=
  mkTag (Tag_lit n) (Tag_tag n) t (Tag_url n) (Tag_err n).

Definition NewTag (tag target : string) : M ptr :=
  let m := mkTag "" tag target None None in
  newTag (mkTag (Tag_FormatText m) tag target None None).

(** [CloneTag] on a [*Tag] that may be nil. *)
Definition Tag_CloneTag (p : option ptr) : M (option ptr) :=
  match p with
  | None => ret None
  | Some p => n <- loadTag p ;; q <- newTag n ;; ret (Some q)
  end.

(** The methods of a non-nil [*Tag], run on the Tag at [p]. *)
Definition Tag_Literal_at (p : ptr) : M string := n <- loadTag p ;; ret (Tag_lit n).
Definition Tag_FormatCompact_at (p : ptr) : M unit := n <- loadTag p ;; write (Tag_FormatCompact n).
Definition Tag_FormatText_at (p : ptr) : M unit := n <- loadTag p ;; write (Tag_FormatText n).
Definition Tag_FormatHTML_at (p : ptr) : M unit := n <- loadTag p ;; write (Tag_FormatHTML n).
Definition Tag_FormatMarkdown_at (p : ptr) : M unit :=
  n <- loadTag p ;;
  let '(n', r) := Tag_FormatMarkdown n in
  storeTag p n' ;;;
  match r with
  | Ok s => write s
  | Panic => panic
  end.

(** ** Subject, Text, Link, Code *)

Definition NewSubject (text : string) : Subject := mkSubject text None.

Definition NewSubjectTag (tag target : string) : M Subject :=
  p <- NewTag tag target ;; ret (mkSubject "" (Some p)).

Definition Subject_Literal (n : Subject) : M string :=
  match Subject_tag n with
  | Some p => l <- Tag_Literal_at p ;; ret ("(" +:+ l +:+ ")")
  | None => ret ("(" +:+ Subject_subject n +:+ ")")
  end.

Definition Subject_Text (n : Subject) : M string :=
  match Subject_tag n with
  | None => ret (Subject_subject n)
  | Some p => Tag_Literal_at p
  end.

Definition Subject_Tag (n : Subject) : option ptr := Subject_tag n.

Definition Subject_FormatText (n : Subject) : M unit :=
  write "(" ;;;
  match Subject_tag n with
  | None => write (Subject_subject n)
  | Some p => Tag_FormatCompact_at p
  end ;;;
  write ")".

Definition Subject_FormatMarkdown (n : Subject) : M unit :=
  write "(" ;;;
  match Subject_tag n with
  | None => write (Subject_subject n)
  | Some p => Tag_FormatMarkdown_at p
  end ;;;
  write ")".

Definition Subject_FormatHTML (n : Subject) : M unit :=
  write "(" ;;;
  match Subject_tag n with
  | None => write (Subject_subject n)
  | Some p => Tag_FormatHTML_at p
  end ;;;
  write ")".

Definition Subject_String (n : Subject) : M string := collect (Subject_FormatText n).

Definition Subject_Clone (n : Subject) : M Subject :=
  t <- Tag_CloneTag (Subject_tag n) ;; ret (mkSubject (Subject_subject n) t).

Definition NewText (txt : string) : Text := mkText txt.

Definition NewLink (text target : string) (linkType : LinkType) : Link :=
  mkLink linkType text target.

Definition Link_Literal (n : Link) : string :=
  match Link_linkType n with
  | LinkNaked => Link_target n
  | LinkPlain => "<" +:+ Link_target n +:+ ">"
  | LinkMedia => "![" +:+ Link_text n +:+ "](" +:+ Link_target n +:+ ")"
  | _ => "[" +:+ Link_text n +:+ "](" +:+ Link_target n +:+ ")"
  end.

Definition NewCode (text : string) (codeType : CodeType) : Code := mkCode codeType text.

Definition Code_Literal (n : Code) : string :=
  match Code_codeType n with
  | CodeBlock => "```" +:+ Code_lit n +:+ "```"
  | _ => "`" +:+ Code_lit n +:+ "`"
  end.

Definition Code_String (n : Code) : string := ReplaceAll (Code_Literal n) LS NL.

(** ** The methods of [Elem] and of the formatting interfaces *)

(** [elem == nil || elem.IsNil()]: the test that guards every use of an
    element in the source. *)
Definition Elem_IsNil (e : Elem) : bool :=
  match e with
  | ENil => true
  | EMention p | ETag p => bool_decide (p = None)
  | ESubject None | EText None | ELink None | ECode None => true
  | _ => false
  end.

(** A method that reads a field of a nil receiver panics, as does a method
    called on the nil interface. *)
Definition Elem_Literal (e : Elem) : M string :=
  match e with
  | EMention (Some p) => n <- loadMention p ;; ret (Mention_lit n)
  | ETag (Some p) => Tag_Literal_at p
  | ESubject (Some n) => Subject_Literal n
  | EText (Some n) => ret (Text_lit n)
  | ELineSeparator => ret LS
  | ELink (Some n) => ret (Link_Literal n)
  | ECode (Some n) => ret (Code_Literal n)
  | _ => panic
  end.

Definition Elem_Clone (e : Elem) : M Elem :=
  match e with
  | ENil => panic
  | EMention None => ret ENil
  | EMention (Some p) => n <- loadMention p ;; q <- newMention n ;; ret (EMention (Some q))
  | ETag p => q <- Tag_CloneTag p ;; ret (ETag q)
  | ESubject None => ret ENil
  | ESubject (Some n) => n' <- Subject_Clone n ;; ret (ESubject (Some n'))
  | EText None => ret ENil
  | EText (Some n) => ret (EText (Some (mkText (Text_lit n))))
  | ELineSeparator => ret ELineSeparator
  | ELink None => ret ENil
  | ELink (Some n) => ret (ELink (Some (mkLink (Link_linkType n) (Link_text n) (Link_target n))))
  | ECode None => ret ENil
  | ECode (Some n) => ret (ECode (Some (mkCode (Code_codeType n) (Code_lit n))))
  end.

(** Which implementations satisfy [ElemHTML], [ElemMarkdown], [ElemText] and
    [ElemCompact]. *)
Definition is_ElemHTML (e : Elem) : bool :=
  match e with EMention _ | ETag _ | ESubject _ => true | _ => false end.
Definition is_ElemMarkdown (e : Elem) : bool :=
  match e with EMention _ | ETag _ | ESubject _ | ECode _ => true | _ => false end.
Definition is_ElemText (e : Elem) : bool :=
  match e with EMention _ | ETag _ | ESubject _ | ELineSeparator => true | _ => false end.
Definition is_ElemCompact (e : Elem) : bool :=
  match e with EMention _ | ETag _ => true | _ => false end.

Definition Elem_FormatHTML (e : Elem) : M unit :=
  match e with
  | EMention (Some p) => n <- loadMention p ;; write (Mention_FormatHTML n)
  | ETag (Some p) => Tag_FormatHTML_at p
  | ESubject (Some n) => Subject_FormatHTML n
  | _ => panic
  end.

Definition Elem_FormatMarkdown (e : Elem) : M unit :=
  match e with
  | EMention (Some p) => n <- loadMention p ;; write (Mention_FormatMarkdown n)
  | ETag (Some p) => Tag_FormatMarkdown_at p
  | ESubject (Some n) => Subject_FormatMarkdown n
  | ECode (Some n) => write (Code_String n)
  | _ => panic
  end.

Definition Elem_FormatText (e : Elem) : M unit :=
  match e with
  | EMention (Some p) => n <- loadMention p ;; write (Mention_FormatText n)
  | ETag (Some p) => Tag_FormatText_at p
  | ESubject (Some n) => Subject_FormatText n
  | ELineSeparator => write NL
  | _ => panic
  end.

Definition Elem_FormatCompact (e : Elem) : M unit :=
  match e with
  | EMention (Some p) => n <- loadMention p ;; write (Mention_FormatCompact n)
  | ETag (Some p) => Tag_FormatCompact_at p
  | _ => panic
  end.

Definition Elem_writeLiteral (e : Elem) : M unit := l <- Elem_Literal e ;; write l.

(** ** Twt *)

(** The indices hold [*Mention], [*Tag] and [*Link]; [append] never stores a
    nil pointer in them.  Slices are kept as lists: the only writes into the
    slices of a Twt after [append] store back the pointer already there. *)
Record Twt : Type := mkTwt {
  dt : option DateTime;
  msg : list Elem;
  mentions : list ptr;
  tags : list ptr;
  links : list Link;
  hash : string;
  subject : option Subject;
  twter : Twter;
  pos : Z
}.

Definition set_hash (twt : Twt) (h : string) : Twt :=
  mkTwt (dt twt) (msg twt) (mentions twt) (tags twt) (links twt) h (subject twt)
        (twter twt) (pos twt).

Definition Twt_append (twt : Twt) (elem : Elem) : Twt :=
  if Elem_IsNil elem then twt
  else
    let msg' := msg twt ++ [elem] in
    match elem with
    | ESubject (Some s) =>
        mkTwt (dt twt) msg' (mentions twt)
              (match Subject_tag s with
               | Some p => tags twt ++ [p]
               | None => tags twt
               end)
              (links twt) (hash twt)
              (match subject twt with
               | None => Some s
               | Some s0 => Some s0
               end)
              (twter twt) (pos twt)
    | ETag (Some p) =>
        mkTwt (dt twt) msg' (mentions twt) (tags twt ++ [p]) (links twt) (hash twt)
              (subject twt) (twter twt) (pos twt)
    | EMention (Some p) =>
        mkTwt (dt twt) msg' (mentions twt ++ [p]) (tags twt) (links twt) (hash twt)
              (subject twt) (twter twt) (pos twt)
    | ELink (Some l) =>
        mkTwt (dt twt) msg' (mentions twt) (tags twt) (links twt ++ [l]) (hash twt)
              (subject twt) (twter twt) (pos twt)
    | _ =>
        mkTwt (dt twt) msg' (mentions twt) (tags twt) (links twt) (hash twt)
              (subject twt) (twter twt) (pos twt)
    end.

Definition NewTwt (tw : Twter) (d : option DateTime) (elems : list Elem) : Twt :=
  fold_left Twt_append elems (mkTwt d [] [] [] [] "" None tw 0).

Definition Twt_Elems (twt : Twt) : list Elem := msg twt.
Definition Twt_FilePos (twt : Twt) : Z := pos twt.
Definition Twt_Twter (twt : Twt) : Twter := twter twt.
Definition Twt_Created (twt : Twt) : time_Time := DateTime_DateTime (dt twt).
Definition Twt_Mentions (twt : Twt) : list ptr := mentions twt.
Definition Twt_Tags (twt : Twt) : list ptr := tags twt.
Definition Twt_Links (twt : Twt) : list Link := links twt.

Definition Twt_LiteralText (twt : Twt) : M string :=
  collect (forM_ (msg twt) (fun s => if Elem_IsNil s then ret tt else Elem_writeLiteral s)).

Definition Twt_Literal (twt : Twt) : M string :=
  collect (write (DateTime_Literal (dt twt)) ;;;
           write TAB ;;;
           (l <- Twt_LiteralText twt ;; write l) ;;;
           write NL).

Definition Twt_CloneTwt (twt : Twt) : M Twt :=
  msg' <- mapM Elem_Clone (msg twt) ;;
  ret (NewTwt (twter twt) (dt twt) msg').

Definition Twt_Clone (twt : Twt) : M Twt := Twt_CloneTwt twt.

Definition Twt_Text (twt : Twt) : M string :=
  collect (forM_ (msg twt)
             (fun s => if is_ElemText s then Elem_FormatText s else Elem_writeLiteral s)).

(** The type switch of [Format] for the verb [c], on one element. *)
Definition Elem_Format (c : ascii) (elem : Elem) : M unit :=
  if Ascii.eqb c "H" then
    if is_ElemHTML elem then Elem_FormatHTML elem
    else if is_ElemMarkdown elem then Elem_FormatMarkdown elem
    else if is_ElemText elem then Elem_FormatText elem
    else Elem_writeLiteral elem
  else if Ascii.eqb c "T" then
    if is_ElemText elem then Elem_FormatText elem
    else Elem_writeLiteral elem
  else if Ascii.eqb c "M" then
    if is_ElemMarkdown elem then Elem_FormatMarkdown elem
    else if is_ElemText elem then Elem_FormatText elem
    else Elem_writeLiteral elem
  else if Ascii.eqb c "C" then
    if is_ElemCompact elem then Elem_FormatCompact elem
    else Elem_writeLiteral elem
  else Elem_writeLiteral elem.

(** [Format(state, c)]; [plus] is [state.Flag('+')]. *)
Definition Twt_Format (plus : bool) (c : ascii) (twt : Twt) : M unit :=
  (if plus then write (DateTime_Literal (dt twt)) ;;; write TAB else ret tt) ;;;
  forM_ (msg twt) (Elem_Format c).

(** [fmt.Sprintf] with the single verb [c] on a Twt, for the verbs the
    source uses. The verb T is handled by fmt itself, which prints the type
    of the operand and does not call [Format]; the operand is a [Twt] of the
    package lextwt. (So is the verb p, which the source does not use and
    which is not modelled.) For every other verb fmt calls [Format] and, when
    it panics, recovers and prints the panic after what was written. Every
    panic of [Format] is a nil dereference. *)
Definition fmt_panic (c : ascii) : string :=
  "%!" +:+ String c "(PANIC=Format method: runtime error: invalid memory address or nil pointer dereference)".

Definition Sprintf_Twt (plus : bool) (c : ascii) (twt : Twt) : M string :=
  fun h =>
    if Ascii.eqb c "T" then (Ok "lextwt.Twt", "", h)
    else
      match Twt_Format plus c twt h with
      | (Ok _, w, h') => (Ok w, "", h')
      | (Panic, w, h') => (Ok (w +:+ fmt_panic c), "", h')
      end.

Definition Twt_FormatTwt (twt : Twt) : M string :=
  s <- Sprintf_Twt true "L" twt ;; ret (s +:+ NL).

(** ** types.FmtOpts, types.FeedLookup, types.TwtTextFormat *)

Record FmtOpts : Type := mkFmtOpts {
  LocalURL : option url_URL;
  IsLocalURL : string -> bool;
  UserURL : string -> string;
  ExternalURL : string -> string -> string;
  URLForTag : string -> string;
  URLForUser : string -> string
}.

(** [FeedLookup(string) *Twter]. *)
Definition FeedLookup : Type := string -> option Twter.

Definition MarkdownFmt : Z := 0.
Definition HTMLFmt : Z := 1.
Definition TextFmt : Z := 2.

(** The body of the loop of [FormatText] over the tags, for the Tag at [p]. *)
Definition FormatText_tag (mode : Z) (p : ptr) : M unit :=
  if (mode =? TextFmt)%Z then
    n <- loadTag p ;; storeTag p (set_Tag_target n "")
  else ret tt.

(** The body of its loop over the mentions. *)
Definition FormatText_mention (mode : Z) (opts : FmtOpts) (p : ptr) : M unit :=
  if (mode =? TextFmt)%Z then
    n <- loadMention p ;;
    n1 <- (if String.eqb (Mention_domain n) ""
              && IsLocalURL opts (Mention_target n)
              && HasSuffix (Mention_target n) "/twtxt.txt"
           then match LocalURL opts with
                | Some u => ret (set_Mention_domain n (url_Hostname u))
                | None => panic
                end
           else ret n) ;;
    storeMention p (set_Mention_target n1 "")
  else if (mode =? MarkdownFmt)%Z || (mode =? HTMLFmt)%Z then
    n <- loadMention p ;;
    if IsLocalURL opts (Mention_target n) && HasSuffix (Mention_target n) "/twtxt.txt"
    then storeMention p (set_Mention_target n (UserURL opts (Mention_target n)))
    else
      let n1 :=
        if String.eqb (Mention_domain n) "" then
          match url_Parse (Mention_target n) with
          | inl u => set_Mention_domain n (url_Hostname u)
          | inr _ => n
          end
        else n in
      storeMention p
        (set_Mention_target n1 (ExternalURL opts (Mention_name n1) (Mention_target n1)))
  else ret tt.

(** [FormatText] once [twt = *twt.CloneTwt()] has replaced the receiver by
    its clone [c]. *)
Definition FormatText_on (mode : Z) (opts : option FmtOpts) (c : Twt) : M string :=
  match opts with
  | Some o =>
      forM_ (tags c) (FormatText_tag mode) ;;;
      forM_ (mentions c) (FormatText_mention mode o)
  | None => ret tt
  end ;;;
  if (mode =? HTMLFmt)%Z then Sprintf_Twt false "H" c
  else if (mode =? TextFmt)%Z then Sprintf_Twt false "T" c
  else if (mode =? MarkdownFmt)%Z then Sprintf_Twt false "M" c
  else Sprintf_Twt false "L" c.

Definition Twt_FormatText (mode : Z) (opts : option FmtOpts) (twt : Twt) : M string :=
  c <- Twt_CloneTwt twt ;; FormatText_on mode opts c.

Definition ExpandLinks_tag (opts : option FmtOpts) (p : ptr) : M unit :=
  n <- loadTag p ;;
  if String.eqb (Tag_target n) "" then
    match opts with
    | Some o => storeTag p (set_Tag_target n (URLForTag o (Tag_tag n)))
    | None => panic
    end
  else ret tt.

Definition ExpandLinks_mention (lookup : option FeedLookup) (p : ptr) : M unit :=
  n <- loadMention p ;;
  match lookup with
  | Some f =>
      if String.eqb (Mention_target n) "" then
        match f (Mention_name n) with
        | Some tw =>
            let n1 := set_Mention_name n (Nick tw) in
            let n2 :=
              match SplitN (Nick tw) "@" 2 with
              | [a; b] => set_Mention_domain (set_Mention_name n1 a) b
              | _ => n1
              end in
            storeMention p (set_Mention_target n2 (URL tw))
        | None => panic
        end
      else ret tt
  | None => ret tt
  end.

Definition Twt_ExpandLinks (opts : option FmtOpts) (lookup : option FeedLookup) (twt : Twt)
  : M unit :=
  forM_ (tags twt) (ExpandLinks_tag opts) ;;;
  forM_ (mentions twt) (ExpandLinks_mention lookup).

(** ** Hash and Subject *)

(** [hash[len(hash)-TwtHashLength:]]; slicing from a negative bound panics. *)
Definition lastHash (h : string) : M string :=
  if (String.length h <? TwtHashLength)%nat then panic
  else ret (substring (String.length h - TwtHashLength) TwtHashLength h).

Definition hash_payload (twt : Twt) (literalText : string) : string :=
  URL (Twt_Twter twt) +:+ NL +:+ time_Format_RFC3339 (Twt_Created twt) +:+ NL +:+ literalText.

(** [Hash] has a value receiver: the hash it computes is returned and not
    kept in the Twt it was called on. *)
Definition Twt_Hash (twt : Twt) : M string :=
  if negb (String.eqb (hash twt) "") then ret (hash twt)
  else
    lt <- Twt_LiteralText twt ;;
    lastHash (ToLower (base32_EncodeToString (blake2b_Sum256 (hash_payload twt lt)))).

Definition Twt_Subject (twt : Twt) : M Subject :=
  match subject twt with
  | Some s => ret s
  | None => h <- Twt_Hash twt ;; NewSubjectTag h ""
  end.

(** ** The codecs *)

(** A value of the interface [types.Twt]: a [*Twt] of this package, or
    [types.NilTwt]. *)
Inductive types_Twt : Type :=
  | LexTwt (t : Twt)
  | NilTwt.

(** The lexer and the parser of the package, which [ParseText] and
    [ParseLine] run, are taken as they are. *)
Class Parser : Type := {
  ParseText : string -> M (list Elem * option error);
  ParseLine : string -> Twter -> M (types_Twt * option error)
}.

Context {P : Parser}.

Definition Twt_GobEncode (twt : Twt) : M string :=
  h <- Twt_Hash twt ;;
  l <- Twt_Literal twt ;;
  ret (Nick (Twt_Twter twt) +:+ TAB +:+ URL (Twt_Twter twt) +:+ TAB
       +:+ Avatar (Twt_Twter twt) +:+ TAB +:+ h +:+ TAB +:+ l).

(** [GobDecode] has a pointer receiver: the Twt after the call, and the
    error returned. *)
Definition Twt_GobDecode (twt : Twt) (data : string) : M (Twt * option error) :=
  match SplitN data TAB 5 with
  | [nick; url; avatar; h; line] =>
      let tw := mkTwter nick url avatar "" in
      let twt1 := set_hash twt h in
      r <- ParseLine line tw ;;
      match r with
      | (_, Some err) => ret (twt1, Some err)
      | (LexTwt t, None) =>
          ret (mkTwt (dt t) (msg t) (mentions t) (tags t) (links t) (hash twt1)
                     (subject t) (twter t) (pos twt1), None)
      | (NilTwt, None) => ret (twt1, None)
      end
  | _ => ret (twt, Some ("unable to decode twt: " +:+ data +:+ " "))
  end.

Definition DecodeJSON (data : string) : M (types_Twt * option error) :=
  match json_Unmarshal data with
  | inr err => ret (NilTwt, Some err)
  | inl enc =>
      let d := NewDateTime (enc_Created enc) "" in
      r <- ParseText (enc_Text enc) ;;
      match r with
      | (_, Some err) => ret (NilTwt, Some err)
      | (elems, None) =>
          ret (LexTwt (set_hash (NewTwt (enc_Twter enc) (Some d) elems) (enc_Hash enc)), None)
      end
  end.

(** *** Reference definitions for [NewTwt] *)

(** What [append] keeps of a sequence of elements. *)
Definition retained (elems : list Elem) : list Elem :=
  filter (fun e => Elem_IsNil e = false) elems.

(** The Tags an element brings into the tags index: itself when it is a Tag,
    its embedded Tag when it is a Subject that has one. *)
Definition elem_tags (e : Elem) : list ptr :=
  match e with
  | ETag (Some p) => [p]
  | ESubject (Some s) =>
      match Subject_tag s with
      | Some p => [p]
      | None => []
      end
  | _ => []
  end.

Definition elem_subject (e : Elem) : option Subject :=
  match e with
  | ESubject (Some s) => Some s
  | _ => None
  end.

Definition elem_mentions (e : Elem) : list ptr :=
  match e with
  | EMention (Some p) => [p]
  | _ => []
  end.

(** *** Twts in a store *)

(** An element as [append] keeps it, its pointers being addresses of the
    store. *)
Definition elem_ok (h : Store) (e : Elem) : Prop :=
  match e with
  | EMention (Some p) => p < length (mentionsAt h)
  | ETag (Some p) => p < length (tagsAt h)
  | ESubject (Some s) =>
      match Subject_tag s with
      | Some p => p < length (tagsAt h)
      | None => True
      end
  | EText (Some _) | ELineSeparator | ELink (Some _) | ECode (Some _) => True
  | _ => False
  end.

Definition Twt_ok (h : Store) (twt : Twt) : Prop := Forall (elem_ok h) (msg twt).

(** Every Mention and every Tag of [h] is in [h'] at its address, as it
    was. *)
Definition unchanged (h h' : Store) : Prop :=
  (forall p n, mentionsAt h !! p = Some n -> mentionsAt h' !! p = Some n)
  /\ (forall p n, tagsAt h !! p = Some n -> tagsAt h' !! p = Some n).

(** The first [n] Mentions and the first [m] Tags are as they were, and
    nothing was taken away. *)
Definition keeps (n m : nat) (h h' : Store) : Prop :=
  take n (mentionsAt h') = take n (mentionsAt h)
  /\ take m (tagsAt h') = take m (tagsAt h)
  /\ length (mentionsAt h) <= length (mentionsAt h')
  /\ length (tagsAt h) <= length (tagsAt h').

(** A computation that writes to no Mention below [n] and to no Tag below
    [m], whatever store of at least that size it runs from. *)
Definition frames {A} (n m : nat) (c : M A) : Prop :=
  forall h, n <= length (mentionsAt h) -> m <= length (tagsAt h) -> keeps n m h (c h).2.

(** A Tag with the outcome of [url.Parse] filled in: what its formatters
    depend on. *)
Definition Tag_norm (n : Tag) : Tag := (Tag_URL n).1.

(** An element with the objects it points to in place of its pointers. *)
Inductive ElemView : Type :=
  | VNil
  | VMention (n : option Mention)
  | VTag (n : option Tag)
  | VSubject (s : option (string * option (option Tag)))
  | VText (t : option Text)
  | VLineSeparator
  | VLink (l : option Link)
  | VCode (c : option Code).

Definition view (h : Store) (e : Elem) : ElemView :=
  match e with
  | ENil => VNil
  | EMention p => VMention (p ≫= fun p => mentionsAt h !! p)
  | ETag p => VTag (Tag_norm <$> (p ≫= fun p => tagsAt h !! p))
  | ESubject s =>
      VSubject ((fun s => (Subject_subject s,
                           (fun p => Tag_norm <$> tagsAt h !! p) <$> Subject_tag s)) <$> s)
  | EText t => VText t
  | ELineSeparator => VLineSeparator
  | ELink l => VLink l
  | ECode c => VCode c
  end.

(** Stores with the same Mentions and, up to the cached parse, the same
    Tags. *)
Definition store_sim (h h' : Store) : Prop :=
  mentionsAt h' = mentionsAt h /\ Tag_norm <$> tagsAt h' = Tag_norm <$> tagsAt h.

(** A computation that leaves the store as it was up to the cached
    parses. *)
Definition sims {A} (c : M A) : Prop := forall h, store_sim h (c h).2.

(** The pointers of an element are at or above [n] (Mentions) and [m]
    (Tags). *)
Definition elem_fresh (n m : nat) (e : Elem) : Prop :=
  Forall (fun p => n <= p) (elem_mentions e) /\ Forall (fun p => m <= p) (elem_tags e).

(** The pointers of an element are below [n] (Mentions) and [m] (Tags). *)
Definition elem_below (n m : nat) (e : Elem) : Prop :=
  Forall (fun p => p < n) (elem_mentions e) /\ Forall (fun p => p < m) (elem_tags e).

(** What a call returned and wrote, the store left aside. *)
Definition outcome {A} (x : res A * string * Store) : res A * string := x.1.

End Lextwt.

(** * Concrete libraries *)

(** ** BLAKE2b-256 (RFC 7693), unkeyed *)

Definition w64 (x : N) : N := N.land x (N.ones 64).

Definition rotr64 (x r : N) : N := N.lor (N.shiftr x r) (w64 (N.shiftl x (64 - r))).

Definition blake2b_IV : list N :=
  [ 0x6a09e667f3bcc908; 0xbb67ae8584caa73b; 0x3c6ef372fe94f82b; 0xa54ff53a5f1d36f1;
    0x510e527fade682d1; 0x9b05688c2b3e6c1f; 0x1f83d9abfb41bd6b; 0x5be0cd19137e2179 ]%N.

Definition blake2b_SIGMA : list (list nat) :=
  [ [0; 1; 2; 3; 4; 5; 6; 7; 8; 9; 10; 11; 12; 13; 14; 15];
    [14; 10; 4; 8; 9; 15; 13; 6; 1; 12; 0; 2; 11; 7; 5; 3];
    [11; 8; 12; 0; 5; 2; 15; 13; 10; 14; 3; 6; 7; 1; 9; 4];
    [7; 9; 3; 1; 13; 12; 11; 14; 2; 6; 5; 10; 4; 0; 15; 8];
    [9; 0; 5; 7; 2; 4; 10; 15; 14; 1; 11; 12; 6; 8; 3; 13];
    [2; 12; 6; 10; 0; 11; 8; 3; 4; 13; 7; 5; 15; 14; 1; 9];
    [12; 5; 1; 15; 14; 13; 4; 10; 0; 7; 6; 3; 9; 2; 8; 11];
    [13; 11; 7; 14; 12; 1; 3; 9; 5; 0; 15; 4; 8; 6; 2; 10];
    [6; 15; 14; 9; 11; 3; 0; 8; 12; 2; 13; 7; 1; 4; 10; 5];
    [10; 2; 8; 4; 7; 6; 1; 5; 15; 11; 9; 14; 3; 12; 13; 0] ]%nat.

Definition word (v : list N) (i : nat) : N := nth i v 0%N.

(** The mixing function G on the working vector. *)
Definition blake2b_G (v : list N) (a b c d : nat) (x y : N) : list N :=
  let va := w64 (word v a + word v b + x) in
  let vd := rotr64 (N.lxor (word v d) va) 32 in
  let vc := w64 (word v c + vd) in
  let vb := rotr64 (N.lxor (word v b) vc) 24 in
  let va := w64 (va + vb + y) in
  let vd := rotr64 (N.lxor vd va) 16 in
  let vc := w64 (vc + vd) in
  let vb := rotr64 (N.lxor vb vc) 63 in
  <[a := va]> (<[b := vb]> (<[c := vc]> (<[d := vd]> v))).

Definition blake2b_round (m : list N) (v : list N) (s : list nat) : list N :=
  let mi i := word m (nth i s 0%nat) in
  let v := blake2b_G v 0 4 8 12 (mi 0%nat) (mi 1%nat) in
  let v := blake2b_G v 1 5 9 13 (mi 2%nat) (mi 3%nat) in
  let v := blake2b_G v 2 6 10 14 (mi 4%nat) (mi 5%nat) in
  let v := blake2b_G v 3 7 11 15 (mi 6%nat) (mi 7%nat) in
  let v := blake2b_G v 0 5 10 15 (mi 8%nat) (mi 9%nat) in
  let v := blake2b_G v 1 6 11 12 (mi 10%nat) (mi 11%nat) in
  let v := blake2b_G v 2 7 8 13 (mi 12%nat) (mi 13%nat) in
  blake2b_G v 3 4 9 14 (mi 14%nat) (mi 15%nat).

(** The compression function F: state [h], message block [m] of sixteen
    words, byte counter [t], last-block flag. *)
Definition blake2b_F (h m : list N) (t : N) (last : bool) : list N :=
  let v := h ++ blake2b_IV in
  let v := <[12%nat := N.lxor (word v 12) (w64 t)]> v in
  let v := <[13%nat := N.lxor (word v 13) (N.shiftr t 64)]> v in
  let v := if last then <[14%nat := N.lxor (word v 14) (N.ones 64)]> v else v in
  let v := fold_left (blake2b_round m) (blake2b_SIGMA ++ take 2 blake2b_SIGMA) v in
  map (fun i => N.lxor (N.lxor (word h i) (word v i)) (word v (i + 8))) (seq 0 8).

(** A little-endian word of eight bytes, and back. *)
Definition le_word (bs : list N) : N :=
  fold_right (fun b acc => (b + 256 * acc)%N) 0%N (take 8 bs).

Definition le_bytes (w : N) : list N :=
  map (fun i => N.land (N.shiftr w (8 * N.of_nat i)) 255) (seq 0 8).

(** The sixteen words of a block of up to 128 bytes, padded with zeros. *)
Definition blake2b_block (bs : list N) : list N :=
  map (fun i => le_word (drop (8 * i) bs)) (seq 0 16).

Fixpoint blake2b_blocks (fuel : nat) (h : list N) (bs : list N) (t : N) : list N :=
  match fuel with
  | O => h
  | S fuel' =>
      if (length bs <=? 128)%nat
      then blake2b_F h (blake2b_block bs) (t + N.of_nat (length bs)) true
      else blake2b_blocks fuel' (blake2b_F h (blake2b_block (take 128 bs)) (t + 128) false)
             (drop 128 bs) (t + 128)
  end.

Definition string_of_bytes (bs : list N) : string :=
  string_of_list_ascii (map ascii_of_N bs).

(** The first 32 bytes of the final state. *)
Definition blake2b_digest (h : list N) : string :=
  string_of_bytes (le_bytes (word h 0) ++ le_bytes (word h 1)
                   ++ le_bytes (word h 2) ++ le_bytes (word h 3)).

Definition blake2b_256 (msg : string) : string :=
  let bs := bytes_of msg in
  let h0 := <[0%nat := N.lxor (word blake2b_IV 0) 0x01010020]> blake2b_IV in
  blake2b_digest (blake2b_blocks (S (length bs)) h0 bs 0).

(** Two hexadecimal digits per byte. *)
Definition hex_digit (n : N) : string :=
  match String.get (N.to_nat n) "0123456789abcdef" with
  | Some c => String c EmptyString
  | None => EmptyString
  end.

Definition hex (s : string) : string :=
  String.concat "" (map (fun b => hex_digit (N.shiftr b 4) +:+ hex_digit (N.land b 15))
                      (bytes_of s)).

(** ** Instants, URLs, JSON and a parser to run the definitions on *)

(** An instant as the civil date and time that RFC 3339 prints, with the
    offset of its zone in minutes east of UTC. *)
Record CivilTime : Type := mkCivil {
  civil_year : N; civil_month : N; civil_day : N;
  civil_hour : N; civil_minute : N; civil_second : N;
  civil_offset : Z
}.

Definition digit (n : N) : string := String (ascii_of_N (48 + n mod 10)) EmptyString.

Fixpoint decimal (width : nat) (n : N) : string :=
  match width with
  | O => EmptyString
  | S w => decimal w (n / 10) +:+ digit n
  end.

Definition civil_RFC3339 (t : CivilTime) : string :=
  decimal 4 (civil_year t) +:+ "-" +:+ decimal 2 (civil_month t) +:+ "-"
  +:+ decimal 2 (civil_day t) +:+ "T" +:+ decimal 2 (civil_hour t) +:+ ":"
  +:+ decimal 2 (civil_minute t) +:+ ":" +:+ decimal 2 (civil_second t)
  +:+ (if (civil_offset t =? 0)%Z then "Z"
       else (if (civil_offset t <? 0)%Z then "-" else "+")
            +:+ decimal 2 (Z.to_N (Z.abs (civil_offset t) / 60)) +:+ ":"
            +:+ decimal 2 (Z.to_N (Z.abs (civil_offset t) mod 60))).

(** [time.Time{}]: January 1 of year 1, 00:00:00 UTC. *)
Definition civil_zero : CivilTime := mkCivil 1 1 1 0 0 0 0.

(** A stand-in for [url.Parse] on URLs of the shape scheme://host:port/path;
    anything without "://" is read as a path. *)
Definition simple_url_Parse (s : string) : url_URL + error :=
  if negb (forallb (fun b => (32 <=? b)%N && negb (b =? 127)%N) (bytes_of s))
  then inr "net/url: invalid control character in URL"
  else
    match index 0 "://" s with
    | Some i =>
        let rest := substring (i + 3) (String.length s - (i + 3)) s in
        let cut := default (String.length rest) (index 0 "/" rest) in
        let authority := substring 0 cut rest in
        let host := substring 0 (default (String.length authority) (index 0 ":" authority))
                      authority in
        inl (mkURL host (substring cut (String.length rest - cut) rest))
    | None => inl (mkURL "" s)
    end.

Definition quoted (s : string) : string := QUOTE +:+ s +:+ QUOTE.

(** One payload and the struct it unmarshals into; the stand-in for
    [json.Unmarshal] knows this payload only. *)
Definition demoPayload : string :=
  "{" +:+ quoted "twter" +:+ ":{" +:+ quoted "nick" +:+ ":" +:+ quoted "bob" +:+ ","
  +:+ quoted "url" +:+ ":" +:+ quoted "https://bob.example/twtxt.txt" +:+ "},"
  +:+ quoted "text" +:+ ":" +:+ quoted "hello" +:+ ","
  +:+ quoted "created" +:+ ":" +:+ quoted "2020-12-02T01:04:00Z" +:+ ","
  +:+ quoted "hash" +:+ ":" +:+ quoted "abcdefg" +:+ "}".

Definition demoDecoded : DecodedJSON CivilTime :=
  mkDecodedJSON (mkTwter "bob" "https://bob.example/twtxt.txt" "" "") "hello"
    (mkCivil 2020 12 2 1 4 0 0) "abcdefg".

Definition demo_json_Unmarshal (data : string) : DecodedJSON CivilTime + error :=
  if String.eqb data demoPayload then inl demoDecoded
  else inr "invalid character looking for beginning of value".

Definition demoLib : GoLib := {|
  time_Time := CivilTime;
  time_zero := civil_zero;
  time_Format_RFC3339 := civil_RFC3339;
  url_Parse := simple_url_Parse;
  blake2b_Sum256 := blake2b_256;
  blake2b_Sum256_length := fun _ => eq_refl;
  json_Unmarshal := demo_json_Unmarshal
|}.

(** A stand-in for the parser that reads a text as one plain Text element
    and a line as a literal time stamp, a tab and such a text. *)
Definition demoParser : @Parser demoLib := {|
  ParseText := fun text =>
    ret (if String.eqb text "" then [] else [EText (Some (NewText text))], None);
  ParseLine := fun line tw =>
    match SplitN line TAB 2 with
    | [stamp; text] =>
        ret (LexTwt (NewTwt (L := demoLib) tw
                       (Some (NewDateTime (L := demoLib) civil_zero stamp))
                       [EText (Some (NewText text))]), None)
    | _ => ret (NilTwt, Some ("empty twt: " +:+ line))
    end
|}.

(** ** A store and Twts to run the definitions on *)

Definition emptyStore : Store := mkStore [] [].

Definition demoTwter : Twter := mkTwter "alice" "https://alice.example/twtxt.txt" "" "".

Definition demoDate : option (@DateTime demoLib) :=
  Some (NewDateTime (L := demoLib) (mkCivil 2020 12 2 1 4 0 0) "").

(** A subject that wraps a Tag, a text, a Mention, three Tags, a Link, a
    Code, a line separator, a second subject, and two nil elements. *)
Definition demoSetup : M (list Elem) :=
  s <- NewSubjectTag "abcdefg" "" ;;
  m <- NewMention (L := demoLib) "bob" "https://bob.example/twtxt.txt" ;;
  t1 <- NewTag "rocq" "" ;;
  t2 <- NewTag "" "https://example.com/tags/x" ;;
  t3 <- NewTag "" ("https://example.com/" +:+ TAB) ;;
  s2 <- NewSubjectTag "later" "" ;;
  ret [ ESubject (Some s); EText (Some (NewText " hello ")); EMention (Some m);
        ENil; EText (Some (NewText " ")); ETag (Some t1); ETag None; ETag (Some t2);
        ELineSeparator; ELink (Some (NewLink "site" "https://example.com" LinkStandard));
        ECode (Some (NewCode ("a" +:+ LS +:+ "b") CodeBlock)); ETag (Some t3);
        ESubject (Some s2) ].

Definition demoStore : Store := (demoSetup emptyStore).2.

Definition demoElems : list Elem :=
  match (demoSetup emptyStore).1.1 with
  | Ok es => es
  | Panic => []
  end.

Definition demoTwt : @Twt demoLib := NewTwt (L := demoLib) demoTwter demoDate demoElems.

(** A Twt with no Subject element and no hash yet. *)
Definition plainTwt : @Twt demoLib :=
  NewTwt (L := demoLib) demoTwter demoDate [EText (Some (NewText "hello"))].

Definition demoOpts : FmtOpts := {|
  LocalURL := Some (mkURL "alice.example" "");
  IsLocalURL := fun u => HasPrefix u "https://alice.example/";
  UserURL := fun u => "https://alice.example/user/" +:+ u;
  ExternalURL := fun nick u => "https://alice.example/external?nick=" +:+ nick +:+ "&uri=" +:+ u;
  URLForTag := fun tag => "https://alice.example/search?tag=" +:+ tag;
  URLForUser := fun user => "https://alice.example/user/" +:+ user
|}.

Definition demoLookup : FeedLookup :=
  fun name => if String.eqb name "bob"
              then Some (mkTwter "bob@bob.example" "https://bob.example/twtxt.txt" "" "")
              else None.

(** The literals of the elements [NewTwt] retains of [demoElems]. *)
Definition demoLiterals : list string :=
  [ "(#abcdefg)"; " hello "; "@<bob https://bob.example/twtxt.txt>"; " "; "#rocq";
    "#<https://example.com/tags/x>"; LS; "[site](https://example.com)";
    "```a" +:+ LS +:+ "b```"; "#<https://example.com/" +:+ TAB +:+ ">"; "(#later)" ].


(** A feed header to run the metadata store on. *)
Definition demoComments : Comments :=
  [ NewComment "# a feed";
    NewCommentValue "# nick = alice" "nick" "alice";
    NewCommentValue "# follow = bob https://bob.example/twtxt.txt" "follow"
      "bob https://bob.example/twtxt.txt";
    NewCommentValue "# following = 2" "following" "2";
    NewCommentValue "# follow = carol https://carol.example/twtxt.txt" "follow"
      "carol https://carol.example/twtxt.txt";
    NewCommentValue "# follow = broken" "follow" "broken" ].

(** * Reference definitions for the further properties *)

(** A stateful computation leaves the store in the relation [R] to the one
    it started from. *)
Definition preserves {A} (R : Store -> Store -> Prop) (c : M A) : Prop :=
  forall h, R h (c h).2.

(** What [ExpandLinks] may do to a Mention: its literal and its cached parse
    stay, and all of it stays when it has a target. *)
Definition Mention_expanded (n n' : Mention) : Prop :=
  Mention_lit n' = Mention_lit n
  /\ Mention_url n' = Mention_url n
  /\ Mention_err n' = Mention_err n
  /\ (Mention_target n <> "" -> n' = n).

(** What it may do to a Tag: nothing but set the target of one that has
    none. *)
Definition Tag_expanded (n n' : Tag) : Prop :=
  Tag_lit n' = Tag_lit n
  /\ Tag_tag n' = Tag_tag n
  /\ Tag_url n' = Tag_url n
  /\ Tag_err n' = Tag_err n
  /\ (Tag_target n <> "" -> n' = n).

Definition expanded (h h' : Store) : Prop :=
  Forall2 Mention_expanded (mentionsAt h) (mentionsAt h')
  /\ Forall2 Tag_expanded (tagsAt h) (tagsAt h').

Definition same_mentions (h h' : Store) : Prop := mentionsAt h' = mentionsAt h.

(** ** strings.Contains, and [strings.ContainsRune] for an ASCII rune *)

Definition Contains (s substr : string) : bool :=
  match index 0 substr s with
  | Some _ => true
  | None => false
  end.

Definition ContainsRune (s : string) (r : ascii) : bool := Contains s (String r "").

(** ** The methods of [types.Twter] *)

Definition Twter_IsZero (twter : Twter) : bool :=
  String.eqb (Nick twter) "" && String.eqb (URL twter) "".

Definition Twter_String (twter : Twter) : string := Nick twter +:+ TAB +:+ URL twter.

Section TypesTwter.
Context {L : GoLib}.

Definition Twter_Domain (twter : Twter) : string :=
  match SplitN (Nick twter) "@" 2 with
  | [_; d] => d
  | _ =>
      match url_Parse (URL twter) with
      | inl u => url_Hostname u
      | inr _ => ""
      end
  end.

Definition Twter_DomainNick (twter : Twter) : string :=
  if ContainsRune (Nick twter) "@" then Nick twter
  else
    match url_Parse (URL twter) with
    | inl u => Nick twter +:+ "@" +:+ url_Hostname u
    | inr _ => Nick twter
    end.

End TypesTwter.

(** ** types.SplitTwts *)

(** [types.Twts] is a slice of values of the interface [types.Twt]. The
    function reads of a Twt its [Created()] time only, compares it with
    [oldTime := time.Now().Add(-ttl)], and sorts the slice with [sort.Sort];
    these are taken as they are:
    [old twt] is [twt.Created().Before(oldTime)]. *)
Section TypesSplitTwts.
Context {T : Type}.
Variable old : T -> bool.
Variable sort_Sort : list T -> list T.

(** The loop, at position [pos] with [rest = twts[pos:]]: the final [pos]. *)
Fixpoint SplitTwts_loop (rest : list T) (pos N : Z) : Z :=
  match rest with
  | [] => pos
  | twt :: rest' =>
      if (pos <? N)%Z then
        if old twt then (pos - 1)%Z
        else SplitTwts_loop rest' (pos + 1)%Z N
      else pos
  end.

Definition SplitTwts (twts : list T) (N : Z) : list T * list T :=
  let twts := sort_Sort twts in
  let pos := SplitTwts_loop twts 0 N in
  if (pos <? 1)%Z then ([], twts)
  else (take (Z.to_nat pos) twts, drop (Z.to_nat pos) twts).

End TypesSplitTwts.

(** A [sort.Sort] for the examples: insertion sort, newest first, of Twts
    that are their creation time in seconds. *)
Fixpoint demo_insert (x : Z) (l : list Z) : list Z :=
  match l with
  | [] => [x]
  | y :: l' => if (y <? x)%Z then x :: l else y :: demo_insert x l'
  end.

Definition demo_sort (l : list Z) : list Z := fold_right demo_insert [] l.

(** ** types.Twts: the counts *)

(** [m[k]++] on a [map[string]int]: a key that is not in the map reads as
    0. *)
Definition incr (m : gmap string Z) (k : string) : gmap string Z :=
  <[k := int_add (default 0%Z (m !! k)) 1]> m.

(** The Twts of [types.Twts] are values of the interface [types.Twt]; the
    counts read their [Tags()], [Mentions()] and [Links()], and of these
    [Text()] and [Target()], [Twter()] and [String()]. *)
Section TypesCounts.
Context {T TG MN LK : Type}.
Variable types_Twt_Tags : T -> list TG.
Variable TwtTag_Text : TG -> string.
Variable TwtTag_Target : TG -> string.
Variable types_Twt_Mentions : T -> list MN.
Variable TwtMention_Twter : MN -> Twter.
Variable types_Twt_Links : T -> list LK.
Variable TwtLink_String : LK -> string.

Definition Twts_TagCount (twts : list T) : gmap string Z :=
  fold_left
    (fun tags twt =>
       fold_left
         (fun tags tag =>
            if negb (String.eqb (TwtTag_Text tag) "") then incr tags (TwtTag_Text tag)
            else incr tags (TwtTag_Target tag))
         (types_Twt_Tags twt) tags)
    twts ∅.

Definition Twts_MentionCount (twts : list T) : gmap string Z :=
  fold_left
    (fun mentions twt =>
       fold_left (fun mentions m => incr mentions (Nick (TwtMention_Twter m)))
         (types_Twt_Mentions twt) mentions)
    twts ∅.

Definition Twts_LinkCount (twts : list T) : gmap string Z :=
  fold_left
    (fun links twt =>
       fold_left (fun links link => incr links (TwtLink_String link))
         (types_Twt_Links twt) links)
    twts ∅.

(** [Twts.Tags], [Twts.Mentions], [Twts.Links]: the lists of all Twts, one
    after the other. *)
Definition Twts_Tags (twts : list T) : list TG :=
  fold_left (fun tags twt => tags ++ types_Twt_Tags twt) twts [].
Definition Twts_Mentions (twts : list T) : list MN :=
  fold_left (fun mentions twt => mentions ++ types_Twt_Mentions twt) twts [].
Definition Twts_Links (twts : list T) : list LK :=
  fold_left (fun links twt => links ++ types_Twt_Links twt) twts [].

(** The key a Tag is counted under. *)
Definition tag_key (tag : TG) : string :=
  if String.eqb (TwtTag_Text tag) "" then TwtTag_Target tag else TwtTag_Text tag.

End TypesCounts.

(** How often [k] is among [keys]. *)
Definition occurrences (k : string) (keys : list string) : Z :=
  len (filter (fun x => x = k) keys).

(** What a count holds for a key that is [n] times among the counted. *)
Definition counted (n : Z) : option Z := if (n =? 0)%Z then None else Some n.

(** ** More methods of [*Twt] *)

Section LextwtMore.
Context {L : GoLib}.

(** [time.Time.IsZero] is taken as it is. *)
Variable time_IsZero : time_Time -> bool.

(** [IsZero] on a [*Twt] that may be nil; [||] evaluates from the left and
    stops at the first true operand. *)
Definition Twt_IsZero (twt : option Twt) : M bool :=
  match twt with
  | None => ret true
  | Some t =>
      l <- Twt_Literal t ;;
      if String.eqb l "" then ret true
      else ret (time_IsZero (Twt_Created t))
  end.

Definition Twt_String (twt : Twt) : M string :=
  l <- Twt_Literal twt ;; ret (ReplaceAll l LS NL).

End LextwtMore.

(** [time.Time.IsZero] on the instants of the examples, for those given in
    UTC or east of it: the instant is January 1 of year 1, 00:00:00 UTC. *)
Definition civil_IsZero (t : CivilTime) : bool :=
  (civil_year t =? 1)%N && (civil_month t =? 1)%N && (civil_day t =? 1)%N
  && (Z.of_N (civil_hour t * 3600 + civil_minute t * 60 + civil_second t)
      =? civil_offset t * 60)%Z.

(** [Mention.Twter()]. *)
Definition Mention_Twter (n : Mention) : Twter := mkTwter (Mention_name n) (Mention_target n) "" "".

(** The Links an element brings into the links index. *)
Definition elem_links (e : Elem) : list Link :=
  match e with
  | ELink (Some l) => [l]
  | _ => []
  end.

(** ** The loops of [FormatText] in the text mode, as a reference *)

(** A Mention and a Tag keep their name and text, and a target that is
    empty stays empty. *)
Definition Mention_redacted (n n' : Mention) : Prop :=
  Mention_name n' = Mention_name n /\ (Mention_target n = "" -> Mention_target n' = "").

Definition Tag_redacted (n n' : Tag) : Prop :=
  Tag_tag n' = Tag_tag n /\ (Tag_target n = "" -> Tag_target n' = "").

Definition redacted (h h' : Store) : Prop :=
  Forall2 Mention_redacted (mentionsAt h) (mentionsAt h')
  /\ Forall2 Tag_redacted (tagsAt h) (tagsAt h').

(** A lookup for the examples that knows every name. *)
Definition demoDirectory : FeedLookup :=
  fun name => Some (mkTwter name ("https://" +:+ name +:+ ".example/twtxt.txt") "" "").

(** ** More methods of [*Mention] *)

Section LextwtMention.
Context {L : GoLib}.

(** [Err()]: the Mention after the call and the error kept. *)
Definition Mention_Err (n : Mention) : Mention * option error :=
  let '(n1, _) := Mention_URL n in (n1, Mention_err n1).

(** [Domain()]: the Mention after the call and its domain. *)
Definition Mention_Domain (n : Mention) : Mention * string :=
  let '(n1, url) := Mention_URL n in
  match url with
  | Some u =>
      if String.eqb (Mention_domain n1) ""
      then (set_Mention_domain n1 (url_Hostname u), url_Hostname u)
      else (n1, Mention_domain n1)
  | None => (n1, Mention_domain n1)
  end.

End LextwtMention.

(** ** The Markdown and HTML modes of [FormatText], as a reference *)

Section LextwtLinked.
Context {L : GoLib}.

(** The Mention that [FormatText] with options formats in place of [n] in
    the Markdown and HTML modes: its target is the user URL of a local feed,
    and else the external URL of its name and target, its domain being first
    taken from the target when it has none. *)
Definition Mention_linked (o : FmtOpts) (n : Mention) : Mention :=
  if IsLocalURL o (Mention_target n) && HasSuffix (Mention_target n) "/twtxt.txt"
  then set_Mention_target n (UserURL o (Mention_target n))
  else
    let n1 :=
      if String.eqb (Mention_domain n) "" then
        match url_Parse (Mention_target n) with
        | inl u => set_Mention_domain n (url_Hostname u)
        | inr _ => n
        end
      else n in
    set_Mention_target n1 (ExternalURL o (Mention_name n1) (Mention_target n1)).

(** The store with every Mention linked. *)
Definition linked (o : FmtOpts) (h : Store) : Store :=
  mkStore (Mention_linked o <$> mentionsAt h) (tagsAt h).

End LextwtLinked.

(** ** The contract of the parser *)

(** * Properties *)

(** ** Comments.GetN *)

Lemma len_app {A} (l1 l2 : list A) : len (l1 ++ l2)%list = (len l1 + len l2)%Z.
Proof. unfold len. rewrite length_app. lia. Qed.

Lemma len_nonneg {A} (l : list A) : (0 <= len l)%Z.
Proof. unfold len. lia. Qed.

Lemma positions_length k lis i : length (positions k lis i) = length (matches k lis).
Proof.
  revert i. induction lis as [|c rest IH]; intros i; simpl; [reflexivity|].
  destruct (String.eqb k (key c)); simpl; rewrite IH; reflexivity.
Qed.

Lemma positions_lookup k lis i j p :
  positions k lis i !! j = Some p ->
  (i <= p)%nat /\ lis !! (p - i)%nat = matches k lis !! j.
Proof.
  revert i j. induction lis as [|c rest IH]; intros i j; simpl; [discriminate|].
  destruct (String.eqb k (key c)).
  - destruct j as [|j]; simpl.
    + intros [= <-]. split; [lia|]. replace (i - i)%nat with 0%nat by lia. reflexivity.
    + intros H. apply IH in H as [Hle H]. split; [lia|].
      replace (p - i)%nat with (S (p - S i)) by lia. exact H.
  - intros H. apply IH in H as [Hle H]. split; [lia|].
    replace (p - i)%nat with (S (p - S i)) by lia. exact H.
Qed.

Lemma GetN_loop_zero k rest i idx :
  GetN_loop k 0 rest i idx =
  match matches k rest with
  | c :: _ => inl c
  | [] => inr idx
  end.
Proof.
  revert i idx. induction rest as [|c rest IH]; intros i idx; simpl; [reflexivity|].
  destruct (String.eqb k (key c)); simpl; [reflexivity|].
  rewrite andb_false_r. apply IH.
Qed.

Lemma GetN_loop_pos k n rest i idx :
  (len idx < n)%Z ->
  GetN_loop k n rest i idx =
  match matches k rest !! Z.to_nat (n - 1 - len idx) with
  | Some c => inl c
  | None => inr (idx ++ positions k rest i)%list
  end.
Proof.
  revert i idx. induction rest as [|c rest IH]; intros i idx Hlt; simpl.
  - rewrite app_nil_r. reflexivity.
  - pose proof (len_nonneg idx) as Hge.
    replace (n =? 0)%Z with false by (symmetry; apply Z.eqb_neq; lia). simpl.
    destruct (String.eqb k (key c)); simpl.
    + rewrite len_app. change (len [i]) with 1%Z.
      destruct (Z.eqb_spec n (len idx + 1)) as [->|Hne]; simpl.
      * replace (len idx + 1 - 1 - len idx)%Z with 0%Z by lia. reflexivity.
      * rewrite IH by (rewrite len_app; change (len [i]) with 1%Z; lia).
        rewrite len_app. change (len [i]) with 1%Z.
        replace (Z.to_nat (n - 1 - len idx)) with (S (Z.to_nat (n - 1 - (len idx + 1)))) by lia.
        simpl. rewrite <- app_assoc. reflexivity.
    + rewrite andb_false_r. apply IH. exact Hlt.
Qed.

Lemma GetN_loop_neg k n rest i idx :
  (n < 0)%Z ->
  GetN_loop k n rest i idx = inr (idx ++ positions k rest i)%list.
Proof.
  revert i idx. induction rest as [|c rest IH]; intros i idx Hlt; simpl.
  - rewrite app_nil_r. reflexivity.
  - replace (n =? 0)%Z with false by (symmetry; apply Z.eqb_neq; lia). simpl.
    destruct (String.eqb k (key c)); simpl.
    + replace (n =? len (idx ++ [i])%list)%Z with false
        by (symmetry; apply Z.eqb_neq; pose proof (len_nonneg (idx ++ [i])%list); lia).
      simpl. rewrite IH by exact Hlt. rewrite <- app_assoc. reflexivity.
    + rewrite andb_false_r. apply IH. exact Hlt.
Qed.

Lemma wrap_int_id z : is_int z -> wrap_int z = z.
Proof.
  unfold is_int, wrap_int, int_min, int_max. intros H.
  rewrite Z.mod_small by lia. lia.
Qed.

(** What [GetN] computes, for every list that fits a Go slice: the first
    match for [n = 0], the [n]-th match for [n > 0], and for [n < 0] the match
    at [m + n] of the [m] collected ones, but only when [- n < m]. *)
Lemma Comments_GetN_zero lis k :
  Comments_GetN lis k 0 = Ok (head (matches k lis)).
Proof.
  unfold Comments_GetN. rewrite GetN_loop_zero.
  destruct (matches k lis); reflexivity.
Qed.

Lemma Comments_GetN_pos lis k n :
  (0 < n)%Z ->
  Comments_GetN lis k n = Ok (matches k lis !! Z.to_nat (n - 1)).
Proof.
  intros Hn. unfold Comments_GetN.
  rewrite GetN_loop_pos by (change (len (@nil nat)) with 0%Z; lia).
  change (len (@nil nat)) with 0%Z. rewrite Z.sub_0_r.
  destruct (matches k lis !! Z.to_nat (n - 1)); [reflexivity|].
  replace (n <? 0)%Z with false by (symmetry; apply Z.ltb_ge; lia). reflexivity.
Qed.

Lemma Comments_GetN_neg lis k n :
  (len lis <= int_max)%Z -> (int_min < n < 0)%Z ->
  Comments_GetN lis k n =
  Ok (if (- n <? len (matches k lis))%Z
      then matches k lis !! Z.to_nat (len (matches k lis) + n)
      else None).
Proof.
  intros Hlen Hn. unfold Comments_GetN.
  rewrite GetN_loop_neg by lia. simpl app.
  assert (Hm : len (positions k lis 0) = len (matches k lis))
    by (unfold len; rewrite positions_length; reflexivity).
  assert (Hml : (len (matches k lis) <= len lis)%Z).
  { unfold len. apply inj_le. clear. induction lis as [|c rest IH]; simpl; [lia|].
    destruct (String.eqb k (key c)); simpl; lia. }
  replace (n <? 0)%Z with true by (symmetry; apply Z.ltb_lt; lia). simpl.
  unfold int_neg, int_add. rewrite Hm.
  unfold int_min, int_max in *.
  rewrite !wrap_int_id by (unfold is_int, int_min, int_max; pose proof (len_nonneg (matches k lis)); lia).
  destruct (Z.ltb_spec (- n) (len (matches k lis))) as [Hin|Hout]; [|reflexivity].
  unfold at_index.
  replace (len (matches k lis) + n <? 0)%Z with false by (symmetry; apply Z.ltb_ge; lia).
  destruct (positions k lis 0 !! Z.to_nat (len (matches k lis) + n)) as [p|] eqn:Hp.
  - apply positions_lookup in Hp as [_ Hp]. rewrite Nat.sub_0_r in Hp.
    replace (Z.of_nat p <? 0)%Z with false by (symmetry; apply Z.ltb_ge; lia).
    rewrite Nat2Z.id, Hp.
    destruct (matches k lis !! Z.to_nat (len (matches k lis) + n)) eqn:Hq; [reflexivity|].
    apply lookup_ge_None in Hq. unfold len in *. lia.
  - apply lookup_ge_None in Hp. rewrite positions_length in Hp. unfold len in *. lia.
Qed.

Lemma Comments_GetN_int_min lis k :
  (len lis <= int_max)%Z ->
  Comments_GetN lis k int_min = Panic.
Proof.
  intros Hlen. unfold Comments_GetN.
  rewrite GetN_loop_neg by (unfold int_min; lia). simpl app.
  assert (Hml : (len (positions k lis 0) <= len lis)%Z).
  { unfold len. rewrite positions_length. apply inj_le. clear.
    induction lis as [|c rest IH]; simpl; [lia|].
    destruct (String.eqb k (key c)); simpl; lia. }
  pose proof (len_nonneg (positions k lis 0)) as Hge.
  assert (Hneg : int_neg int_min = int_min) by reflexivity.
  rewrite Hneg.
  replace (int_min <? 0)%Z with true by reflexivity.
  replace (int_min <? len (positions k lis 0))%Z with true
    by (symmetry; apply Z.ltb_lt; unfold int_min; lia).
  simpl. unfold at_index, int_add, wrap_int.
  unfold int_min, int_max in *.
  replace (len (positions k lis 0) + - 2 ^ 63 - - 2 ^ 63)%Z with (len (positions k lis 0)) by lia.
  rewrite Z.mod_small by lia.
  replace (len (positions k lis 0) + - 2 ^ 63 <? 0)%Z with true
    by (symmetry; apply Z.ltb_lt; lia).
  reflexivity.
Qed.

(** C1 (the code departs from the claim): with exactly one entry of key [k],
    [GetN k (-1)] reports not-found although the entry at index [m + n = 0] of
    the collected matches exists; the guard [-n < len(idx)] leaves out the
    case [-n = len(idx)]. *)
Theorem C1_GetN_last_of_single_match_not_found (c : Comment) :
  Comments_GetN [c] (key c) (-1) = Ok None.
Proof.
  unfold Comments_GetN. simpl. rewrite String.eqb_refl. simpl. reflexivity.
Qed.

(** ** Comments.Followers *)

Lemma Followers_loop_GetAll lis :
  Followers_loop (Comments_GetAll lis "follow") = omap follower lis.
Proof.
  induction lis as [|c rest IH]; simpl; [reflexivity|].
  unfold follower at 1.
  destruct (String.eqb_spec (key c) "") as [He|He].
  - rewrite He. simpl. exact IH.
  - destruct (HasPrefix (key c) "follow"); simpl; [|exact IH].
    destruct (Fields (value c)) as [|nick [|url rest']]; simpl; rewrite IH; reflexivity.
Qed.

(** C4 (as stated, refuted): an entry whose value has three fields is not
    skipped; its first two fields become the follower. *)
Lemma C4_Followers_keeps_entry_with_three_fields :
  Fields "bob https://bob.example/twtxt.txt extra"
  = ["bob"; "https://bob.example/twtxt.txt"; "extra"]
  /\ Comments_Followers
       [NewCommentValue "# follow = bob https://bob.example/twtxt.txt extra"
          "follow" "bob https://bob.example/twtxt.txt extra"]
     = [mkTwter "bob" "https://bob.example/twtxt.txt" "" ""].
Proof. split; vm_compute; reflexivity. Qed.

(** C4 (amended): for every Comments list, [Followers] returns, in insertion
    order, one Twter per entry whose key starts with "follow" and whose value
    splits on whitespace into at least two fields, with the first two fields
    as nick and url, and skips the entries with fewer than two fields; the
    header entry "follow = bob https://bob.example/twtxt.txt" yields exactly
    the Twter of nick bob and that url. *)
Theorem C4_Followers_first_two_fields :
  (forall lis : Comments, Comments_Followers lis = omap follower lis)
  /\ Comments_Followers
       [NewCommentValue "# follow = bob https://bob.example/twtxt.txt"
          "follow" "bob https://bob.example/twtxt.txt"]
     = [mkTwter "bob" "https://bob.example/twtxt.txt" "" ""].
Proof.
  split.
  - intros lis. apply Followers_loop_GetAll.
  - vm_compute. reflexivity.
Qed.

(** ** Strings *)

Lemma sapp_cons (x : ascii) (a b : string) : String x a +:+ b = String x (a +:+ b).
Proof. reflexivity. Qed.

Lemma sapp_assoc (a b c : string) : (a +:+ b) +:+ c = a +:+ (b +:+ c).
Proof.
  induction a as [|x a IH]; [reflexivity|].
  rewrite !sapp_cons, IH. reflexivity.
Qed.

Lemma sapp_nil_r (a : string) : a +:+ "" = a.
Proof.
  induction a as [|x a IH]; [reflexivity|].
  rewrite sapp_cons, IH. reflexivity.
Qed.

Lemma length_sapp (a b : string) :
  String.length (a +:+ b) = (String.length a + String.length b)%nat.
Proof.
  induction a as [|x a IH]; [reflexivity|].
  rewrite sapp_cons. simpl. rewrite IH. reflexivity.
Qed.

(** ** The monad of the methods *)

Lemma bind_ret_l {A B} (a : A) (f : A -> M B) h : bind (ret a) f h = f a h.
Proof. unfold bind, ret. destruct (f a h) as [[r w] h']. reflexivity. Qed.

Lemma bind_assoc {A B C} (m : M A) (f : A -> M B) (g : B -> M C) h :
  bind (bind m f) g h = bind m (fun a => bind (f a) g) h.
Proof.
  unfold bind. destruct (m h) as [[[a|] w] h1]; [|reflexivity].
  destruct (f a h1) as [[[b|] w1] h2]; [|reflexivity].
  destruct (g b h2) as [[r w2] h3]. rewrite sapp_assoc. reflexivity.
Qed.

Lemma bind_ext {A B} (m : M A) (f g : A -> M B) h :
  (forall a h', f a h' = g a h') -> bind m f h = bind m g h.
Proof.
  intros Hfg. unfold bind. destruct (m h) as [[[a|] w] h1]; [|reflexivity].
  rewrite Hfg. reflexivity.
Qed.

Lemma bind_reads {A B} (m : M A) (f : A -> M B) h a :
  reads m h a -> bind m f h = f a h.
Proof.
  unfold reads, bind. intros ->. destruct (f a h) as [[r w] h']. reflexivity.
Qed.

Lemma forM_app {A} (l1 l2 : list A) (f : A -> M unit) h :
  forM_ (l1 ++ l2) f h = bind (forM_ l1 f) (fun _ => forM_ l2 f) h.
Proof.
  revert h. induction l1 as [|a l1 IH]; intros h; simpl.
  - rewrite bind_ret_l. reflexivity.
  - rewrite bind_assoc. apply bind_ext. intros _ h'. apply IH.
Qed.

Section LextwtProperties.
Context {L : GoLib} {P : Parser}.

(** ** NewTwt and append *)

Lemma Twt_append_msg twt e :
  msg (Twt_append twt e) = msg twt ++ (if Elem_IsNil e then [] else [e]).
Proof.
  unfold Twt_append. destruct (Elem_IsNil e) eqn:He.
  - rewrite app_nil_r. reflexivity.
  - destruct e as [|[p|]|[p|]|[s|]|[t|]| |[l|]|[c|]]; reflexivity.
Qed.

Lemma Twt_append_tags twt e :
  tags (Twt_append twt e) = tags twt ++ elem_tags e.
Proof.
  unfold Twt_append, elem_tags.
  destruct e as [|[p|]|[p|]|[s|]|[t|]| |[l|]|[c|]]; simpl;
    rewrite ?app_nil_r; try reflexivity.
  destruct (Subject_tag s); rewrite ?app_nil_r; reflexivity.
Qed.

Lemma Twt_append_subject twt e :
  subject (Twt_append twt e) =
  match subject twt with
  | Some s0 => Some s0
  | None => elem_subject e
  end.
Proof.
  unfold Twt_append, elem_subject.
  destruct e as [|[p|]|[p|]|[s|]|[t|]| |[l|]|[c|]]; simpl;
    destruct (subject twt); reflexivity.
Qed.

Lemma fold_append_msg elems twt :
  msg (fold_left Twt_append elems twt) = msg twt ++ retained elems.
Proof.
  revert twt. induction elems as [|e elems IH]; intros twt; simpl.
  - rewrite app_nil_r. reflexivity.
  - rewrite IH, Twt_append_msg. unfold retained. rewrite filter_cons.
    destruct (Elem_IsNil e) eqn:He.
    + rewrite decide_False by congruence. rewrite app_nil_r. reflexivity.
    + rewrite decide_True by reflexivity. rewrite <- app_assoc. reflexivity.
Qed.

Lemma fold_append_tags elems twt :
  tags (fold_left Twt_append elems twt) = tags twt ++ flat_map elem_tags elems.
Proof.
  revert twt. induction elems as [|e elems IH]; intros twt; simpl.
  - rewrite app_nil_r. reflexivity.
  - rewrite IH, Twt_append_tags, <- app_assoc. reflexivity.
Qed.

Lemma fold_append_subject elems twt :
  subject (fold_left Twt_append elems twt) =
  match subject twt with
  | Some s0 => Some s0
  | None => head (omap elem_subject elems)
  end.
Proof.
  revert twt. induction elems as [|e elems IH]; intros twt; simpl.
  - destruct (subject twt); reflexivity.
  - rewrite IH, Twt_append_subject.
    destruct (subject twt); [reflexivity|].
    destruct (elem_subject e); reflexivity.
Qed.

Lemma NewTwt_msg tw d elems : msg (NewTwt tw d elems) = retained elems.
Proof. unfold NewTwt. rewrite fold_append_msg. reflexivity. Qed.

Lemma retained_not_nil elems :
  Forall (fun e => e <> ENil /\ Elem_IsNil e = false) (retained elems).
Proof.
  unfold retained. apply Forall_forall. intros e He.
  apply list_elem_of_filter in He as [He _].
  split; [|exact He]. intros ->. discriminate He.
Qed.

Lemma concat_cons (l : string) (ls : list string) :
  String.concat "" (l :: ls) = l +:+ String.concat "" ls.
Proof.
  destruct ls as [|l2 ls]; simpl; [rewrite sapp_nil_r; reflexivity|reflexivity].
Qed.

Lemma writeLiteral_reads e h l :
  reads (Elem_Literal e) h l -> Elem_writeLiteral e h = (Ok tt, l, h).
Proof.
  intros H. unfold Elem_writeLiteral. rewrite (bind_reads _ _ _ _ H). reflexivity.
Qed.

Lemma literals_loop es ls h :
  Forall (fun e => Elem_IsNil e = false) es ->
  Forall2 (fun e l => reads (Elem_Literal e) h l) es ls ->
  forM_ es (fun s => if Elem_IsNil s then ret tt else Elem_writeLiteral s) h
  = (Ok tt, String.concat "" ls, h).
Proof.
  intros Hnil H. induction H as [|e l es ls He H IH]; [reflexivity|].
  inversion Hnil as [|? ? Hne Hnil']; subst.
  simpl forM_. unfold bind. rewrite Hne, (writeLiteral_reads _ _ _ He).
  rewrite (IH Hnil'), concat_cons. reflexivity.
Qed.

Lemma retained_IsNil elems : Forall (fun e => Elem_IsNil e = false) (retained elems).
Proof.
  eapply Forall_impl; [apply retained_not_nil|]. intros e [_ He]. exact He.
Qed.

(** C9: [NewTwt] keeps exactly the elements that are neither the nil
    interface nor a nil receiver, in order; every element of the Twt it
    builds is non-nil with [IsNil()] false, and [LiteralText()] is the
    concatenation of the literals of the retained elements.  The same holds
    of the elements of every Twt that [CloneTwt] or [DecodeJSON] returns. *)
Theorem C9_NewTwt_drops_nil_elements tw d elems h ls :
  Forall2 (fun e l => reads (Elem_Literal e) h l) (retained elems) ls ->
  Twt_Elems (NewTwt tw d elems) = retained elems
  /\ Forall (fun e => e <> ENil /\ Elem_IsNil e = false) (Twt_Elems (NewTwt tw d elems))
  /\ reads (Twt_LiteralText (NewTwt tw d elems)) h (String.concat "" ls)
  /\ (forall t h0,
        match Twt_CloneTwt t h0 with
        | (Ok c, _, _) => Forall (fun e => e <> ENil /\ Elem_IsNil e = false) (Twt_Elems c)
        | _ => True
        end)
  /\ (forall data h0,
        match DecodeJSON data h0 with
        | (Ok (LexTwt t, _), _, _) =>
            Forall (fun e => e <> ENil /\ Elem_IsNil e = false) (Twt_Elems t)
        | _ => True
        end).
Proof.
  intros Hls. unfold Twt_Elems. rewrite NewTwt_msg.
  split; [reflexivity|]. split; [apply retained_not_nil|]. split.
  - unfold reads, Twt_LiteralText, collect. rewrite NewTwt_msg.
    rewrite (literals_loop _ _ _ (retained_IsNil elems) Hls). reflexivity.
  - split.
    + intros t h0. unfold Twt_CloneTwt, bind.
      destruct (mapM Elem_Clone (msg t) h0) as [[[m'|] w] h1]; [|exact I].
      simpl. rewrite NewTwt_msg. apply retained_not_nil.
    + intros data h0. unfold DecodeJSON.
      destruct (json_Unmarshal data) as [enc|err]; [|exact I].
      unfold bind. destruct (ParseText (enc_Text enc) h0) as [[[[es [err|]]|] w] h1];
        simpl; try exact I.
      rewrite NewTwt_msg. apply retained_not_nil.
Qed.

(** C10: appending a Subject that wraps a Tag appends that Tag to the tags
    index, so [Tags()] holds, in insertion order, the top-level Tags and the
    Tags embedded in Subjects, those of later Subjects included, while only
    the first Subject appended becomes [Subject()]. *)
Theorem C10_subject_tags_enter_tags_index tw d elems :
  Twt_Tags (NewTwt tw d elems) = flat_map elem_tags elems
  /\ subject (NewTwt tw d elems) = head (omap elem_subject elems)
  /\ (forall h,
        match head (omap elem_subject elems) with
        | Some s => reads (Twt_Subject (NewTwt tw d elems)) h s
        | None => True
        end)
  /\ (forall twt txt p,
        Twt_Tags (Twt_append twt (ESubject (Some (mkSubject txt (Some p)))))
        = Twt_Tags twt ++ [p])
  /\ (forall twt s,
        subject (Twt_append twt (ESubject (Some s)))
        = match subject twt with
          | Some s0 => Some s0
          | None => Some s
          end).
Proof.
  assert (Hs : subject (NewTwt tw d elems) = head (omap elem_subject elems))
    by (unfold NewTwt; rewrite fold_append_subject; reflexivity).
  split; [unfold Twt_Tags, NewTwt; rewrite fold_append_tags; reflexivity|].
  split; [exact Hs|]. split.
  - intros h. destruct (head (omap elem_subject elems)) as [s|] eqn:E; [|exact I].
    unfold reads, Twt_Subject. rewrite Hs. reflexivity.
  - split.
    + intros twt txt p. unfold Twt_Tags. rewrite Twt_append_tags. reflexivity.
    + intros twt s. rewrite Twt_append_subject. reflexivity.
Qed.

End LextwtProperties.

(** ** base32 and the tail of the hash *)

Lemma string_forall_app p (a b : string) :
  string_forall p (a +:+ b) = string_forall p a && string_forall p b.
Proof.
  induction a as [|x a IH]; [reflexivity|].
  rewrite sapp_cons. simpl. rewrite IH, andb_assoc. reflexivity.
Qed.

Lemma ToLower_app (a b : string) : ToLower (a +:+ b) = ToLower a +:+ ToLower b.
Proof.
  induction a as [|x a IH]; [reflexivity|].
  rewrite sapp_cons. simpl. rewrite IH, sapp_cons. reflexivity.
Qed.

Lemma ToLower_length (s : string) : String.length (ToLower s) = String.length s.
Proof. induction s as [|x s IH]; simpl; [reflexivity|]. rewrite IH. reflexivity. Qed.

Lemma encodeChar_cases (v : N) :
  exists c, encodeChar v = String c "" /\ is_base32_lower (lowerByte c) = true.
Proof.
  unfold encodeChar.
  assert (Hlt : (N.to_nat (N.land v 31) < 32)%nat).
  { change 31%N with (N.ones 5). rewrite N.land_ones.
    change (2 ^ 5)%N with 32%N.
    pose proof (N.mod_lt v 32%N ltac:(discriminate)) as H. lia. }
  revert Hlt. generalize (N.to_nat (N.land v 31)). intros n Hlt.
  do 32 (destruct n as [|n]; [eexists; split; [reflexivity|vm_compute; reflexivity]|]).
  lia.
Qed.

Lemma encodeChars_length (l : list N) :
  String.length (String.concat "" (map encodeChar l)) = length l.
Proof.
  induction l as [|v l IH]; [reflexivity|].
  change (map encodeChar (v :: l)) with (encodeChar v :: map encodeChar l).
  rewrite concat_cons, length_sapp, IH.
  destruct (encodeChar_cases v) as (c & -> & _). reflexivity.
Qed.

Lemma encodeChars_lower (l : list N) :
  string_forall is_base32_lower (ToLower (String.concat "" (map encodeChar l))) = true.
Proof.
  induction l as [|v l IH]; [reflexivity|].
  change (map encodeChar (v :: l)) with (encodeChar v :: map encodeChar l).
  rewrite concat_cons, ToLower_app, string_forall_app, IH.
  destruct (encodeChar_cases v) as (c & -> & Hc). simpl. rewrite Hc. reflexivity.
Qed.

Lemma encodeQuantum_length (src : list N) :
  String.length (encodeQuantum src) = quantum_chars (length src).
Proof.
  unfold encodeQuantum. rewrite encodeChars_length, length_take.
  change (length (quantum src)) with 8%nat.
  destruct (length src) as [|[|[|[|[|n]]]]]; reflexivity.
Qed.

Lemma base32_encode_lower (src : list N) :
  string_forall is_base32_lower (ToLower (base32_encode src)) = true.
Proof.
  remember (length src) as n eqn:Hn.
  assert (Hle : (length src <= n)%nat) by lia. clear Hn.
  revert src Hle. induction n as [|n IH]; intros src Hle.
  - destruct src; [reflexivity|simpl in Hle; lia].
  - destruct src as [|a [|b [|c [|d [|e rest]]]]];
      try (apply (encodeChars_lower (take _ (quantum _)))); [reflexivity|].
    change (base32_encode (a :: b :: c :: d :: e :: rest))
      with (encodeQuantum [a; b; c; d; e] +:+ base32_encode rest).
    rewrite ToLower_app, string_forall_app. unfold encodeQuantum at 1.
    rewrite (encodeChars_lower (take _ (quantum _))).
    rewrite IH by (simpl in Hle; lia). reflexivity.
Qed.

Lemma base32_encode_length_32 (src : list N) :
  length src = 32%nat -> String.length (base32_encode src) = 52%nat.
Proof.
  intros H.
  do 32 (destruct src as [|? src]; [discriminate H|]).
  destruct src; [|discriminate H].
  cbn [base32_encode].
  rewrite !length_sapp, !encodeQuantum_length. reflexivity.
Qed.

Lemma bytes_of_length (s : string) : length (bytes_of s) = String.length s.
Proof.
  unfold bytes_of. rewrite length_map.
  induction s as [|c s IH]; simpl; [reflexivity|]. rewrite IH. reflexivity.
Qed.

Lemma substring_length (n m : nat) (s : string) :
  (n + m <= String.length s)%nat -> String.length (substring n m s) = m.
Proof.
  revert n m. induction s as [|c s IH]; intros n m H; simpl in H.
  - assert (n = 0%nat) by lia. assert (m = 0%nat) by lia. subst. reflexivity.
  - destruct n as [|n]; simpl.
    + destruct m as [|m]; [reflexivity|]. simpl. rewrite IH by lia. reflexivity.
    + apply IH. lia.
Qed.

Lemma substring_forall p (n m : nat) (s : string) :
  string_forall p s = true -> string_forall p (substring n m s) = true.
Proof.
  revert n m. induction s as [|c s IH]; intros n m H.
  - destruct n, m; reflexivity.
  - simpl in H. apply andb_true_iff in H as [Hc Hs].
    destruct n as [|n]; simpl.
    + destruct m as [|m]; [reflexivity|]. simpl. rewrite Hc. apply IH. exact Hs.
    + apply IH. exact Hs.
Qed.

Lemma substring_full (s : string) : substring 0 (String.length s) s = s.
Proof. induction s as [|c s IH]; simpl; [reflexivity|]. rewrite IH. reflexivity. Qed.

Lemma substring_split (n : nat) (s : string) :
  (n <= String.length s)%nat ->
  s = substring 0 n s +:+ substring n (String.length s - n) s.
Proof.
  revert n. induction s as [|c s IH]; intros n H; simpl in H.
  - assert (n = 0%nat) by lia. subst. reflexivity.
  - destruct n as [|n].
    + rewrite Nat.sub_0_r, substring_full. reflexivity.
    + simpl. rewrite sapp_cons. f_equal. apply IH. lia.
Qed.

Section LextwtHash.
Context {L : GoLib} {P : Parser}.

(** ** Hash *)

Lemma hash_text_length (payload : string) :
  String.length (ToLower (base32_EncodeToString (blake2b_Sum256 payload))) = 52%nat.
Proof.
  rewrite ToLower_length. unfold base32_EncodeToString.
  apply base32_encode_length_32. rewrite bytes_of_length. apply blake2b_Sum256_length.
Qed.

Lemma lastHash_52 (s : string) h :
  String.length s = 52%nat -> lastHash s h = (Ok (substring 45 7 s), "", h).
Proof. intros H. unfold lastHash. rewrite H. reflexivity. Qed.

Lemma Twt_Hash_carried twt h : hash twt <> "" -> reads (Twt_Hash twt) h (hash twt).
Proof.
  intros H. unfold reads, Twt_Hash.
  destruct (String.eqb_spec (hash twt) ""); [contradiction|]. reflexivity.
Qed.

(** C3: the hash of a Twt whose hash field is empty is the last seven
    characters of the lowercase unpadded base32 text of BLAKE2b-256 over
    author url, newline, RFC 3339 creation time, newline and the literal
    text; it has exactly seven characters, each from a to z or 2 to 7. *)
Theorem C3_Hash_of_fresh_Twt twt h lt :
  hash twt = "" ->
  reads (Twt_LiteralText twt) h lt ->
  exists pre hs,
    reads (Twt_Hash twt) h hs
    /\ ToLower (base32_EncodeToString (blake2b_Sum256
         (URL (Twt_Twter twt) +:+ NL +:+ time_Format_RFC3339 (Twt_Created twt)
          +:+ NL +:+ lt)))
       = pre +:+ hs
    /\ String.length hs = 7%nat
    /\ string_forall is_base32_lower hs = true.
Proof.
  intros Hh Hlt.
  set (full := ToLower (base32_EncodeToString (blake2b_Sum256
         (URL (Twt_Twter twt) +:+ NL +:+ time_Format_RFC3339 (Twt_Created twt)
          +:+ NL +:+ lt)))).
  assert (Hlen : String.length full = 52%nat) by apply hash_text_length.
  exists (substring 0 45 full), (substring 45 7 full). repeat split.
  - unfold reads, Twt_Hash. rewrite Hh.
    change (negb (String.eqb "" "")) with false. cbv iota.
    rewrite (bind_reads _ _ _ _ Hlt). apply lastHash_52. exact Hlen.
  - rewrite (substring_split 45 full) at 1 by lia. rewrite Hlen. reflexivity.
  - apply substring_length. lia.
  - apply substring_forall. apply base32_encode_lower.
Qed.

(** ** Subject *)

(** C2 (amended): for a Twt with no Subject element, [Subject()] builds a
    Subject that wraps a new Tag whose text is the hash of the Twt and whose
    target is empty, and [Subject().Text()] is the literal of that Tag: the
    character # followed by the hash, one character more than the hash. *)
Theorem C2_Subject_fallback_is_hash_tag twt h hs :
  subject twt = None ->
  reads (Twt_Hash twt) h hs ->
  exists p h',
    Twt_Subject twt h = (Ok (mkSubject "" (Some p)), "", h')
    /\ tagsAt h' !! p = Some (mkTag ("#" +:+ hs) hs "" None None)
    /\ reads (Subject_Text (mkSubject "" (Some p))) h' ("#" +:+ hs)
    /\ String.length ("#" +:+ hs) = S (String.length hs).
Proof.
  intros Hs Hh.
  exists (length (tagsAt h)),
         (mkStore (mentionsAt h) (tagsAt h ++ [mkTag ("#" +:+ hs) hs "" None None])).
  assert (Hl : (tagsAt h ++ [mkTag ("#" +:+ hs) hs "" None None]) !! length (tagsAt h)
               = Some (mkTag ("#" +:+ hs) hs "" None None))
    by apply list_lookup_middle, eq_refl.
  repeat split.
  - unfold Twt_Subject. rewrite Hs, (bind_reads _ _ _ _ Hh). reflexivity.
  - exact Hl.
  - unfold reads, Subject_Text, Tag_Literal_at, loadTag, bind.
    cbn [Subject_tag tagsAt]. rewrite Hl. reflexivity.
Qed.

(** ** The codecs *)

(** C6: when the payload unmarshals with a hash that is not empty and its
    text parses, [DecodeJSON] returns a Twt that carries that hash, and
    [Hash()] returns it as it is from every store, computing nothing. *)
Theorem C6_DecodeJSON_keeps_carried_hash data enc elems h w h1 :
  json_Unmarshal data = inl enc ->
  ParseText (enc_Text enc) h = (Ok (elems, None), w, h1) ->
  enc_Hash enc <> "" ->
  exists t,
    DecodeJSON data h = (Ok (LexTwt t, None), w, h1)
    /\ hash t = enc_Hash enc
    /\ forall h2, reads (Twt_Hash t) h2 (enc_Hash enc).
Proof.
  intros Hu Hp Hne.
  exists (set_hash (NewTwt (enc_Twter enc) (Some (NewDateTime (enc_Created enc) ""))
                      elems) (enc_Hash enc)).
  repeat split.
  - unfold DecodeJSON, bind. rewrite Hu, Hp. simpl. rewrite sapp_nil_r. reflexivity.
  - intros h2. apply (Twt_Hash_carried (set_hash _ _)). exact Hne.
Qed.


End LextwtHash.

(** ** Frames: what a computation leaves as it was *)

Lemma keeps_refl n m h : keeps n m h h.
Proof. unfold keeps. auto. Qed.

Lemma keeps_trans n m h1 h2 h3 : keeps n m h1 h2 -> keeps n m h2 h3 -> keeps n m h1 h3.
Proof.
  unfold keeps. intros (A1 & B1 & C1 & D1) (A2 & B2 & C2 & D2).
  repeat split; [congruence|congruence|lia|lia].
Qed.

Lemma keeps_unchanged h h' :
  keeps (length (mentionsAt h)) (length (tagsAt h)) h h' -> unchanged h h'.
Proof.
  intros (A & B & _ & _). split; intros p x Hp.
  - pose proof (lookup_lt_Some _ _ _ Hp) as Hlt.
    rewrite <- (lookup_take_lt (mentionsAt h') _ _ Hlt), A, lookup_take_lt by exact Hlt.
    exact Hp.
  - pose proof (lookup_lt_Some _ _ _ Hp) as Hlt.
    rewrite <- (lookup_take_lt (tagsAt h') _ _ Hlt), B, lookup_take_lt by exact Hlt.
    exact Hp.
Qed.

Lemma frames_ret {A} n m (a : A) : frames n m (ret a).
Proof. intros h _ _. apply keeps_refl. Qed.

Lemma frames_panic {A} n m : frames n m (@panic A).
Proof. intros h _ _. apply keeps_refl. Qed.

Lemma frames_write n m s : frames n m (write s).
Proof. intros h _ _. apply keeps_refl. Qed.

Lemma frames_loadTag n m p : frames n m (loadTag p).
Proof. intros h _ _. unfold loadTag. destruct (tagsAt h !! p); apply keeps_refl. Qed.

Lemma frames_loadMention n m p : frames n m (loadMention p).
Proof. intros h _ _. unfold loadMention. destruct (mentionsAt h !! p); apply keeps_refl. Qed.

Lemma frames_storeTag n m p x : m <= p -> frames n m (storeTag p x).
Proof.
  intros Hp h _ _. unfold storeTag, keeps. simpl.
  rewrite take_insert_ge by exact Hp. rewrite length_insert. auto.
Qed.

Lemma frames_storeMention n m p x : n <= p -> frames n m (storeMention p x).
Proof.
  intros Hp h _ _. unfold storeMention, keeps. simpl.
  rewrite take_insert_ge by exact Hp. rewrite length_insert. auto.
Qed.

Lemma frames_newTag n m x : frames n m (newTag x).
Proof.
  intros h _ Hm. unfold newTag, keeps. simpl.
  rewrite take_app_le by exact Hm. rewrite length_app. repeat split; lia.
Qed.

Lemma frames_newMention n m x : frames n m (newMention x).
Proof.
  intros h Hn _. unfold newMention, keeps. simpl.
  rewrite take_app_le by exact Hn. rewrite length_app. repeat split; lia.
Qed.

Lemma frames_bind {A B} n m (c : M A) (f : A -> M B) :
  frames n m c -> (forall a, frames n m (f a)) -> frames n m (bind c f).
Proof.
  intros Hc Hf h Hn Hm. specialize (Hc h Hn Hm). unfold bind.
  destruct (c h) as [[[a|] w] h1]; simpl in Hc; [|exact Hc].
  assert (K : keeps n m h1 (f a h1).2).
  { apply Hf; destruct Hc as (_ & _ & ? & ?); lia. }
  destruct (f a h1) as [[r w'] h2]. simpl in *. eapply keeps_trans; eassumption.
Qed.

Lemma frames_forM {A} n m (l : list A) (f : A -> M unit) :
  Forall (fun a => frames n m (f a)) l -> frames n m (forM_ l f).
Proof.
  induction 1 as [|a l Ha _ IH]; simpl; [apply frames_ret|].
  apply frames_bind; [exact Ha|intros _; exact IH].
Qed.

Lemma frames_mapM {A B} n m (l : list A) (f : A -> M B) :
  (forall a, frames n m (f a)) -> frames n m (mapM f l).
Proof.
  intros Hf. induction l as [|a l IH]; simpl; [apply frames_ret|].
  apply frames_bind; [apply Hf|intros b].
  apply frames_bind; [exact IH|intros bs; apply frames_ret].
Qed.

Lemma frames_collect {A} n m (c : M A) : frames n m c -> frames n m (collect c).
Proof.
  intros Hc h Hn Hm. specialize (Hc h Hn Hm). unfold collect.
  destruct (c h) as [[[a|] w] h1]; exact Hc.
Qed.

Create HintDb frames.
#[local] Hint Resolve frames_ret frames_panic frames_write frames_loadTag frames_loadMention
  frames_newTag frames_newMention frames_storeTag frames_storeMention : frames.

Ltac frames_step :=
  first
    [ assumption
    | solve [eauto with frames]
    | apply frames_collect
    | apply frames_bind; [|intros ?] ].

Section LextwtFrames.
Context {L : GoLib} {P : Parser}.

Lemma frames_Tag_CloneTag n m p : frames n m (Tag_CloneTag p).
Proof. destruct p; simpl; repeat frames_step. Qed.

Lemma frames_Elem_Clone n m e : frames n m (Elem_Clone e).
Proof.
  destruct e as [|[p|]|p|[s|]|[t|]| |[l|]|[c|]]; simpl; unfold Subject_Clone;
    repeat frames_step; apply frames_Tag_CloneTag.
Qed.

Lemma frames_Tag_at n m p :
  m <= p ->
  frames n m (Tag_Literal_at p) /\ frames n m (Tag_FormatCompact_at p)
  /\ frames n m (Tag_FormatText_at p) /\ frames n m (Tag_FormatHTML_at p)
  /\ frames n m (Tag_FormatMarkdown_at p).
Proof.
  intros Hp.
  unfold Tag_Literal_at, Tag_FormatCompact_at, Tag_FormatText_at, Tag_FormatHTML_at,
    Tag_FormatMarkdown_at.
  split; [|split; [|split; [|split]]]; try (repeat frames_step; fail).
  apply frames_bind; [frames_step|intros x].
  destruct (Tag_FormatMarkdown x) as [n' [s|]]; repeat frames_step.
Qed.

Lemma frames_Elem_Literal n m e : frames n m (Elem_Literal e).
Proof.
  destruct e as [|[p|]|[p|]|[s|]|[t|]| |[l|]|[c|]]; simpl;
    unfold Subject_Literal, Tag_Literal_at;
    try destruct (Subject_tag s); repeat frames_step.
Qed.

Lemma frames_Elem_Format n m c e : elem_fresh n m e -> frames n m (Elem_Format c e).
Proof.
  intros [Hm Ht].
  assert (HL : frames n m (Elem_writeLiteral e))
    by (unfold Elem_writeLiteral; frames_step; [apply frames_Elem_Literal|frames_step]).
  assert (HS : forall s, elem_tags e = elem_tags (ESubject (Some s)) ->
            frames n m (Subject_FormatText s) /\ frames n m (Subject_FormatMarkdown s)
            /\ frames n m (Subject_FormatHTML s)).
  { intros s Hs. rewrite Hs in Ht. simpl in Ht.
    unfold Subject_FormatText, Subject_FormatMarkdown, Subject_FormatHTML.
    destruct (Subject_tag s) as [p|].
    - apply Forall_cons in Ht as [Hp _].
      destruct (frames_Tag_at n m p Hp) as (_ & ? & ? & ? & ?).
      split; [|split]; repeat frames_step.
    - split; [|split]; repeat frames_step. }
  assert (HT : forall p, e = ETag (Some p) ->
            frames n m (Tag_FormatCompact_at p) /\ frames n m (Tag_FormatText_at p)
            /\ frames n m (Tag_FormatHTML_at p) /\ frames n m (Tag_FormatMarkdown_at p)).
  { intros p ->. simpl in Ht. apply Forall_cons in Ht as [Hp _].
    destruct (frames_Tag_at n m p Hp) as (_ & ? & ? & ? & ?). auto. }
  unfold Elem_Format.
  destruct e as [|[p|]|[p|]|[s|]|[t|]| |[l|]|[k|]];
    try (destruct (HT _ eq_refl) as (? & ? & ? & ?));
    try (destruct (HS _ eq_refl) as (? & ? & ?));
    repeat match goal with |- context [Ascii.eqb ?a ?b] => destruct (Ascii.eqb a b) end;
    simpl; try assumption; repeat frames_step.
Qed.

Lemma frames_Twt_Format n m plus c twt :
  Forall (elem_fresh n m) (msg twt) -> frames n m (Twt_Format plus c twt).
Proof.
  intros H. unfold Twt_Format. frames_step.
  - destruct plus; repeat frames_step.
  - apply frames_forM. eapply Forall_impl; [exact H|].
    intros e He. apply frames_Elem_Format. exact He.
Qed.

Lemma frames_Sprintf_Twt n m plus c twt :
  Forall (elem_fresh n m) (msg twt) -> frames n m (Sprintf_Twt plus c twt).
Proof.
  intros H h Hn Hm. pose proof (frames_Twt_Format n m plus c twt H h Hn Hm) as K.
  unfold Sprintf_Twt. destruct (Ascii.eqb c "T"); [apply keeps_refl|].
  destruct (Twt_Format plus c twt h) as [[[a|] w] h1]; exact K.
Qed.

Lemma frames_FormatText_tag n m mode p : m <= p -> frames n m (FormatText_tag mode p).
Proof. intros Hp. unfold FormatText_tag. destruct (mode =? TextFmt)%Z; repeat frames_step. Qed.

Lemma frames_FormatText_mention n m mode o p :
  n <= p -> frames n m (FormatText_mention mode o p).
Proof.
  intros Hp. unfold FormatText_mention.
  destruct (mode =? TextFmt)%Z.
  - frames_step; [frames_step|]. frames_step; [|frames_step].
    destruct (_ && _); [destruct (LocalURL o)|]; frames_step.
  - destruct (_ || _); [|frames_step].
    frames_step; [frames_step|]. destruct (_ && _); frames_step.
Qed.

Lemma frames_ExpandLinks_tag n m opts p : m <= p -> frames n m (ExpandLinks_tag opts p).
Proof.
  intros Hp. unfold ExpandLinks_tag. frames_step; [frames_step|].
  destruct (String.eqb _ _); [destruct opts|]; frames_step.
Qed.

Lemma frames_ExpandLinks_mention n m lookup p :
  n <= p -> frames n m (ExpandLinks_mention lookup p).
Proof.
  intros Hp. unfold ExpandLinks_mention. frames_step; [frames_step|].
  destruct lookup as [f|]; [|frames_step].
  destruct (String.eqb _ _); [destruct (f _)|]; frames_step.
Qed.

Lemma frames_Twt_ExpandLinks n m opts lookup twt :
  Forall (fun p => n <= p) (mentions twt) -> Forall (fun p => m <= p) (tags twt) ->
  frames n m (Twt_ExpandLinks opts lookup twt).
Proof.
  intros Hm Ht. unfold Twt_ExpandLinks. frames_step; apply frames_forM.
  - eapply Forall_impl; [exact Ht|]. intros p Hp. apply frames_ExpandLinks_tag. exact Hp.
  - eapply Forall_impl; [exact Hm|]. intros p Hp. apply frames_ExpandLinks_mention. exact Hp.
Qed.

End LextwtFrames.

(** ** Views: what the formatters depend on *)

Section LextwtViews.
Context {L : GoLib} {P : Parser}.

Lemma Tag_norm_fields n :
  Tag_lit (Tag_norm n) = Tag_lit n /\ Tag_tag (Tag_norm n) = Tag_tag n
  /\ Tag_target (Tag_norm n) = Tag_target n.
Proof.
  unfold Tag_norm, Tag_URL.
  destruct (Tag_url n), (Tag_err n); try (repeat split; reflexivity).
  destruct (url_Parse (Tag_target n)); repeat split; reflexivity.
Qed.

Lemma Tag_URL_norm n : (Tag_URL (Tag_norm n)).2 = (Tag_URL n).2.
Proof.
  unfold Tag_norm, Tag_URL.
  destruct n as [lit tag target [u|] [e|]]; simpl; try reflexivity.
  destruct (url_Parse target); reflexivity.
Qed.

Lemma Tag_norm_idem n : Tag_norm (Tag_norm n) = Tag_norm n.
Proof.
  unfold Tag_norm, Tag_URL.
  destruct n as [lit tag target [u|] [e|]]; simpl; try reflexivity.
  destruct (url_Parse target); reflexivity.
Qed.

Lemma Tag_norm_eq a b :
  Tag_norm a = Tag_norm b ->
  Tag_lit a = Tag_lit b /\ Tag_tag a = Tag_tag b /\ Tag_target a = Tag_target b
  /\ (Tag_URL a).2 = (Tag_URL b).2.
Proof.
  intros H.
  destruct (Tag_norm_fields a) as (A1 & A2 & A3).
  destruct (Tag_norm_fields b) as (B1 & B2 & B3).
  rewrite <- A1, <- A2, <- A3, <- B1, <- B2, <- B3, <- (Tag_URL_norm a), <- (Tag_URL_norm b), H.
  repeat split; reflexivity.
Qed.

Lemma Tag_FormatMarkdown_norm n : Tag_norm (Tag_FormatMarkdown n).1 = Tag_norm n.
Proof.
  unfold Tag_FormatMarkdown.
  destruct (String.eqb (Tag_target n) ""); [reflexivity|].
  destruct (String.eqb (Tag_tag n) ""); [|reflexivity].
  pose proof (Tag_norm_idem n) as H. unfold Tag_norm in *.
  destruct (Tag_URL n) as [n' [[u|] e]]; exact H.
Qed.

Lemma Tag_FormatMarkdown_eq a b :
  Tag_norm a = Tag_norm b -> (Tag_FormatMarkdown a).2 = (Tag_FormatMarkdown b).2.
Proof.
  intros H. apply Tag_norm_eq in H as (_ & H2 & H3 & H4).
  unfold Tag_FormatMarkdown. rewrite H2, H3.
  destruct (String.eqb (Tag_target b) ""); [unfold Tag_FormatCompact; rewrite H2; reflexivity|].
  destruct (String.eqb (Tag_tag b) ""); [|reflexivity].
  destruct (Tag_URL a) as [a' [ua ea]], (Tag_URL b) as [b' [ub eb]].
  simpl in H4. injection H4 as -> ->. destruct ub; reflexivity.
Qed.

Lemma Tag_formatters_eq a b :
  Tag_norm a = Tag_norm b ->
  Tag_FormatCompact a = Tag_FormatCompact b /\ Tag_FormatText a = Tag_FormatText b
  /\ Tag_FormatHTML a = Tag_FormatHTML b.
Proof.
  intros H. apply Tag_norm_eq in H as (_ & H2 & H3 & _).
  unfold Tag_FormatText, Tag_FormatHTML, Tag_FormatCompact. rewrite H2, H3.
  repeat split; reflexivity.
Qed.

Lemma store_sim_refl h : store_sim h h.
Proof. split; reflexivity. Qed.

Lemma store_sim_trans h1 h2 h3 : store_sim h1 h2 -> store_sim h2 h3 -> store_sim h1 h3.
Proof. intros [A1 B1] [A2 B2]. split; congruence. Qed.

Lemma store_sim_view h h' e : store_sim h h' -> view h' e = view h e.
Proof.
  intros [A B].
  assert (HT : forall p, Tag_norm <$> tagsAt h' !! p = Tag_norm <$> tagsAt h !! p).
  { intros p. rewrite <- !list_lookup_fmap, B. reflexivity. }
  destruct e as [|[p|]|[p|]|[s|]|[t|]| |[l|]|[c|]]; simpl; try reflexivity.
  - rewrite A. reflexivity.
  - rewrite HT. reflexivity.
  - destruct (Subject_tag s); simpl; [rewrite HT|]; reflexivity.
Qed.

(** The formatters of a Tag, run at two addresses that hold the same Tag up
    to the cached parse. *)
Lemma Tag_at_view p q h h' :
  Tag_norm <$> tagsAt h !! p = Tag_norm <$> tagsAt h' !! q ->
  outcome (Tag_Literal_at p h) = outcome (Tag_Literal_at q h')
  /\ outcome (Tag_FormatCompact_at p h) = outcome (Tag_FormatCompact_at q h')
  /\ outcome (Tag_FormatText_at p h) = outcome (Tag_FormatText_at q h')
  /\ outcome (Tag_FormatHTML_at p h) = outcome (Tag_FormatHTML_at q h')
  /\ outcome (Tag_FormatMarkdown_at p h) = outcome (Tag_FormatMarkdown_at q h').
Proof.
  intros H.
  unfold Tag_Literal_at, Tag_FormatCompact_at, Tag_FormatText_at, Tag_FormatHTML_at,
    Tag_FormatMarkdown_at, outcome, bind, loadTag, storeTag, write, ret, panic.
  destruct (tagsAt h !! p) as [a|], (tagsAt h' !! q) as [b|]; simpl in H;
    try discriminate H; [|repeat split; reflexivity].
  injection H as H.
  pose proof (Tag_FormatMarkdown_eq _ _ H) as HM.
  destruct (Tag_formatters_eq _ _ H) as (HC & HT & HH).
  apply Tag_norm_eq in H as (H1 & _).
  simpl. rewrite H1, HC, HT, HH.
  destruct (Tag_FormatMarkdown a) as [a' ra], (Tag_FormatMarkdown b) as [b' rb].
  simpl in HM. subst rb. destruct ra; repeat split; reflexivity.
Qed.

Lemma Tag_FormatMarkdown_at_sim p h : store_sim h (Tag_FormatMarkdown_at p h).2.
Proof.
  unfold Tag_FormatMarkdown_at, bind, loadTag, storeTag, write, panic.
  destruct (tagsAt h !! p) as [a|] eqn:Ha; [|apply store_sim_refl].
  pose proof (Tag_FormatMarkdown_norm a) as HN.
  destruct (Tag_FormatMarkdown a) as [a' [s|]]; simpl in *;
    (split; [reflexivity|]; simpl;
     rewrite list_fmap_insert, HN; apply list_insert_id;
     rewrite list_lookup_fmap, Ha; reflexivity).
Qed.

Lemma sims_bind {A B} (c : M A) (f : A -> M B) :
  sims c -> (forall a, sims (f a)) -> sims (bind c f).
Proof.
  intros Hc Hf h. specialize (Hc h). unfold bind.
  destruct (c h) as [[[a|] w] h1]; simpl in Hc; [|exact Hc].
  specialize (Hf a h1). destruct (f a h1) as [[r w'] h2]. simpl in *.
  eapply store_sim_trans; eassumption.
Qed.

Lemma sims_same {A} (c : M A) : (forall h, (c h).2 = h) -> sims c.
Proof. intros H h. rewrite H. apply store_sim_refl. Qed.

Lemma sims_forM {A} (l : list A) (f : A -> M unit) :
  (forall a, sims (f a)) -> sims (forM_ l f).
Proof.
  intros Hf. induction l as [|a l IH]; simpl.
  - apply sims_same. reflexivity.
  - apply sims_bind; [apply Hf|intros _; exact IH].
Qed.

Lemma sims_loadTag p : sims (loadTag p).
Proof. apply sims_same. intros h. unfold loadTag. destruct (tagsAt h !! p); reflexivity. Qed.

Lemma sims_loadMention p : sims (loadMention p).
Proof.
  apply sims_same. intros h. unfold loadMention. destruct (mentionsAt h !! p); reflexivity.
Qed.

Lemma sims_write s : sims (write s).
Proof. apply sims_same. reflexivity. Qed.

Lemma sims_ret {A} (a : A) : sims (ret a).
Proof. apply sims_same. reflexivity. Qed.

Lemma sims_panic {A} : sims (@panic A).
Proof. apply sims_same. reflexivity. Qed.

Lemma sims_Tag_FormatMarkdown_at p : sims (Tag_FormatMarkdown_at p).
Proof. intros h. apply Tag_FormatMarkdown_at_sim. Qed.

Ltac sims_step :=
  first
    [ apply sims_ret | apply sims_panic | apply sims_write | apply sims_loadTag
    | apply sims_loadMention | apply sims_Tag_FormatMarkdown_at
    | apply sims_bind; [|intros ?] ].

Lemma sims_Elem_Format c e : sims (Elem_Format c e).
Proof.
  unfold Elem_Format.
  destruct e as [|[p|]|[p|]|[s|]|[t|]| |[l|]|[k|]];
    repeat match goal with |- context [Ascii.eqb ?a ?b] => destruct (Ascii.eqb a b) end;
    simpl;
    unfold Elem_writeLiteral, Subject_FormatText, Subject_FormatMarkdown,
      Subject_FormatHTML, Subject_Literal, Tag_FormatText_at, Tag_FormatHTML_at,
      Tag_FormatCompact_at, Tag_Literal_at; simpl;
    try destruct (Subject_tag s);
    unfold Tag_FormatText_at, Tag_FormatHTML_at, Tag_FormatCompact_at, Tag_Literal_at;
    repeat sims_step.
  all: unfold Subject_Literal, Tag_Literal_at; destruct (Subject_tag s); repeat sims_step.
Qed.

Lemma outcome_bind_write (m m' : M string) h h' :
  outcome (m h) = outcome (m' h') ->
  outcome (bind m write h) = outcome (bind m' write h').
Proof.
  unfold outcome, bind, write.
  destruct (m h) as [[r w] h1], (m' h') as [[r' w'] h1']. simpl.
  intros [= -> ->]. destruct r'; reflexivity.
Qed.

Lemma outcome_parens (m m' : M unit) h h' :
  outcome (m h) = outcome (m' h') ->
  outcome ((write "(" ;;; m ;;; write ")") h) = outcome ((write "(" ;;; m' ;;; write ")") h').
Proof.
  unfold outcome, bind, write.
  destruct (m h) as [[r w] h1], (m' h') as [[r' w'] h1']. simpl.
  intros [= -> ->]. destruct r'; reflexivity.
Qed.

(** Each method of an element gives the same outcome on two elements that
    have the same view. *)
Lemma Elem_methods_view e e' h h' :
  view h e = view h' e' ->
  (is_ElemHTML e = is_ElemHTML e' /\ is_ElemMarkdown e = is_ElemMarkdown e'
   /\ is_ElemText e = is_ElemText e' /\ is_ElemCompact e = is_ElemCompact e')
  /\ outcome (Elem_writeLiteral e h) = outcome (Elem_writeLiteral e' h')
  /\ outcome (Elem_FormatHTML e h) = outcome (Elem_FormatHTML e' h')
  /\ outcome (Elem_FormatMarkdown e h) = outcome (Elem_FormatMarkdown e' h')
  /\ outcome (Elem_FormatText e h) = outcome (Elem_FormatText e' h')
  /\ outcome (Elem_FormatCompact e h) = outcome (Elem_FormatCompact e' h').
Proof.
  intros Hv.
  destruct e as [|p|p|s|t| |l|k], e' as [|p'|p'|s'|t'| |l'|k'];
    simpl in Hv; try discriminate Hv; try injection Hv as Hv;
    (split; [repeat split; reflexivity|]).
  - repeat split; reflexivity.
  - (* Mention *)
    unfold Elem_writeLiteral, outcome, bind, write, ret, panic. simpl.
    unfold bind, loadMention, write, ret, panic.
    destruct p as [p|], p' as [p'|]; simpl in Hv; simpl;
      try destruct (mentionsAt h !! p) as [x|];
      try destruct (mentionsAt h' !! p') as [x'|];
      try discriminate Hv; try (injection Hv as ->);
      repeat split; reflexivity.
  - (* Tag *)
    destruct p as [p|], p' as [p'|]; simpl in Hv.
    + destruct (Tag_at_view _ _ _ _ Hv) as (H1 & H2 & H3 & H4 & H5).
      unfold Elem_writeLiteral. simpl.
      split; [apply outcome_bind_write; exact H1|]. auto.
    + assert (Hn : tagsAt h !! p = None)
        by (destruct (tagsAt h !! p); [discriminate Hv|reflexivity]).
      unfold Elem_writeLiteral, outcome. simpl.
      unfold Tag_Literal_at, Tag_FormatCompact_at, Tag_FormatText_at,
        Tag_FormatHTML_at, Tag_FormatMarkdown_at, bind, loadTag.
      rewrite Hn. repeat split; reflexivity.
    + assert (Hn : tagsAt h' !! p' = None)
        by (destruct (tagsAt h' !! p'); [discriminate Hv|reflexivity]).
      unfold Elem_writeLiteral, outcome. simpl.
      unfold Tag_Literal_at, Tag_FormatCompact_at, Tag_FormatText_at,
        Tag_FormatHTML_at, Tag_FormatMarkdown_at, bind, loadTag.
      rewrite Hn. repeat split; reflexivity.
    + repeat split; reflexivity.
  - (* Subject *)
    destruct s as [s|], s' as [s'|]; simpl in Hv; try discriminate Hv;
      [|repeat split; reflexivity].
    injection Hv as Hs Ht.
    unfold Elem_writeLiteral. simpl.
    unfold Subject_Literal, Subject_FormatHTML, Subject_FormatMarkdown, Subject_FormatText.
    rewrite Hs.
    destruct (Subject_tag s) as [p|], (Subject_tag s') as [p'|]; simpl in Ht;
      try discriminate Ht; [|repeat split; reflexivity].
    injection Ht as Ht.
    destruct (Tag_at_view _ _ _ _ Ht) as (H1 & H2 & H3 & H4 & H5).
    split; [|split; [|split; [|split]]];
      try (apply outcome_parens; assumption); [|reflexivity].
    apply outcome_bind_write.
    unfold outcome, bind, ret in *.
    destruct (Tag_Literal_at p h) as [[r w] h1], (Tag_Literal_at p' h') as [[r' w'] h1'].
    simpl in *. injection H1 as -> ->. destruct r'; reflexivity.
  - subst. destruct t' as [?|]; repeat split; reflexivity.
  - repeat split; reflexivity.
  - subst. destruct l' as [?|]; repeat split; reflexivity.
  - subst. destruct k' as [?|]; repeat split; reflexivity.
Qed.

Lemma Elem_Format_view c e e' h h' :
  view h e = view h' e' ->
  outcome (Elem_Format c e h) = outcome (Elem_Format c e' h').
Proof.
  intros Hv.
  destruct (Elem_methods_view _ _ _ _ Hv)
    as ((F1 & F2 & F3 & F4) & HL & HH & HM & HT & HC).
  unfold Elem_Format. rewrite F1, F2, F3, F4.
  repeat match goal with |- context [if ?b then _ else _] => destruct b end;
    assumption.
Qed.

(** Running a formatter over two sequences of elements that have the same
    views, element by element. *)
Lemma forM_Format_view c es es' h h' :
  Forall2 (fun e e' => view h e = view h' e') es es' ->
  outcome (forM_ es (Elem_Format c) h) = outcome (forM_ es' (Elem_Format c) h').
Proof.
  revert es' h h'. induction es as [|e es IH]; intros es' h h' H.
  - inversion H; subst. reflexivity.
  - inversion H as [|? e' ? es2 Hv Hrest]; subst. simpl forM_.
    pose proof (Elem_Format_view c _ _ _ _ Hv) as Ho.
    pose proof (sims_Elem_Format c e h) as S1.
    pose proof (sims_Elem_Format c e' h') as S2.
    unfold bind, outcome in *.
    destruct (Elem_Format c e h) as [[r w] h1], (Elem_Format c e' h') as [[r' w'] h1'].
    simpl in *. injection Ho as -> ->.
    destruct r' as [[]|]; [|reflexivity].
    assert (Hrest' : Forall2 (fun e e' => view h1 e = view h1' e') es es2).
    { eapply Forall2_impl; [exact Hrest|]. intros a b Hab. simpl in Hab.
      rewrite (store_sim_view _ _ a S1), (store_sim_view _ _ b S2). exact Hab. }
    specialize (IH es2 h1 h1' Hrest').
    destruct (forM_ es (Elem_Format c) h1) as [[r2 w2] h2],
             (forM_ es2 (Elem_Format c) h1') as [[r2' w2'] h2'].
    simpl in *. injection IH as -> ->. reflexivity.
Qed.

End LextwtViews.

(** ** Cloning *)

Section LextwtClone.
Context {L : GoLib} {P : Parser}.

Lemma take_eq_le {A} (a b : list A) (n n' : nat) :
  n <= n' -> take n' a = take n' b -> take n a = take n b.
Proof.
  intros Hn H.
  replace n with (n `min` n') by lia.
  rewrite <- !take_take, H. reflexivity.
Qed.

Lemma keeps_weaken n m n' m' h h' :
  n <= n' -> m <= m' -> keeps n' m' h h' -> keeps n m h h'.
Proof.
  intros Hn Hm (A & B & C & D). repeat split; try assumption.
  - eapply take_eq_le; eassumption.
  - eapply take_eq_le; eassumption.
Qed.

Lemma keeps_lookup_mention n m h h' p :
  keeps n m h h' -> p < n -> mentionsAt h' !! p = mentionsAt h !! p.
Proof.
  intros (A & _) Hp.
  rewrite <- (lookup_take_lt (mentionsAt h') n p Hp), A. apply lookup_take_lt. exact Hp.
Qed.

Lemma keeps_lookup_tag n m h h' p :
  keeps n m h h' -> p < m -> tagsAt h' !! p = tagsAt h !! p.
Proof.
  intros (_ & B & _) Hp.
  rewrite <- (lookup_take_lt (tagsAt h') m p Hp), B. apply lookup_take_lt. exact Hp.
Qed.

Lemma view_keeps n m h h' e :
  keeps n m h h' -> elem_below n m e -> view h' e = view h e.
Proof.
  intros K [Hm Ht].
  destruct e as [|[p|]|[p|]|[s|]|[t|]| |[l|]|[c|]]; simpl in *; try reflexivity.
  - apply Forall_cons in Hm as [Hp _]. rewrite (keeps_lookup_mention _ _ _ _ _ K Hp).
    reflexivity.
  - apply Forall_cons in Ht as [Hp _]. rewrite (keeps_lookup_tag _ _ _ _ _ K Hp).
    reflexivity.
  - destruct (Subject_tag s) as [p|]; [|reflexivity]. simpl.
    apply Forall_cons in Ht as [Hp _]. rewrite (keeps_lookup_tag _ _ _ _ _ K Hp).
    reflexivity.
Qed.

Lemma elem_ok_below h e :
  elem_ok h e -> elem_below (length (mentionsAt h)) (length (tagsAt h)) e.
Proof.
  unfold elem_below.
  destruct e as [|[p|]|[p|]|[s|]|[t|]| |[l|]|[c|]]; simpl; intros H;
    try contradiction; try (split; constructor; auto; fail).
  destruct (Subject_tag s); split; constructor; auto.
Qed.

Lemma elem_ok_mono h h' e :
  length (mentionsAt h) <= length (mentionsAt h') ->
  length (tagsAt h) <= length (tagsAt h') ->
  elem_ok h e -> elem_ok h' e.
Proof.
  intros Hm Ht.
  destruct e as [|[p|]|[p|]|[s|]|[t|]| |[l|]|[c|]]; simpl; try tauto; try lia.
  destruct (Subject_tag s); [lia|tauto].
Qed.

Lemma elem_ok_not_nil h e : elem_ok h e -> Elem_IsNil e = false.
Proof.
  destruct e as [|[p|]|[p|]|[s|]|[t|]| |[l|]|[c|]]; simpl; intros H;
    try contradiction; reflexivity.
Qed.

Lemma elem_fresh_weaken n m n' m' e :
  n <= n' -> m <= m' -> elem_fresh n' m' e -> elem_fresh n m e.
Proof.
  intros Hn Hm [A B]. split.
  - eapply Forall_impl; [exact A|]. simpl. intros; lia.
  - eapply Forall_impl; [exact B|]. simpl. intros; lia.
Qed.

(** Cloning one element: the clone is a new object of the store with the
    view of the element it was cloned from. *)
Lemma Elem_Clone_spec h e :
  elem_ok h e ->
  exists e' h',
    Elem_Clone e h = (Ok e', "", h')
    /\ elem_ok h' e'
    /\ elem_fresh (length (mentionsAt h)) (length (tagsAt h)) e'
    /\ view h' e' = view h e.
Proof.
  destruct e as [|[p|]|[p|]|[s|]|[t|]| |[l|]|[c|]]; simpl; intros Hok;
    try contradiction.
  - apply lookup_lt_is_Some_2 in Hok as [x Hx].
    exists (EMention (Some (length (mentionsAt h)))),
           (mkStore (mentionsAt h ++ [x]) (tagsAt h)).
    split; [|split; [|split]].
    + unfold bind, loadMention, newMention, ret. rewrite Hx. reflexivity.
    + simpl. rewrite length_app. simpl. lia.
    + split; repeat constructor.
    + simpl. rewrite Hx, (list_lookup_middle _ [] x _ eq_refl). reflexivity.
  - apply lookup_lt_is_Some_2 in Hok as [x Hx].
    exists (ETag (Some (length (tagsAt h)))),
           (mkStore (mentionsAt h) (tagsAt h ++ [x])).
    split; [|split; [|split]].
    + unfold Tag_CloneTag, bind, loadTag, newTag, ret. rewrite Hx. reflexivity.
    + simpl. rewrite length_app. simpl. lia.
    + split; repeat constructor.
    + simpl. rewrite Hx, (list_lookup_middle _ [] x _ eq_refl). reflexivity.
  - destruct s as [txt [p|]]; simpl in Hok.
    + apply lookup_lt_is_Some_2 in Hok as [x Hx].
      exists (ESubject (Some (mkSubject txt (Some (length (tagsAt h)))))),
             (mkStore (mentionsAt h) (tagsAt h ++ [x])).
      split; [|split; [|split]].
      * unfold Subject_Clone, Tag_CloneTag, bind, loadTag, newTag, ret. simpl.
        rewrite Hx. reflexivity.
      * simpl. rewrite length_app. simpl. lia.
      * split; repeat constructor.
      * simpl. rewrite Hx, (list_lookup_middle _ [] x _ eq_refl). reflexivity.
    + exists (ESubject (Some (mkSubject txt None))), h.
      split; [reflexivity|]. split; [exact I|]. split; [|reflexivity].
      split; constructor.
  - exists (EText (Some (mkText (Text_lit t)))), h. destruct t.
    split; [reflexivity|]. split; [exact I|]. split; [|reflexivity]. split; constructor.
  - exists ELineSeparator, h.
    split; [reflexivity|]. split; [exact I|]. split; [|reflexivity]. split; constructor.
  - exists (ELink (Some (mkLink (Link_linkType l) (Link_text l) (Link_target l)))), h.
    destruct l.
    split; [reflexivity|]. split; [exact I|]. split; [|reflexivity]. split; constructor.
  - exists (ECode (Some (mkCode (Code_codeType c) (Code_lit c)))), h. destruct c.
    split; [reflexivity|]. split; [exact I|]. split; [|reflexivity]. split; constructor.
Qed.

Lemma mapM_Clone_spec es h :
  Forall (elem_ok h) es ->
  exists es' h',
    mapM Elem_Clone es h = (Ok es', "", h')
    /\ keeps (length (mentionsAt h)) (length (tagsAt h)) h h'
    /\ Forall (elem_ok h') es'
    /\ Forall (elem_fresh (length (mentionsAt h)) (length (tagsAt h))) es'
    /\ Forall2 (fun e' e => view h' e' = view h' e) es' es.
Proof.
  revert h. induction es as [|e es IH]; intros h Hok.
  - exists [], h. split; [reflexivity|]. split; [apply keeps_refl|].
    split; [constructor|]. split; constructor.
  - apply Forall_cons in Hok as [He Hes].
    destruct (Elem_Clone_spec h e He) as (e' & h1 & E1 & Ok1 & Fr1 & V1).
    pose proof (frames_Elem_Clone (length (mentionsAt h)) (length (tagsAt h)) e h
                  (le_n _) (le_n _)) as K1.
    rewrite E1 in K1. simpl in K1.
    pose proof K1 as (_ & _ & Lm & Lt).
    assert (Hes1 : Forall (elem_ok h1) es).
    { eapply Forall_impl; [exact Hes|]. intros a. apply elem_ok_mono; assumption. }
    destruct (IH h1 Hes1) as (es' & h' & E2 & K2 & Ok2 & Fr2 & V2).
    pose proof K2 as (_ & _ & Lm2 & Lt2).
    assert (K : keeps (length (mentionsAt h)) (length (tagsAt h)) h h').
    { eapply keeps_trans; [exact K1|]. eapply keeps_weaken; [| |exact K2]; assumption. }
    exists (e' :: es'), h'. split; [|split; [|split; [|split]]].
    + simpl. unfold bind. rewrite E1, E2. reflexivity.
    + exact K.
    + constructor; [|exact Ok2]. eapply elem_ok_mono; [| |exact Ok1]; assumption.
    + constructor; [exact Fr1|].
      eapply Forall_impl; [exact Fr2|]. intros a. apply elem_fresh_weaken; assumption.
    + constructor; [|exact V2].
      rewrite (view_keeps _ _ _ _ e' K2 (elem_ok_below _ _ Ok1)), V1.
      symmetry. apply (view_keeps _ _ _ _ e K). apply elem_ok_below. exact He.
Qed.

Lemma Twt_append_mentions twt e :
  mentions (Twt_append twt e) = mentions twt ++ elem_mentions e.
Proof.
  unfold Twt_append, elem_mentions.
  destruct e as [|[p|]|[p|]|[s|]|[t|]| |[l|]|[c|]]; simpl;
    rewrite ?app_nil_r; reflexivity.
Qed.

Lemma Twt_append_dt twt e : dt (Twt_append twt e) = dt twt.
Proof.
  unfold Twt_append.
  destruct e as [|[p|]|[p|]|[s|]|[t|]| |[l|]|[c|]]; reflexivity.
Qed.

Lemma fold_append_mentions elems twt :
  mentions (fold_left Twt_append elems twt) = mentions twt ++ flat_map elem_mentions elems.
Proof.
  revert twt. induction elems as [|e elems IH]; intros twt; simpl.
  - rewrite app_nil_r. reflexivity.
  - rewrite IH, Twt_append_mentions, <- app_assoc. reflexivity.
Qed.

Lemma fold_append_dt elems twt : dt (fold_left Twt_append elems twt) = dt twt.
Proof.
  revert twt. induction elems as [|e elems IH]; intros twt; simpl; [reflexivity|].
  rewrite IH. apply Twt_append_dt.
Qed.

Lemma retained_all h es : Forall (elem_ok h) es -> retained es = es.
Proof.
  unfold retained. induction 1 as [|e es He _ IH]; [reflexivity|].
  rewrite filter_cons, decide_True by (eapply elem_ok_not_nil; exact He).
  rewrite IH. reflexivity.
Qed.

Lemma Forall_flat_map {A B} (Q : B -> Prop) (f : A -> list B) (l : list A) :
  Forall (fun a => Forall Q (f a)) l -> Forall Q (flat_map f l).
Proof.
  induction 1 as [|a l Ha _ IH]; simpl; [constructor|].
  apply Forall_app. split; assumption.
Qed.

(** [CloneTwt] returns a Twt whose elements are new objects with the views
    of the elements they were cloned from, and leaves the store it ran from
    as it was. *)
Lemma Twt_CloneTwt_spec h t :
  Twt_ok h t ->
  exists c h1,
    Twt_CloneTwt t h = (Ok c, "", h1)
    /\ keeps (length (mentionsAt h)) (length (tagsAt h)) h h1
    /\ dt c = dt t
    /\ Forall (elem_fresh (length (mentionsAt h)) (length (tagsAt h))) (msg c)
    /\ Forall (fun p => length (mentionsAt h) <= p) (mentions c)
    /\ Forall (fun p => length (tagsAt h) <= p) (tags c)
    /\ Forall2 (fun e' e => view h1 e' = view h1 e) (msg c) (msg t).
Proof.
  intros Hok. destruct (mapM_Clone_spec (msg t) h Hok) as (es' & h1 & E & K & Ok1 & Fr & V).
  exists (NewTwt (twter t) (dt t) es'), h1.
  assert (Hmsg : msg (NewTwt (twter t) (dt t) es') = es').
  { unfold NewTwt. rewrite fold_append_msg. simpl. apply (retained_all _ _ Ok1). }
  split; [|split; [|split; [|split; [|split; [|split]]]]].
  - unfold Twt_CloneTwt, bind. rewrite E. reflexivity.
  - exact K.
  - unfold NewTwt. rewrite fold_append_dt. reflexivity.
  - rewrite Hmsg. exact Fr.
  - unfold NewTwt. rewrite fold_append_mentions. simpl. apply Forall_flat_map.
    eapply Forall_impl; [exact Fr|]. intros e [A _]. exact A.
  - unfold NewTwt. rewrite fold_append_tags. simpl. apply Forall_flat_map.
    eapply Forall_impl; [exact Fr|]. intros e [_ B]. exact B.
  - rewrite Hmsg. exact V.
Qed.

Lemma frames_FormatText_on n m mode opts c :
  Forall (elem_fresh n m) (msg c) ->
  Forall (fun p => n <= p) (mentions c) ->
  Forall (fun p => m <= p) (tags c) ->
  frames n m (FormatText_on mode opts c).
Proof.
  intros Hmsg Hm Ht. unfold FormatText_on. apply frames_bind.
  - destruct opts as [o|]; [|apply frames_ret].
    apply frames_bind; [|intros _]; apply frames_forM.
    + eapply Forall_impl; [exact Ht|]. intros p Hp. apply frames_FormatText_tag. exact Hp.
    + eapply Forall_impl; [exact Hm|]. intros p Hp.
      apply frames_FormatText_mention. exact Hp.
  - intros _.
    destruct (mode =? HTMLFmt)%Z; [apply frames_Sprintf_Twt; exact Hmsg|].
    destruct (mode =? TextFmt)%Z; [apply frames_Sprintf_Twt; exact Hmsg|].
    destruct (mode =? MarkdownFmt)%Z; apply frames_Sprintf_Twt; exact Hmsg.
Qed.

Lemma Twt_Format_outcome plus c t t' h h' :
  dt t = dt t' ->
  outcome (forM_ (msg t) (Elem_Format c) h) = outcome (forM_ (msg t') (Elem_Format c) h') ->
  outcome (Twt_Format plus c t h) = outcome (Twt_Format plus c t' h').
Proof.
  intros Hdt H. unfold Twt_Format, outcome in *. rewrite Hdt.
  destruct plus; unfold bind, write, ret; simpl;
    destruct (forM_ (msg t) (Elem_Format c) h) as [[r w] h1],
             (forM_ (msg t') (Elem_Format c) h') as [[r' w'] h1'];
    simpl in *; injection H as -> ->; reflexivity.
Qed.

Lemma outcome_collect {A} (m m' : M A) h h' :
  outcome (m h) = outcome (m' h') -> outcome (collect m h) = outcome (collect m' h').
Proof.
  unfold outcome, collect.
  destruct (m h) as [[r w] h1], (m' h') as [[r' w'] h1']. simpl.
  intros [= -> ->]. destruct r'; reflexivity.
Qed.

Lemma Twt_Text_outcome t t' h h' :
  outcome (forM_ (msg t) (Elem_Format "T") h) = outcome (forM_ (msg t') (Elem_Format "T") h') ->
  outcome (Twt_Text t h) = outcome (Twt_Text t' h').
Proof. intros H. apply (outcome_collect _ _ _ _ H). Qed.

Lemma views_same h h' es :
  Forall (fun e => view h' e = view h e) es ->
  Forall2 (fun e e' => view h' e = view h e') es es.
Proof. induction 1; constructor; assumption. Qed.

(** A Twt renders from [h'] as it did from [h] when [h'] keeps the objects
    of [h]. *)
Lemma renders_kept h h' t :
  Twt_ok h t ->
  keeps (length (mentionsAt h)) (length (tagsAt h)) h h' ->
  (forall plus v, outcome (Twt_Format plus v t h') = outcome (Twt_Format plus v t h))
  /\ outcome (Twt_Text t h') = outcome (Twt_Text t h).
Proof.
  intros Hok K.
  assert (V : Forall2 (fun e e' => view h' e = view h e') (msg t) (msg t)).
  { apply views_same. eapply Forall_impl; [exact Hok|].
    intros e He. apply (view_keeps _ _ _ _ e K). apply elem_ok_below. exact He. }
  split.
  - intros plus v. apply Twt_Format_outcome; [reflexivity|].
    apply forM_Format_view. exact V.
  - apply Twt_Text_outcome. apply forM_Format_view. exact V.
Qed.

(** C5: for a Twt whose elements are as [append] keeps them, the clone
    renders as the Twt does under every verb of [Format] (literal, text,
    Markdown, HTML, compact) and in [Text()], and [ExpandLinks] on the clone,
    whatever it
    does and whether it returns or panics, leaves every Mention and Tag of
    the store the Twt lives in as it was, so that the elements and indices
    of the Twt and all its renderings are as before. *)
Theorem C5_clone_renders_alike_and_is_disjoint h t :
  Twt_ok h t ->
  exists c h1,
    Twt_CloneTwt t h = (Ok c, "", h1)
    /\ Twt_Clone t h = (Ok c, "", h1)
    /\ unchanged h h1
    /\ (forall plus v, outcome (Twt_Format plus v c h1) = outcome (Twt_Format plus v t h1))
    /\ (forall plus v, outcome (Twt_Format plus v c h1) = outcome (Twt_Format plus v t h))
    /\ outcome (Twt_Text c h1) = outcome (Twt_Text t h1)
    /\ (forall opts lookup,
          let h2 := (Twt_ExpandLinks opts lookup c h1).2 in
          unchanged h h2
          /\ (forall plus v,
                outcome (Twt_Format plus v t h2) = outcome (Twt_Format plus v t h))
          /\ outcome (Twt_Text t h2) = outcome (Twt_Text t h)).
Proof.
  intros Hok.
  destruct (Twt_CloneTwt_spec h t Hok) as (c & h1 & E & K & Hdt & Fr & Fm & Ft & V).
  pose proof K as (_ & _ & Lm & Lt).
  destruct (renders_kept h h1 t Hok K) as [R1 R1t].
  assert (RC : forall plus v,
             outcome (Twt_Format plus v c h1) = outcome (Twt_Format plus v t h1)).
  { intros plus v. apply Twt_Format_outcome; [exact Hdt|].
    apply forM_Format_view. exact V. }
  exists c, h1. split; [exact E|]. split; [exact E|].
  split; [apply keeps_unchanged; exact K|].
  split; [exact RC|].
  split; [intros plus v; rewrite RC; apply R1|].
  split; [apply Twt_Text_outcome, forM_Format_view; exact V|].
  intros opts lookup h2.
  assert (K2 : keeps (length (mentionsAt h)) (length (tagsAt h)) h h2).
  { eapply keeps_trans; [exact K|].
    apply (frames_Twt_ExpandLinks _ _ opts lookup c Fm Ft h1 Lm Lt). }
  split; [apply keeps_unchanged; exact K2|].
  apply renders_kept; assumption.
Qed.

(** C7: [FormatText] redacts and rewrites the Mentions and Tags of a clone;
    for a Twt whose elements are as [append] keeps them, whatever the mode
    and the options, and whether it returns or panics,
    every Mention and Tag of the store of the receiver is afterwards as it
    was, and the receiver renders as before under every verb of [Format] and
    in [Text()]. *)
Theorem C7_FormatText_leaves_receiver h t mode opts :
  Twt_ok h t ->
  let h' := (Twt_FormatText mode opts t h).2 in
  unchanged h h'
  /\ (forall plus v, outcome (Twt_Format plus v t h') = outcome (Twt_Format plus v t h))
  /\ outcome (Twt_Text t h') = outcome (Twt_Text t h).
Proof.
  intros Hok h'.
  destruct (Twt_CloneTwt_spec h t Hok) as (c & h1 & E & K & Hdt & Fr & Fm & Ft & V).
  pose proof K as (_ & _ & Lm & Lt).
  pose proof (frames_FormatText_on _ _ mode opts c Fr Fm Ft h1 Lm Lt) as K1.
  assert (K2 : keeps (length (mentionsAt h)) (length (tagsAt h)) h h').
  { subst h'. unfold Twt_FormatText, bind. rewrite E.
    destruct (FormatText_on mode opts c h1) as [[r w] h2]. simpl in *.
    eapply keeps_trans; eassumption. }
  split; [apply keeps_unchanged; exact K2|].
  apply renders_kept; assumption.
Qed.

End LextwtClone.

(** * The theorems at concrete inputs *)

Lemma demoTwt_ok : Twt_ok (L := demoLib) demoStore demoTwt.
Proof. vm_compute. repeat constructor. Qed.

(** C9 at [demoElems], which hold the nil interface and a nil [*Tag]. *)
Lemma C9_witness :
  Forall2 (fun e l => reads (Elem_Literal e) demoStore l) (retained demoElems) demoLiterals
  /\ Twt_Elems (NewTwt (L := demoLib) demoTwter demoDate demoElems) = retained demoElems
  /\ reads (Twt_LiteralText (L := demoLib) demoTwt) demoStore
       (String.concat "" demoLiterals).
Proof.
  assert (H : Forall2 (fun e l => reads (Elem_Literal e) demoStore l)
                (retained demoElems) demoLiterals)
    by (vm_compute; repeat constructor).
  split; [exact H|].
  destruct (C9_NewTwt_drops_nil_elements (L := demoLib) (P := demoParser)
              demoTwter demoDate demoElems demoStore demoLiterals H)
    as (A & _ & B & _).
  split; [exact A|exact B].
Defined.

(** C3 at [plainTwt]: its hash is m4ysfxa. *)
Lemma C3_witness :
  hash plainTwt = ""
  /\ reads (Twt_LiteralText (L := demoLib) plainTwt) emptyStore "hello"
  /\ reads (Twt_Hash (L := demoLib) plainTwt) emptyStore "m4ysfxa"
  /\ exists pre hs,
       reads (Twt_Hash (L := demoLib) plainTwt) emptyStore hs
       /\ ToLower (base32_EncodeToString (blake2b_256
            ("https://alice.example/twtxt.txt" +:+ NL +:+ "2020-12-02T01:04:00Z"
             +:+ NL +:+ "hello")))
          = pre +:+ hs
       /\ String.length hs = 7%nat
       /\ string_forall is_base32_lower hs = true.
Proof.
  split; [reflexivity|]. split; [vm_compute; reflexivity|].
  split; [vm_compute; reflexivity|].
  exact (C3_Hash_of_fresh_Twt (L := demoLib) plainTwt emptyStore "hello"
           eq_refl eq_refl).
Defined.

(** C2 (as stated, refuted) at [plainTwt], which has no Subject element:
    its hash is m4ysfxa, and [Subject().Text()] is #m4ysfxa, eight
    characters, not the hash. *)
Lemma C2_Subject_Text_is_not_the_bare_hash :
  subject plainTwt = None
  /\ reads (Twt_Hash (L := demoLib) plainTwt) emptyStore "m4ysfxa"
  /\ (exists s h',
        Twt_Subject (L := demoLib) plainTwt emptyStore = (Ok s, "", h')
        /\ reads (Subject_Text s) h' "#m4ysfxa")
  /\ "#m4ysfxa" <> "m4ysfxa"
  /\ String.length "#m4ysfxa" = 8%nat.
Proof.
  split; [reflexivity|]. split; [vm_compute; reflexivity|]. split.
  - eexists. eexists. split; vm_compute; reflexivity.
  - split; [discriminate|reflexivity].
Qed.

(** C2 (amended) at [plainTwt]. *)
Lemma C2_witness :
  subject plainTwt = None
  /\ reads (Twt_Hash (L := demoLib) plainTwt) emptyStore "m4ysfxa"
  /\ exists p h',
       Twt_Subject (L := demoLib) plainTwt emptyStore = (Ok (mkSubject "" (Some p)), "", h')
       /\ tagsAt h' !! p = Some (mkTag ("#" +:+ "m4ysfxa") "m4ysfxa" "" None None)
       /\ reads (Subject_Text (mkSubject "" (Some p))) h' ("#" +:+ "m4ysfxa")
       /\ String.length ("#" +:+ "m4ysfxa") = S (String.length "m4ysfxa").
Proof.
  assert (H : reads (Twt_Hash (L := demoLib) plainTwt) emptyStore "m4ysfxa")
    by (vm_compute; reflexivity).
  split; [reflexivity|]. split; [exact H|].
  exact (C2_Subject_fallback_is_hash_tag (L := demoLib) plainTwt emptyStore "m4ysfxa"
           eq_refl H).
Defined.

(** C6 at [demoPayload], whose hash abcdefg is not the hash of its text. *)
Lemma C6_witness :
  json_Unmarshal (GoLib := demoLib) demoPayload = inl demoDecoded
  /\ ParseText (Parser := demoParser) "hello" emptyStore
     = (Ok ([EText (Some (NewText "hello"))], None), "", emptyStore)
  /\ enc_Hash demoDecoded <> ""
  /\ exists t,
       DecodeJSON (L := demoLib) (P := demoParser) demoPayload emptyStore
       = (Ok (LexTwt t, None), "", emptyStore)
       /\ hash t = "abcdefg"
       /\ forall h2, reads (Twt_Hash (L := demoLib) t) h2 "abcdefg".
Proof.
  assert (Hu : json_Unmarshal (GoLib := demoLib) demoPayload = inl demoDecoded)
    by (vm_compute; reflexivity).
  assert (Hp : ParseText (Parser := demoParser) (enc_Text demoDecoded) emptyStore
               = (Ok ([EText (Some (NewText "hello"))], None), "", emptyStore))
    by reflexivity.
  assert (Hn : enc_Hash demoDecoded <> "") by discriminate.
  split; [exact Hu|]. split; [exact Hp|]. split; [exact Hn|].
  exact (C6_DecodeJSON_keeps_carried_hash (L := demoLib) (P := demoParser)
           demoPayload demoDecoded _ emptyStore "" emptyStore Hu Hp Hn).
Defined.



(** C5 at [demoTwt]: expanding the links of the clone leaves [demoStore]
    as it was. *)
Lemma C5_witness :
  Twt_ok (L := demoLib) demoStore demoTwt
  /\ exists c h1,
       Twt_CloneTwt (L := demoLib) demoTwt demoStore = (Ok c, "", h1)
       /\ unchanged demoStore h1
       /\ outcome (Twt_Format false "H" c h1) = outcome (Twt_Format false "H" demoTwt demoStore)
       /\ unchanged demoStore
            (Twt_ExpandLinks (Some demoOpts) (Some demoLookup) c h1).2.
Proof.
  split; [exact demoTwt_ok|].
  destruct (C5_clone_renders_alike_and_is_disjoint (L := demoLib)
              demoStore demoTwt demoTwt_ok)
    as (c & h1 & E & _ & U & _ & R & _ & X).
  exists c, h1. split; [exact E|]. split; [exact U|]. split; [apply R|].
  destruct (X (Some demoOpts) (Some demoLookup)) as (U2 & _). exact U2.
Defined.

(** C7 at [demoTwt], in the text mode with options. *)
Lemma C7_witness :
  Twt_ok (L := demoLib) demoStore demoTwt
  /\ unchanged demoStore
       (Twt_FormatText (L := demoLib) TextFmt (Some demoOpts) demoTwt demoStore).2
  /\ outcome (Twt_Format false "M" demoTwt
                (Twt_FormatText (L := demoLib) TextFmt (Some demoOpts) demoTwt demoStore).2)
     = outcome (Twt_Format false "M" demoTwt demoStore).
Proof.
  split; [exact demoTwt_ok|].
  destruct (C7_FormatText_leaves_receiver (L := demoLib)
              demoStore demoTwt TextFmt (Some demoOpts) demoTwt_ok) as (U & R & _).
  split; [exact U|apply R].
Defined.

(** * Further properties *)

(** ** Comments: GetN, GetAll, Followers *)

Lemma matches_elem k lis c : c ∈ matches k lis -> key c = k /\ c ∈ lis.
Proof.
  induction lis as [|x lis IH]; simpl; [intros H; inversion H|].
  destruct (String.eqb_spec k (key x)) as [E|E].
  - intros H. apply elem_of_cons in H as [->|H].
    + split; [symmetry; exact E|left].
    + destruct (IH H). split; [assumption|right; assumption].
  - intros H. destruct (IH H). split; [assumption|right; assumption].
Qed.

(** X1: for n = 0 [GetN] returns the first entry whose key is [k], for
    n > 0 the n-th such entry, counted from one; an entry it returns has the
    key [k] and is an entry of the list; when fewer than n entries have the
    key it reports not-found. *)
Theorem X1_GetN_nonnegative lis k n :
  (0 <= n)%Z ->
  (n = 0%Z -> Comments_GetN lis k n = Ok (head (matches k lis)))
  /\ ((0 < n)%Z -> Comments_GetN lis k n = Ok (matches k lis !! Z.to_nat (n - 1)))
  /\ (forall c, Comments_GetN lis k n = Ok (Some c) -> key c = k /\ c ∈ lis)
  /\ ((0 < n)%Z -> (len (matches k lis) < n)%Z -> Comments_GetN lis k n = Ok None).
Proof.
  intros Hn.
  assert (E : Comments_GetN lis k n = Ok (matches k lis !! Z.to_nat (n - 1))).
  { destruct (Z.eq_dec n 0%Z) as [->|Hne].
    - rewrite Comments_GetN_zero. simpl. rewrite head_lookup. reflexivity.
    - apply Comments_GetN_pos. lia. }
  split; [intros ->; apply Comments_GetN_zero|].
  split; [intros _; exact E|]. split.
  - intros c Hc. rewrite E in Hc. injection Hc as Hc.
    apply matches_elem. apply list_elem_of_lookup. eauto.
  - intros Hp Hlt. rewrite E. f_equal. apply lookup_ge_None. unfold len in Hlt. lia.
Qed.

(** X2: for a negative n other than the least int, [GetN] returns the
    collected match at index m + n, m being the number of matches, when that
    index is at least one, and not-found otherwise: a negative n never
    reaches the first match. *)
Theorem X2_GetN_negative lis k n :
  (len lis <= int_max)%Z ->
  (int_min < n < 0)%Z ->
  Comments_GetN lis k n =
  Ok (if (1 <=? len (matches k lis) + n)%Z
      then matches k lis !! Z.to_nat (len (matches k lis) + n)
      else None).
Proof.
  intros Hl Hn. rewrite (Comments_GetN_neg lis k n Hl Hn).
  destruct (Z.ltb_spec (- n) (len (matches k lis))),
           (Z.leb_spec 1 (len (matches k lis) + n)); try reflexivity; lia.
Qed.

(** X3: with the least int as n, whose negation wraps to itself, the guard of
    the negative branch holds and the index [len(idx)+n] is negative: [GetN]
    panics on every list. *)
Theorem X3_GetN_least_int_panics lis k :
  (len lis <= int_max)%Z ->
  Comments_GetN lis k int_min = Panic.
Proof. apply Comments_GetN_int_min. Qed.

Lemma prefix_trans (a b s : string) :
  String.prefix a b = true -> String.prefix b s = true -> String.prefix a s = true.
Proof.
  revert b s. induction a as [|x a IH]; intros b s; [destruct s; reflexivity|].
  destruct b as [|y b]; [discriminate|]. destruct s as [|z s]; [discriminate|].
  simpl. destruct (ascii_dec x y) as [->|]; [|discriminate].
  destruct (ascii_dec y z) as [->|]; [|discriminate].
  apply IH.
Qed.

(** X4: filtering by a prefix the entries already filtered by a shorter
    prefix gives what filtering by the longer prefix gives; so [GetAll] is
    idempotent, and [GetAll] after [GetAll] with the empty prefix loses
    nothing. *)
Theorem X4_GetAll_refines lis p1 p2 :
  HasPrefix p2 p1 = true ->
  Comments_GetAll (Comments_GetAll lis p1) p2 = Comments_GetAll lis p2.
Proof.
  intros Hp. induction lis as [|c lis IH]; [reflexivity|]. simpl.
  destruct (String.eqb (key c) "") eqn:Ek; [exact IH|].
  destruct (HasPrefix (key c) p1) eqn:E1.
  - simpl. rewrite Ek. destruct (HasPrefix (key c) p2); rewrite IH; reflexivity.
  - destruct (HasPrefix (key c) p2) eqn:E2; [|exact IH].
    unfold HasPrefix in *. rewrite (prefix_trans _ _ _ Hp E2) in E1. discriminate.
Qed.

Lemma DecodeRune_width b0 rest : exists w, (DecodeRune b0 rest).2 = S w.
Proof.
  unfold DecodeRune.
  repeat match goal with
         | |- context [if ?b then _ else _] => destruct b
         end; eexists; reflexivity.
Qed.

Lemma runes_from_bytes s skip :
  Forall (fun rb => rb.2 <> "") (runes_from s skip).
Proof.
  revert skip. induction s as [|c s IH]; intros skip; simpl; [constructor|].
  destruct skip as [|k]; [|apply IH].
  destruct (DecodeRune_width (N_of_ascii c) s) as [w Hw].
  destruct (DecodeRune (N_of_ascii c) s) as [r w']. simpl in Hw. subst w'.
  constructor; [simpl; discriminate|apply IH].
Qed.

Lemma sapp_not_empty (a b : string) : b <> "" -> a +:+ b <> "".
Proof.
  intros Hb H. destruct a; [exact (Hb H)|]. rewrite sapp_cons in H. discriminate.
Qed.

Lemma fields_loop_not_empty rs cur :
  Forall (fun rb : N * string => rb.2 <> "") rs ->
  (forall f, cur = Some f -> f <> "") ->
  Forall (fun f => f <> "") (fields_loop rs cur).
Proof.
  intros H. revert cur. induction H as [|[r bytes] rs Hb _ IH]; intros cur Hc; simpl.
  - destruct cur as [f|]; [|constructor]. constructor; [apply Hc; reflexivity|constructor].
  - destruct (IsSpace r).
    + destruct cur as [f|].
      * constructor; [apply Hc; reflexivity|]. apply IH. intros ? [=].
      * apply IH. intros ? [=].
    + apply IH. intros f [= <-]. apply sapp_not_empty. exact Hb.
Qed.

Lemma Fields_not_empty s : Forall (fun f => f <> "") (Fields s).
Proof.
  apply fields_loop_not_empty; [apply runes_from_bytes|intros ? [=]].
Qed.

Lemma GetAll_length lis p : length (Comments_GetAll lis p) <= length lis.
Proof.
  induction lis as [|c lis IH]; simpl; [lia|].
  destruct (String.eqb (key c) ""); [lia|].
  destruct (HasPrefix (key c) p); simpl; lia.
Qed.

(** X5: every Twter [Followers] returns has a nick and a url that are not
    empty, and no avatar and no tagline; there are at most as many followers
    as entries. *)
Theorem X5_Followers_nick_and_url_not_empty (lis : Comments) :
  Forall (fun tw => Nick tw <> "" /\ URL tw <> "" /\ Avatar tw = "" /\ Tagline tw = "")
    (Comments_Followers lis)
  /\ length (Comments_Followers lis) <= length lis.
Proof.
  unfold Comments_Followers.
  pose proof (GetAll_length lis "follow") as Hlen.
  revert Hlen. generalize (Comments_GetAll lis "follow"). intros flis Hlen.
  assert (H : Forall (fun tw => Nick tw <> "" /\ URL tw <> "" /\ Avatar tw = ""
                                /\ Tagline tw = "") (Followers_loop flis)
              /\ length (Followers_loop flis) <= length flis).
  { clear Hlen. induction flis as [|o flis [IH1 IH2]]; simpl; [split; [constructor|lia]|].
    pose proof (Fields_not_empty (value o)) as Hf.
    destruct (Fields (value o)) as [|nick [|url rest]]; try (split; [exact IH1|lia]).
    apply Forall_cons in Hf as [Hn Hf]. apply Forall_cons in Hf as [Hu _].
    split; [|simpl; lia]. constructor; [|exact IH1]. repeat split; assumption. }
  destruct H as [H1 H2]. split; [exact H1|lia].
Qed.

Lemma X1_witness :
  (0 <= 2)%Z
  /\ Comments_GetN demoComments "follow" 2
     = Ok (Some (NewCommentValue "# follow = carol https://carol.example/twtxt.txt"
                   "follow" "carol https://carol.example/twtxt.txt"))
  /\ Comments_GetN demoComments "follow" 4 = Ok None.
Proof.
  assert (H : (0 <= 2)%Z) by lia. split; [exact H|].
  destruct (X1_GetN_nonnegative demoComments "follow" 2 H) as (_ & E & _).
  split; [rewrite E by lia; reflexivity|].
  destruct (X1_GetN_nonnegative demoComments "follow" 4 ltac:(lia)) as (_ & _ & _ & N).
  apply N; [lia|vm_compute; reflexivity].
Defined.

Lemma X2_witness :
  (len demoComments <= int_max)%Z /\ (int_min < -2 < 0)%Z
  /\ Comments_GetN demoComments "follow" (-2)
     = Ok (Some (NewCommentValue "# follow = carol https://carol.example/twtxt.txt"
                   "follow" "carol https://carol.example/twtxt.txt"))
  /\ Comments_GetN demoComments "follow" (-3) = Ok None.
Proof.
  assert (Hl : (len demoComments <= int_max)%Z) by (vm_compute; discriminate).
  assert (Hn : (int_min < -2 < 0)%Z) by (vm_compute; split; reflexivity).
  split; [exact Hl|]. split; [exact Hn|]. split.
  - rewrite (X2_GetN_negative demoComments "follow" (-2) Hl Hn). reflexivity.
  - rewrite (X2_GetN_negative demoComments "follow" (-3) Hl); [reflexivity|].
    vm_compute. split; reflexivity.
Defined.

Lemma X3_witness :
  (len demoComments <= int_max)%Z
  /\ Comments_GetN demoComments "follow" int_min = Panic
  /\ Comments_GetN [] "follow" int_min = Panic.
Proof.
  assert (Hl : (len demoComments <= int_max)%Z) by (vm_compute; discriminate).
  split; [exact Hl|]. split.
  - exact (X3_GetN_least_int_panics demoComments "follow" Hl).
  - apply X3_GetN_least_int_panics. vm_compute. discriminate.
Defined.

Lemma X4_witness :
  HasPrefix "following" "follow" = true
  /\ Comments_GetAll (Comments_GetAll demoComments "follow") "following"
     = Comments_GetAll demoComments "following"
  /\ Comments_GetAll demoComments "following" = [NewCommentValue "# following = 2" "following" "2"].
Proof.
  assert (H : HasPrefix "following" "follow" = true) by reflexivity.
  split; [exact H|]. split; [|reflexivity].
  exact (X4_GetAll_refines demoComments "follow" "following" H).
Defined.

(** ** Rendering *)

Section LextwtRendering.
Context {L : GoLib}.

Lemma elem_ok_Literal h e : elem_ok h e -> exists l, reads (Elem_Literal e) h l.
Proof.
  unfold reads.
  destruct e as [|[p|]|[p|]|[s|]|[t|]| |[l|]|[c|]]; simpl; intros Hok;
    try contradiction; try (eexists; reflexivity).
  - apply lookup_lt_is_Some_2 in Hok as [x Hx].
    exists (Mention_lit x). unfold bind, loadMention, ret. rewrite Hx. reflexivity.
  - apply lookup_lt_is_Some_2 in Hok as [x Hx].
    exists (Tag_lit x). unfold Tag_Literal_at, bind, loadTag, ret. rewrite Hx. reflexivity.
  - unfold Subject_Literal. destruct (Subject_tag s) as [p|]; [|eexists; reflexivity].
    apply lookup_lt_is_Some_2 in Hok as [x Hx].
    exists ("(" +:+ Tag_lit x +:+ ")").
    unfold Tag_Literal_at, bind, loadTag, ret. rewrite Hx. reflexivity.
Qed.

Lemma ok_literals h es :
  Forall (elem_ok h) es ->
  exists ls, Forall2 (fun e l => reads (Elem_Literal e) h l) es ls.
Proof.
  induction 1 as [|e es He _ [ls IH]]; [exists []; constructor|].
  destruct (elem_ok_Literal h e He) as [l Hl]. exists (l :: ls). constructor; assumption.
Qed.

Lemma writeLiterals_loop es ls h :
  Forall2 (fun e l => reads (Elem_Literal e) h l) es ls ->
  forM_ es (Elem_Format "L") h = (Ok tt, String.concat "" ls, h).
Proof.
  induction 1 as [|e l es ls He _ IH]; [reflexivity|].
  simpl forM_. unfold bind.
  change (Elem_Format "L" e) with (Elem_writeLiteral e).
  rewrite (writeLiteral_reads _ _ _ He), IH, concat_cons. reflexivity.
Qed.

Lemma ok_not_nil h es : Forall (elem_ok h) es -> Forall (fun e => Elem_IsNil e = false) es.
Proof. intros H. eapply Forall_impl; [exact H|]. intros e. apply elem_ok_not_nil. Qed.

(** X6: for a Twt whose elements are as [append] keeps them, [LiteralText()]
    and the verb L of [Format] return the same text, and [Literal()] and
    [FormatTwt()] return the same line: the literal of the time stamp, a tab,
    that text and a newline; none of them panics or writes the store. *)
Theorem X6_FormatTwt_is_Literal h t :
  Twt_ok h t ->
  exists lt,
    reads (Twt_LiteralText t) h lt
    /\ reads (Sprintf_Twt false "L" t) h lt
    /\ reads (Twt_Literal t) h (DateTime_Literal (dt t) +:+ TAB +:+ lt +:+ NL)
    /\ reads (Twt_FormatTwt t) h (DateTime_Literal (dt t) +:+ TAB +:+ lt +:+ NL).
Proof.
  intros Hok. destruct (ok_literals h (msg t) Hok) as [ls Hls].
  pose proof (literals_loop _ _ _ (ok_not_nil _ _ Hok) Hls) as E1.
  pose proof (writeLiterals_loop _ _ _ Hls) as E2.
  assert (R : reads (Twt_LiteralText t) h (String.concat "" ls))
    by (unfold reads, Twt_LiteralText, collect; rewrite E1; reflexivity).
  exists (String.concat "" ls). split; [exact R|]. split; [|split].
  - unfold reads, Sprintf_Twt, Twt_Format, bind, ret. rewrite E2. reflexivity.
  - unfold reads, Twt_Literal, collect, bind, write. rewrite R. reflexivity.
  - unfold reads, Twt_FormatTwt, Sprintf_Twt, Twt_Format, bind, write, ret. rewrite E2. cbn.
    rewrite !sapp_assoc. reflexivity.
Qed.

Lemma Elem_Format_plain c e h :
  elem_ok h e -> c <> "M"%char -> exists w, Elem_Format c e h = (Ok tt, w, h).
Proof.
  intros Hok Hc.
  assert (HM : Ascii.eqb c "M" = false) by (apply Ascii.eqb_neq; exact Hc).
  unfold Elem_Format. rewrite HM.
  destruct e as [|[p|]|[p|]|[[txt [p|]]|]|[t|]| |[l|]|[k|]]; simpl in Hok;
    try contradiction;
    try (apply lookup_lt_is_Some_2 in Hok as [x Hx]);
    destruct (Ascii.eqb c "H"), (Ascii.eqb c "T"), (Ascii.eqb c "C"); simpl;
    repeat (progress (unfold Elem_writeLiteral, Subject_FormatText, Subject_FormatHTML,
      Subject_Literal, Tag_FormatText_at, Tag_FormatHTML_at, Tag_FormatCompact_at,
      Tag_Literal_at, bind, loadMention, loadTag, write, ret; simpl; rewrite ?Hx));
    eexists; reflexivity.
Qed.

Lemma forM_Format_plain c es h :
  Forall (elem_ok h) es -> c <> "M"%char ->
  exists w, forM_ es (Elem_Format c) h = (Ok tt, w, h).
Proof.
  intros H Hc. induction H as [|e es He _ [w IH]]; [exists ""; reflexivity|].
  destruct (Elem_Format_plain c e h He Hc) as [w1 E1].
  exists (w1 +:+ w). simpl forM_. unfold bind. rewrite E1, IH. reflexivity.
Qed.

(** X7: under every verb other than M, [Format] on a Twt whose elements are
    as [append] keeps them returns without a panic and leaves the store as it
    was, and so does [Text()]: only the Markdown rendering can panic or fill
    a cache. *)
Theorem X7_Format_but_Markdown_is_pure h t plus c :
  Twt_ok h t ->
  c <> "M"%char ->
  (exists w, Twt_Format plus c t h = (Ok tt, w, h))
  /\ (exists s, reads (Twt_Text t) h s).
Proof.
  intros Hok Hc. split.
  - destruct (forM_Format_plain c (msg t) h Hok Hc) as [w E].
    destruct plus; unfold Twt_Format, bind, write, ret; rewrite E;
      eexists; reflexivity.
  - destruct (forM_Format_plain "T" (msg t) h Hok ltac:(discriminate)) as [w E].
    exists w. unfold reads, Twt_Text, collect.
    change (fun s => if is_ElemText s then Elem_FormatText s else Elem_writeLiteral s)
      with (Elem_Format "T").
    rewrite E. reflexivity.
Qed.

End LextwtRendering.

(** X6 at [demoTwt]. *)
Lemma X6_witness :
  Twt_ok (L := demoLib) demoStore demoTwt
  /\ exists lt,
       reads (Twt_LiteralText (L := demoLib) demoTwt) demoStore lt
       /\ reads (Twt_FormatTwt (L := demoLib) demoTwt) demoStore
            (DateTime_Literal (dt demoTwt) +:+ TAB +:+ lt +:+ NL).
Proof.
  split; [exact demoTwt_ok|].
  destruct (X6_FormatTwt_is_Literal (L := demoLib) demoStore demoTwt demoTwt_ok)
    as (lt & R1 & _ & _ & R2).
  exists lt. split; [exact R1|exact R2].
Defined.

(** X7 at [demoTwt], for the verb H with the time stamp. *)
Lemma X7_witness :
  Twt_ok (L := demoLib) demoStore demoTwt
  /\ "H"%char <> "M"%char
  /\ exists w, Twt_Format (L := demoLib) true "H" demoTwt demoStore = (Ok tt, w, demoStore).
Proof.
  split; [exact demoTwt_ok|]. split; [discriminate|].
  exact (proj1 (X7_Format_but_Markdown_is_pure (L := demoLib) demoStore demoTwt true "H"
                  demoTwt_ok ltac:(discriminate))).
Defined.

Section LextwtRenderingFrame.
Context {L : GoLib}.

Lemma sims_Twt_Format plus c t : sims (Twt_Format plus c t).
Proof.
  unfold Twt_Format. apply sims_bind.
  - destruct plus; [|apply sims_ret]. apply sims_bind; [|intros _]; apply sims_write.
  - intros _. apply sims_forM. intros e. apply sims_Elem_Format.
Qed.

(** X8: [Format], under any verb and on any Twt, leaves every Mention as it
    was and changes nothing of a Tag but the cached outcome of [url.Parse]:
    its literal, its text and its target are as before, and no object is
    added or removed. *)
Theorem X8_Format_touches_only_the_parse_cache plus c t h :
  mentionsAt (Twt_Format plus c t h).2 = mentionsAt h
  /\ length (tagsAt (Twt_Format plus c t h).2) = length (tagsAt h)
  /\ forall p n,
       tagsAt h !! p = Some n ->
       exists n',
         tagsAt (Twt_Format plus c t h).2 !! p = Some n'
         /\ Tag_lit n' = Tag_lit n /\ Tag_tag n' = Tag_tag n
         /\ Tag_target n' = Tag_target n
         /\ (Tag_URL n').2 = (Tag_URL n).2.
Proof.
  destruct (sims_Twt_Format plus c t h) as [A B].
  split; [exact A|]. split.
  - rewrite <- (length_fmap Tag_norm), B, length_fmap. reflexivity.
  - intros p n Hn.
    assert (E : Tag_norm <$> tagsAt (Twt_Format plus c t h).2 !! p = Some (Tag_norm n)).
    { rewrite <- list_lookup_fmap, B, list_lookup_fmap, Hn. reflexivity. }
    destruct (tagsAt (Twt_Format plus c t h).2 !! p) as [n'|]; [|discriminate].
    exists n'. split; [reflexivity|]. injection E as E.
    apply Tag_norm_eq. exact E.
Qed.

Lemma Sprintf_outcome plus c t t' h h' :
  outcome (Twt_Format plus c t h) = outcome (Twt_Format plus c t' h') ->
  outcome (Sprintf_Twt plus c t h) = outcome (Sprintf_Twt plus c t' h').
Proof.
  unfold outcome, Sprintf_Twt. destruct (Ascii.eqb c "T"); [reflexivity|].
  destruct (Twt_Format plus c t h) as [[r w] h1],
           (Twt_Format plus c t' h') as [[r' w'] h1']. simpl.
  intros [= -> ->]. destruct r'; reflexivity.
Qed.

Lemma FormatText_on_None mode c h :
  FormatText_on mode None c h
  = Sprintf_Twt false
      (if (mode =? HTMLFmt)%Z then "H" else if (mode =? TextFmt)%Z then "T"
       else if (mode =? MarkdownFmt)%Z then "M" else "L")%char c h.
Proof.
  unfold FormatText_on, bind, ret.
  destruct (mode =? HTMLFmt)%Z; [|destruct (mode =? TextFmt)%Z;
    [|destruct (mode =? MarkdownFmt)%Z]];
    unfold Sprintf_Twt;
    match goal with |- context [Twt_Format ?a ?b ?c ?d] =>
      destruct (Twt_Format a b c d) as [[[[]|] w] h'] end; reflexivity.
Qed.

(** X9: without options, [FormatText] on a Twt whose elements are as
    [append] keeps them returns what [fmt.Sprintf] with the verb of the mode
    (H, T, M, and L for any other mode) returns on the receiver itself. In
    the text mode the verb is T, which fmt answers with the type of its
    operand without calling [Format]: the result is lextwt.Twt whatever the
    Twt holds, and not what [Text()] returns. *)
Theorem X9_FormatText_without_options h t mode :
  Twt_ok h t ->
  outcome (Twt_FormatText mode None t h)
  = outcome (Sprintf_Twt false
      (if (mode =? HTMLFmt)%Z then "H" else if (mode =? TextFmt)%Z then "T"
       else if (mode =? MarkdownFmt)%Z then "M" else "L")%char t h)
  /\ outcome (Twt_FormatText TextFmt None t h) = (Ok "lextwt.Twt", "")
  /\ exists s, reads (Twt_Text t) h s.
Proof.
  intros Hok.
  destruct (Twt_CloneTwt_spec h t Hok) as (c & h1 & E & K & Hdt & _ & _ & _ & V).
  assert (V' : Forall2 (fun e' e => view h1 e' = view h e) (msg c) (msg t)).
  { unfold Twt_ok in Hok. revert V Hok. generalize (msg c), (msg t).
    induction 1 as [|e' e es' es Hv _ IH]; intros Hok; [constructor|].
    apply Forall_cons in Hok as [He Hes]. constructor; [|apply IH; exact Hes].
    rewrite Hv. apply (view_keeps _ _ _ _ e K). apply elem_ok_below. exact He. }
  assert (R : forall v, outcome (Sprintf_Twt false v c h1)
                        = outcome (Sprintf_Twt false v t h)).
  { intros v. apply Sprintf_outcome. apply Twt_Format_outcome; [exact Hdt|].
    apply forM_Format_view. exact V'. }
  assert (F : forall m, outcome (Twt_FormatText m None t h)
                        = outcome (FormatText_on m None c h1)).
  { intros m. unfold Twt_FormatText, bind. rewrite E.
    destruct (FormatText_on m None c h1) as [[[s|] w] h2]; reflexivity. }
  split; [|split].
  - rewrite F, FormatText_on_None. apply R.
  - rewrite F, FormatText_on_None. reflexivity.
  - destruct (forM_Format_plain "T" (msg t) h Hok ltac:(discriminate)) as [w Ew].
    exists w. unfold reads, Twt_Text, collect.
    change (fun s => if is_ElemText s then Elem_FormatText s else Elem_writeLiteral s)
      with (Elem_Format "T").
    rewrite Ew. reflexivity.
Qed.

End LextwtRenderingFrame.

(** X9 at [demoTwt], in the Markdown mode. *)
Lemma X9_witness :
  Twt_ok (L := demoLib) demoStore demoTwt
  /\ outcome (Twt_FormatText (L := demoLib) MarkdownFmt None demoTwt demoStore)
     = outcome (Sprintf_Twt (L := demoLib) false "M" demoTwt demoStore).
Proof.
  split; [exact demoTwt_ok|].
  exact (proj1 (X9_FormatText_without_options (L := demoLib) demoStore demoTwt MarkdownFmt
                  demoTwt_ok)).
Defined.

(** ** ExpandLinks *)

Lemma preserves_bind {A B} (R : Store -> Store -> Prop) (c : M A) (f : A -> M B) :
  (forall a b d, R a b -> R b d -> R a d) ->
  preserves R c -> (forall a, preserves R (f a)) -> preserves R (bind c f).
Proof.
  intros T Hc Hf h. specialize (Hc h). unfold bind.
  destruct (c h) as [[[a|] w] h1]; simpl in Hc; [|exact Hc].
  specialize (Hf a h1). destruct (f a h1) as [[r w'] h2]. simpl in *.
  eapply T; eassumption.
Qed.

Lemma preserves_forM {A} (R : Store -> Store -> Prop) (l : list A) (f : A -> M unit) :
  (forall a, R a a) ->
  (forall a b d, R a b -> R b d -> R a d) ->
  (forall a, preserves R (f a)) -> preserves R (forM_ l f).
Proof.
  intros Rf T Hf. induction l as [|a l IH]; simpl.
  - intros h. apply Rf.
  - apply preserves_bind; [exact T|apply Hf|intros _; exact IH].
Qed.

Lemma Forall2_diag {A} (R : A -> A -> Prop) (l : list A) :
  (forall a, R a a) -> Forall2 R l l.
Proof. intros H. induction l; constructor; auto. Qed.

Lemma Forall2_insert_here {A} (R : A -> A -> Prop) (l : list A) p n x :
  (forall a, R a a) -> l !! p = Some n -> R n x -> Forall2 R l (<[p := x]> l).
Proof.
  intros Rf. revert p. induction l as [|a l IH]; intros p Hp Hx; [discriminate|].
  destruct p as [|p]; simpl in *.
  - injection Hp as ->. constructor; [exact Hx|apply Forall2_diag, Rf].
  - constructor; [apply Rf|apply IH; assumption].
Qed.

Lemma Forall2_chain {A} (R : A -> A -> Prop) (l k m : list A) :
  (forall a b d, R a b -> R b d -> R a d) ->
  Forall2 R l k -> Forall2 R k m -> Forall2 R l m.
Proof.
  intros T H. revert m. induction H as [|a b l k Hab _ IH]; intros m Hm.
  - inversion Hm; subst. constructor.
  - inversion Hm as [|? d ? m' Hbd Hkm]; subst. constructor; [eapply T; eassumption|].
    apply IH. exact Hkm.
Qed.

Lemma Mention_expanded_refl n : Mention_expanded n n.
Proof. repeat split. Qed.

Lemma Tag_expanded_refl n : Tag_expanded n n.
Proof. repeat split. Qed.

Lemma Mention_expanded_trans a b c :
  Mention_expanded a b -> Mention_expanded b c -> Mention_expanded a c.
Proof.
  intros (A1 & A2 & A3 & A4) (B1 & B2 & B3 & B4).
  split; [congruence|]. split; [congruence|]. split; [congruence|].
  intros H. specialize (A4 H). subst b. apply B4. exact H.
Qed.

Lemma Tag_expanded_trans a b c : Tag_expanded a b -> Tag_expanded b c -> Tag_expanded a c.
Proof.
  intros (A1 & A2 & A3 & A4 & A5) (B1 & B2 & B3 & B4 & B5).
  split; [congruence|]. split; [congruence|]. split; [congruence|]. split; [congruence|].
  intros H. specialize (A5 H). subst b. apply B5. exact H.
Qed.

Lemma expanded_refl h : expanded h h.
Proof.
  split; apply Forall2_diag; [apply Mention_expanded_refl|apply Tag_expanded_refl].
Qed.

Lemma expanded_trans a b c : expanded a b -> expanded b c -> expanded a c.
Proof.
  intros [A1 A2] [B1 B2]. split.
  - eapply Forall2_chain; [|exact A1|exact B1]. apply Mention_expanded_trans.
  - eapply Forall2_chain; [|exact A2|exact B2]. apply Tag_expanded_trans.
Qed.

Section LextwtExpandLinks.
Context {L : GoLib}.

Lemma expands_ExpandLinks_tag opts p : preserves expanded (ExpandLinks_tag opts p).
Proof.
  intros h. unfold ExpandLinks_tag, bind, loadTag, storeTag, panic, ret.
  destruct (tagsAt h !! p) as [n|] eqn:Hn; [|apply expanded_refl].
  destruct (String.eqb (Tag_target n) "") eqn:Ht; [|apply expanded_refl].
  destruct opts as [o|]; [|apply expanded_refl]. simpl.
  split; [apply Forall2_diag, Mention_expanded_refl|].
  apply (Forall2_insert_here _ _ _ n); [apply Tag_expanded_refl|exact Hn|].
  apply String.eqb_eq in Ht.
  repeat split. intros H. contradiction.
Qed.

Lemma expands_ExpandLinks_mention lookup p : preserves expanded (ExpandLinks_mention lookup p).
Proof.
  intros h. unfold ExpandLinks_mention, bind, loadMention, storeMention, panic, ret.
  destruct (mentionsAt h !! p) as [n|] eqn:Hn; [|apply expanded_refl].
  destruct lookup as [f|]; [|apply expanded_refl].
  destruct (String.eqb (Mention_target n) "") eqn:Ht; [|apply expanded_refl].
  destruct (f (Mention_name n)) as [tw|]; [|apply expanded_refl].
  apply String.eqb_eq in Ht.
  destruct (SplitN (Nick tw) "@" 2) as [|a [|b [|x l]]]; simpl;
    (split; [|apply Forall2_diag, Tag_expanded_refl]);
    (apply (Forall2_insert_here _ _ _ n); [apply Mention_expanded_refl|exact Hn|]);
    (split; [reflexivity|]; split; [reflexivity|]; split; [reflexivity|]);
    intros H; contradiction.
Qed.

Lemma expands_ExpandLinks opts lookup t : preserves expanded (Twt_ExpandLinks opts lookup t).
Proof.
  unfold Twt_ExpandLinks. apply preserves_bind; [exact expanded_trans| |intros _].
  - apply preserves_forM; [exact expanded_refl|exact expanded_trans|].
    apply expands_ExpandLinks_tag.
  - apply preserves_forM; [exact expanded_refl|exact expanded_trans|].
    apply expands_ExpandLinks_mention.
Qed.

Lemma same_mentions_ExpandLinks opts t :
  preserves same_mentions (Twt_ExpandLinks opts None t).
Proof.
  assert (T : forall a b d, same_mentions a b -> same_mentions b d -> same_mentions a d)
    by (unfold same_mentions; congruence).
  unfold Twt_ExpandLinks. apply preserves_bind; [exact T| |intros _];
    (apply preserves_forM; [reflexivity|exact T|]); intros p h.
  - unfold same_mentions, ExpandLinks_tag, bind, loadTag, storeTag, panic, ret.
    destruct (tagsAt h !! p) as [n|]; [|reflexivity].
    destruct (String.eqb (Tag_target n) ""); [|reflexivity].
    destruct opts; reflexivity.
  - unfold same_mentions, ExpandLinks_mention, bind, loadMention, ret.
    destruct (mentionsAt h !! p); reflexivity.
Qed.

(** X10: [ExpandLinks], on any Twt, removes and adds no object; a Tag or a
    Mention that has a target is left exactly as it was, and of the others
    the literal and the cached parse stay (for a Tag the text as well); with
    a nil lookup no Mention changes at all. *)
Theorem X10_ExpandLinks_fills_only_empty_targets opts lookup t h :
  (forall p n, tagsAt h !! p = Some n ->
     exists n', tagsAt (Twt_ExpandLinks opts lookup t h).2 !! p = Some n'
                /\ Tag_expanded n n')
  /\ (forall p n, mentionsAt h !! p = Some n ->
        exists n', mentionsAt (Twt_ExpandLinks opts lookup t h).2 !! p = Some n'
                   /\ Mention_expanded n n')
  /\ length (tagsAt (Twt_ExpandLinks opts lookup t h).2) = length (tagsAt h)
  /\ length (mentionsAt (Twt_ExpandLinks opts lookup t h).2) = length (mentionsAt h)
  /\ (lookup = None -> mentionsAt (Twt_ExpandLinks opts lookup t h).2 = mentionsAt h).
Proof.
  destruct (expands_ExpandLinks opts lookup t h) as [A B].
  split; [|split; [|split; [|split]]].
  - intros p n Hn. apply (Forall2_lookup_l _ _ _ _ _ B Hn).
  - intros p n Hn. apply (Forall2_lookup_l _ _ _ _ _ A Hn).
  - symmetry. apply (Forall2_length _ _ _ B).
  - symmetry. apply (Forall2_length _ _ _ A).
  - intros ->. apply same_mentions_ExpandLinks.
Qed.

Lemma expanded_Literal h h' e l :
  expanded h h' -> reads (Elem_Literal e) h l -> reads (Elem_Literal e) h' l.
Proof.
  intros [A B]. unfold reads.
  destruct e as [|[p|]|[p|]|[s|]|[t|]| |[k|]|[c|]]; simpl; try (intros [= <-]; reflexivity);
    try discriminate.
  - unfold bind, loadMention, ret.
    destruct (mentionsAt h !! p) as [x|] eqn:Hx; [|discriminate].
    destruct (Forall2_lookup_l _ _ _ _ _ A Hx) as (x' & -> & (El & _)).
    rewrite El. intros [= <-]. reflexivity.
  - unfold Tag_Literal_at, bind, loadTag, ret.
    destruct (tagsAt h !! p) as [x|] eqn:Hx; [|discriminate].
    destruct (Forall2_lookup_l _ _ _ _ _ B Hx) as (x' & -> & (El & _)).
    rewrite El. intros [= <-]. reflexivity.
  - unfold Subject_Literal. destruct (Subject_tag s) as [p|]; [|intros [= <-]; reflexivity].
    unfold Tag_Literal_at, bind, loadTag, ret.
    destruct (tagsAt h !! p) as [x|] eqn:Hx; [|discriminate].
    destruct (Forall2_lookup_l _ _ _ _ _ B Hx) as (x' & -> & (El & _)).
    rewrite El. intros [= <-]. reflexivity.
Qed.

Lemma LiteralText_reads h t :
  Twt_ok h t ->
  exists lt, reads (Twt_LiteralText t) h lt
             /\ forM_ (msg t) (Elem_Format "L") h = (Ok tt, lt, h).
Proof.
  intros Hok. destruct (ok_literals h (msg t) Hok) as [ls Hls].
  exists (String.concat "" ls). split; [|apply writeLiterals_loop; exact Hls].
  unfold reads, Twt_LiteralText, collect.
  rewrite (literals_loop _ _ _ (ok_not_nil _ _ Hok) Hls). reflexivity.
Qed.

Lemma Twt_Hash_moves t t' h h' lt :
  hash t' = hash t -> Twt_Twter t' = Twt_Twter t -> dt t' = dt t ->
  reads (Twt_LiteralText t) h lt -> reads (Twt_LiteralText t') h' lt ->
  forall hs, reads (Twt_Hash t) h hs -> reads (Twt_Hash t') h' hs.
Proof.
  intros Hh Htw Hdt R R' hs. unfold reads, Twt_Hash, hash_payload, Twt_Created.
  rewrite Hh, Htw, Hdt.
  destruct (negb (String.eqb (hash t) "")); [unfold ret; intros [= <-]; reflexivity|].
  unfold bind. rewrite R, R'. unfold lastHash, panic, ret.
  destruct (_ <? _)%nat; [discriminate|]. intros [= <-]. reflexivity.
Qed.

(** X11: [ExpandLinks] changes no literal: on a Twt whose elements are
    non-nil and point to existing objects, [LiteralText()], [Literal()] and
    [Hash()] return after it what they returned before it, also for the Tags
    and Mentions whose target it has set. *)
Theorem X11_ExpandLinks_keeps_literal_and_hash opts lookup t h :
  Twt_ok h t ->
  exists lt,
    reads (Twt_LiteralText t) h lt
    /\ reads (Twt_LiteralText t) (Twt_ExpandLinks opts lookup t h).2 lt
    /\ reads (Twt_Literal t) h (DateTime_Literal (dt t) +:+ TAB +:+ lt +:+ NL)
    /\ reads (Twt_Literal t) (Twt_ExpandLinks opts lookup t h).2
         (DateTime_Literal (dt t) +:+ TAB +:+ lt +:+ NL)
    /\ forall hs, reads (Twt_Hash t) h hs ->
                  reads (Twt_Hash t) (Twt_ExpandLinks opts lookup t h).2 hs.
Proof.
  intros Hok. pose proof (expands_ExpandLinks opts lookup t h) as X.
  destruct (ok_literals h (msg t) Hok) as [ls Hls].
  assert (Hls' : Forall2 (fun e l => reads (Elem_Literal e)
                            (Twt_ExpandLinks opts lookup t h).2 l) (msg t) ls).
  { eapply Forall2_impl; [exact Hls|]. intros e l. apply expanded_Literal. exact X. }
  assert (R : forall h0, Forall2 (fun e l => reads (Elem_Literal e) h0 l) (msg t) ls ->
                         reads (Twt_LiteralText t) h0 (String.concat "" ls)).
  { intros h0 H0. unfold reads, Twt_LiteralText, collect.
    rewrite (literals_loop _ _ _ (ok_not_nil _ _ Hok) H0). reflexivity. }
  assert (RL : forall h0, reads (Twt_LiteralText t) h0 (String.concat "" ls) ->
                 reads (Twt_Literal t) h0
                   (DateTime_Literal (dt t) +:+ TAB +:+ String.concat "" ls +:+ NL)).
  { intros h0 H0. unfold reads, Twt_Literal, collect, bind, write. rewrite H0. reflexivity. }
  exists (String.concat "" ls).
  split; [apply R; exact Hls|]. split; [apply R; exact Hls'|].
  split; [apply RL, R; exact Hls|]. split; [apply RL, R; exact Hls'|].
  apply (Twt_Hash_moves t t h _ (String.concat "" ls)); try reflexivity.
  - apply R; exact Hls.
  - apply R; exact Hls'.
Qed.

End LextwtExpandLinks.

(** X11 at [demoTwt], with options and a lookup. *)
Lemma X11_witness :
  Twt_ok (L := demoLib) demoStore demoTwt
  /\ exists lt,
       reads (Twt_LiteralText (L := demoLib) demoTwt) demoStore lt
       /\ reads (Twt_LiteralText (L := demoLib) demoTwt)
            (Twt_ExpandLinks (L := demoLib) (Some demoOpts) (Some demoLookup) demoTwt demoStore).2
            lt.
Proof.
  split; [exact demoTwt_ok|].
  destruct (X11_ExpandLinks_keeps_literal_and_hash (L := demoLib)
              (Some demoOpts) (Some demoLookup) demoTwt demoStore demoTwt_ok)
    as (lt & R1 & R2 & _).
  exists lt. split; [exact R1|exact R2].
Defined.

(** ** Clone *)

Section LextwtCloneHash.
Context {L : GoLib}.

Lemma Twt_append_carried twt e :
  hash (Twt_append twt e) = hash twt
  /\ twter (Twt_append twt e) = twter twt
  /\ pos (Twt_append twt e) = pos twt.
Proof.
  unfold Twt_append.
  destruct e as [|[p|]|[p|]|[s|]|[t|]| |[l|]|[c|]]; repeat split; reflexivity.
Qed.

Lemma fold_append_carried elems twt :
  hash (fold_left Twt_append elems twt) = hash twt
  /\ twter (fold_left Twt_append elems twt) = twter twt
  /\ pos (fold_left Twt_append elems twt) = pos twt.
Proof.
  revert twt. induction elems as [|e elems IH]; intros twt; simpl; [repeat split|].
  destruct (IH (Twt_append twt e)) as (A & B & C).
  destruct (Twt_append_carried twt e) as (A' & B' & C').
  repeat split; congruence.
Qed.

Lemma views_back h h1 es' es :
  keeps (length (mentionsAt h)) (length (tagsAt h)) h h1 ->
  Forall (elem_ok h) es ->
  Forall2 (fun e' e => view h1 e' = view h1 e) es' es ->
  Forall2 (fun e' e => view h1 e' = view h e) es' es.
Proof.
  intros K Hok V. revert Hok.
  induction V as [|e' e es2 es3 Hv _ IH]; intros Hok; [constructor|].
  apply Forall_cons in Hok as [He Hes]. constructor; [|apply IH; exact Hes].
  rewrite Hv. apply (view_keeps _ _ _ _ e K). apply elem_ok_below. exact He.
Qed.

(** X12: the clone of a Twt whose elements are non-nil and point to existing
    objects has the author and the time stamp of the original and the same
    literal text, but neither its file position nor a hash it carries:
    [Hash()] of the clone is the hash computed from the text, whatever hash
    the original was given. *)
Theorem X12_Clone_forgets_the_carried_hash h t :
  Twt_ok h t ->
  exists c h1,
    Twt_CloneTwt t h = (Ok c, "", h1)
    /\ hash c = ""
    /\ Twt_FilePos c = 0%Z
    /\ Twt_Twter c = Twt_Twter t
    /\ dt c = dt t
    /\ Twt_ok h1 c
    /\ (exists lt, reads (Twt_LiteralText t) h lt /\ reads (Twt_LiteralText c) h1 lt)
    /\ (forall hs, reads (Twt_Hash (set_hash t "")) h hs -> reads (Twt_Hash c) h1 hs).
Proof.
  intros Hok.
  destruct (mapM_Clone_spec (msg t) h Hok) as (es' & h1 & E & K & Ok1 & _ & V).
  destruct (fold_append_carried es' (mkTwt (dt t) [] [] [] [] "" None (twter t) 0))
    as (Fh & Ft & Fp).
  assert (Hmsg : msg (NewTwt (twter t) (dt t) es') = es').
  { unfold NewTwt. rewrite fold_append_msg. simpl. apply (retained_all _ _ Ok1). }
  assert (Hdt : dt (NewTwt (twter t) (dt t) es') = dt t)
    by (unfold NewTwt; rewrite fold_append_dt; reflexivity).
  assert (Hok1 : Twt_ok h1 (NewTwt (twter t) (dt t) es'))
    by (unfold Twt_ok; rewrite Hmsg; exact Ok1).
  destruct (LiteralText_reads h t Hok) as (lt & R & W).
  destruct (LiteralText_reads h1 _ Hok1) as (lt1 & R1 & W1).
  assert (Elt : lt1 = lt).
  { pose proof (forM_Format_view "L" _ _ _ _ (views_back _ _ _ _ K Hok V)) as O.
    rewrite <- Hmsg in O. rewrite W, W1 in O. unfold outcome in O. simpl in O.
    congruence. }
  subst lt1.
  exists (NewTwt (twter t) (dt t) es'), h1.
  split; [unfold Twt_CloneTwt, bind, ret; rewrite E; reflexivity|].
  split; [exact Fh|]. split; [exact Fp|]. split; [exact Ft|]. split; [exact Hdt|].
  split; [exact Hok1|]. split; [exists lt; split; assumption|].
  apply (Twt_Hash_moves (set_hash t "") _ h h1 lt).
  - exact Fh.
  - exact Ft.
  - exact Hdt.
  - exact R.
  - exact R1.
Qed.

End LextwtCloneHash.

(** X12 at [demoTwt] carrying a hash. *)
Lemma X12_witness :
  Twt_ok (L := demoLib) demoStore (set_hash demoTwt "carried")
  /\ exists c h1,
       Twt_CloneTwt (L := demoLib) (set_hash demoTwt "carried") demoStore = (Ok c, "", h1)
       /\ hash c = "".
Proof.
  split; [exact demoTwt_ok|].
  destruct (X12_Clone_forgets_the_carried_hash (L := demoLib) demoStore
              (set_hash demoTwt "carried") demoTwt_ok)
    as (c & h1 & E & Hh & _).
  exists c, h1. split; [exact E|exact Hh].
Defined.

(** ** Splitting at a one-byte separator *)

Lemma prefix_nil (s : string) : String.prefix "" s = true.
Proof. destruct s; reflexivity. Qed.

Lemma prefix_char c x s :
  String.prefix (String c "") (String x s) = if Ascii.eqb c x then true else false.
Proof.
  simpl. destruct (ascii_dec c x) as [->|Hne].
  - rewrite Ascii.eqb_refl. apply prefix_nil.
  - apply Ascii.eqb_neq in Hne. rewrite Hne. reflexivity.
Qed.

Lemma index_char_cons c x s :
  index 0 (String c "") (String x s)
  = if Ascii.eqb c x then Some 0
    else match index 0 (String c "") s with Some n => Some (S n) | None => None end.
Proof.
  change (index 0 (String c "") (String x s))
    with (if String.prefix (String c "") (String x s) then Some 0
          else match index 0 (String c "") s with Some n => Some (S n) | None => None end).
  rewrite prefix_char. destruct (Ascii.eqb c x); reflexivity.
Qed.

Lemma Contains_cons c x s :
  Contains (String x s) (String c "") = Ascii.eqb c x || Contains s (String c "").
Proof.
  unfold Contains. rewrite index_char_cons.
  destruct (Ascii.eqb c x); [reflexivity|].
  destruct (index 0 (String c "") s); reflexivity.
Qed.

Lemma index_char_first c a rest :
  Contains a (String c "") = false ->
  index 0 (String c "") (a +:+ String c rest) = Some (String.length a).
Proof.
  induction a as [|x a IH]; intros H.
  - change ("" +:+ String c rest) with (String c rest).
    rewrite index_char_cons, Ascii.eqb_refl. reflexivity.
  - rewrite Contains_cons in H. apply orb_false_iff in H as [Hx Ha].
    rewrite sapp_cons, index_char_cons, Hx, (IH Ha). reflexivity.
Qed.

Lemma substring_app_l (a b : string) : substring 0 (String.length a) (a +:+ b) = a.
Proof.
  induction a as [|x a IH]; [destruct b; reflexivity|].
  rewrite sapp_cons. simpl. rewrite IH. reflexivity.
Qed.

Lemma substring_app_r (a b : string) :
  substring (String.length a) (String.length b) (a +:+ b) = b.
Proof.
  induction a as [|x a IH]; [apply substring_full|].
  rewrite sapp_cons. simpl. exact IH.
Qed.

(** The first cut of [SplitN] at a one-byte separator that the first piece
    does not hold. *)
Lemma splitn_loop_cut k c a rest :
  Contains a (String c "") = false ->
  splitn_loop (S k) (a +:+ String c rest) (String c "")
  = a :: splitn_loop k rest (String c "").
Proof.
  intros H. simpl splitn_loop. rewrite (index_char_first c a rest H).
  rewrite substring_app_l. f_equal. f_equal.
  change (String c rest) with (String c "" +:+ rest).
  rewrite <- sapp_assoc.
  assert (E : (String.length a + 1)%nat = String.length (a +:+ String c ""))
    by (rewrite length_sapp; reflexivity).
  rewrite E.
  replace (String.length ((a +:+ String c "") +:+ rest) - String.length (a +:+ String c ""))%nat
    with (String.length rest) by (rewrite (length_sapp (a +:+ String c "")); lia).
  apply substring_app_r.
Qed.

(** ** The binary codec, there and back *)

Lemma SplitN_record a b c d e :
  Contains a TAB = false -> Contains b TAB = false ->
  Contains c TAB = false -> Contains d TAB = false ->
  SplitN (a +:+ TAB +:+ b +:+ TAB +:+ c +:+ TAB +:+ d +:+ TAB +:+ e) TAB 5 = [a; b; c; d; e].
Proof.
  intros Ha Hb Hc Hd. unfold SplitN.
  change TAB with (String (ascii_of_nat 9) "") in *.
  change (String (ascii_of_nat 9) "" +:+ ?x) with (String (ascii_of_nat 9) x).
  rewrite (splitn_loop_cut _ _ a _ Ha).
  change (String (ascii_of_nat 9) "" +:+ ?x) with (String (ascii_of_nat 9) x).
  rewrite (splitn_loop_cut _ _ b _ Hb).
  change (String (ascii_of_nat 9) "" +:+ ?x) with (String (ascii_of_nat 9) x).
  rewrite (splitn_loop_cut _ _ c _ Hc).
  change (String (ascii_of_nat 9) "" +:+ ?x) with (String (ascii_of_nat 9) x).
  rewrite (splitn_loop_cut _ _ d _ Hd).
  reflexivity.
Qed.

Section LextwtGob.
Context {L : GoLib} {P : Parser}.

Lemma Twt_Hash_not_empty t h hs : reads (Twt_Hash t) h hs -> hs <> "".
Proof.
  unfold reads, Twt_Hash.
  destruct (String.eqb_spec (hash t) "") as [He|Hne]; simpl.
  - unfold bind. destruct (Twt_LiteralText t h) as [[[lt|] w] h1]; [|discriminate].
    rewrite (lastHash_52 _ _ (hash_text_length _)).
    intros [= <- _ _] Hs.
    pose proof (substring_length 45 7
                  (ToLower (base32_EncodeToString (blake2b_Sum256 (hash_payload t lt))))) as Hl.
    rewrite hash_text_length in Hl. specialize (Hl ltac:(lia)).
    rewrite Hs in Hl. discriminate Hl.
  - unfold ret. intros [= <-]. exact Hne.
Qed.

(** X13: when the author's nick, url and avatar and the hash of a Twt hold
    no tab, the record [GobEncode] builds splits back into exactly these four
    and the literal line, tabs inside the line included; and when the parser
    makes a Twt of that line, [GobDecode] of the record returns without error
    a Twt with the parsed time stamp, elements and author, whose [Hash()] is
    the hash that was encoded. *)
Theorem X13_GobEncode_then_GobDecode h t hs line :
  Contains (Nick (Twt_Twter t)) TAB = false ->
  Contains (URL (Twt_Twter t)) TAB = false ->
  Contains (Avatar (Twt_Twter t)) TAB = false ->
  Contains hs TAB = false ->
  reads (Twt_Hash t) h hs ->
  reads (Twt_Literal t) h line ->
  exists data,
    reads (Twt_GobEncode t) h data
    /\ SplitN data TAB 5
       = [Nick (Twt_Twter t); URL (Twt_Twter t); Avatar (Twt_Twter t); hs; line]
    /\ forall twt0 h0 t' w h1,
         ParseLine line
           (mkTwter (Nick (Twt_Twter t)) (URL (Twt_Twter t)) (Avatar (Twt_Twter t)) "") h0
         = (Ok (LexTwt t', None), w, h1) ->
         exists twt',
           Twt_GobDecode twt0 data h0 = (Ok (twt', None), w, h1)
           /\ dt twt' = dt t' /\ msg twt' = msg t' /\ Twt_Twter twt' = Twt_Twter t'
           /\ Twt_FilePos twt' = Twt_FilePos twt0
           /\ reads (Twt_Hash twt') h1 hs.
Proof.
  intros Hn Hu Ha Hh Rh Rl.
  pose proof (SplitN_record _ _ _ _ line Hn Hu Ha Hh) as Hs.
  eexists. split; [|split; [exact Hs|]].
  - unfold reads, Twt_GobEncode, bind, ret. rewrite Rh, Rl. reflexivity.
  - intros twt0 h0 t' w h1 Hp.
    unfold Twt_GobDecode. rewrite Hs. unfold bind, ret. rewrite Hp.
    eexists. split; [rewrite sapp_nil_r; reflexivity|].
    split; [reflexivity|]. split; [reflexivity|]. split; [reflexivity|].
    split; [reflexivity|].
    apply (Twt_Hash_carried (mkTwt (dt t') (msg t') (mentions t') (tags t') (links t') hs
                               (subject t') (twter t') (pos twt0)) h1).
    exact (Twt_Hash_not_empty _ _ _ Rh).
Qed.

End LextwtGob.

(** X13 at [plainTwt], whose hash is m4ysfxa. *)
Lemma X13_witness :
  Contains (Nick (Twt_Twter plainTwt)) TAB = false
  /\ Contains (URL (Twt_Twter plainTwt)) TAB = false
  /\ Contains (Avatar (Twt_Twter plainTwt)) TAB = false
  /\ Contains "m4ysfxa" TAB = false
  /\ reads (Twt_Hash (L := demoLib) plainTwt) emptyStore "m4ysfxa"
  /\ reads (Twt_Literal (L := demoLib) plainTwt) emptyStore
       ("2020-12-02T01:04:00Z" +:+ TAB +:+ "hello" +:+ NL)
  /\ exists data,
       reads (Twt_GobEncode (L := demoLib) plainTwt) emptyStore data
       /\ SplitN data TAB 5
          = ["alice"; "https://alice.example/twtxt.txt"; ""; "m4ysfxa";
             "2020-12-02T01:04:00Z" +:+ TAB +:+ "hello" +:+ NL].
Proof.
  split; [reflexivity|]. split; [reflexivity|]. split; [reflexivity|].
  split; [reflexivity|]. split; [vm_compute; reflexivity|]. split; [vm_compute; reflexivity|].
  destruct (X13_GobEncode_then_GobDecode (L := demoLib) (P := demoParser)
              emptyStore plainTwt "m4ysfxa"
              ("2020-12-02T01:04:00Z" +:+ TAB +:+ "hello" +:+ NL)
              eq_refl eq_refl eq_refl eq_refl)
    as (data & R & S & _).
  - vm_compute. reflexivity.
  - vm_compute. reflexivity.
  - exists data. split; [exact R|exact S].
Defined.

(** ** types.Twter *)

Lemma index_char_split c s m :
  index 0 (String c "") s = Some m ->
  s = substring 0 m s +:+ String c (substring (m + 1) (String.length s - (m + 1)) s)
  /\ Contains (substring 0 m s) (String c "") = false.
Proof.
  revert m. induction s as [|x s IH]; intros m H; [discriminate|].
  rewrite index_char_cons in H. destruct (Ascii.eqb c x) eqn:Hx.
  - injection H as <-. apply Ascii.eqb_eq in Hx. subst x. simpl.
    rewrite Nat.sub_0_r, substring_full. split; reflexivity.
  - destruct (index 0 (String c "") s) as [n|] eqn:Hn; [|discriminate].
    injection H as <-. destruct (IH n eq_refl) as [E C].
    simpl. rewrite sapp_cons. split; [f_equal; exact E|].
    rewrite Contains_cons, Hx, C. reflexivity.
Qed.

Lemma SplitN_two s c :
  SplitN s (String c "") 2
  = match index 0 (String c "") s with
    | Some m => [substring 0 m s; substring (m + 1) (String.length s - (m + 1)) s]
    | None => [s]
    end.
Proof. reflexivity. Qed.

Section TypesTwterProperties.
Context {L : GoLib}.

(** X14: [Domain()] and [DomainNick()] of a Twter agree. When the nick holds
    an @, [DomainNick()] is the nick and [Domain()] is what follows its first
    @; when it holds none and the URL parses, [Domain()] is the host of the
    URL and [DomainNick()] is the nick, an @ and that host; when the URL does
    not parse either, [DomainNick()] is the nick and [Domain()] is empty. *)
Theorem X14_Domain_and_DomainNick twter :
  (Contains (Nick twter) "@" = true ->
     Twter_DomainNick twter = Nick twter
     /\ exists a, Contains a "@" = false
                  /\ Nick twter = a +:+ "@" +:+ Twter_Domain twter)
  /\ (Contains (Nick twter) "@" = false ->
      match url_Parse (URL twter) with
      | inl u => Twter_Domain twter = url_Hostname u
                 /\ Twter_DomainNick twter = Nick twter +:+ "@" +:+ Twter_Domain twter
      | inr _ => Twter_Domain twter = "" /\ Twter_DomainNick twter = Nick twter
      end).
Proof.
  unfold Twter_DomainNick, Twter_Domain, ContainsRune, Contains.
  change "@" with (String "@"%char ""). rewrite SplitN_two.
  destruct (index 0 (String "@"%char "") (Nick twter)) as [m|] eqn:Hm; split;
    try discriminate.
  - intros _. split; [reflexivity|].
    destruct (index_char_split _ _ _ Hm) as [E C].
    exists (substring 0 m (Nick twter)). split; [exact C|exact E].
  - intros _. destruct (url_Parse (URL twter)); split; reflexivity.
Qed.

End TypesTwterProperties.

(** ** types.SplitTwts *)

Section TypesSplitTwtsProperties.
Context {T : Type}.
Variable old : T -> bool.
Variable sort_Sort : list T -> list T.

(** The loop stops one before the first old Twt, at [N], or at the end. *)
Lemma SplitTwts_loop_old rest pos N k x :
  rest !! k = Some x -> old x = true ->
  Forall (fun y => old y = false) (take k rest) ->
  (pos + Z.of_nat k < N)%Z ->
  SplitTwts_loop old rest pos N = (pos + Z.of_nat k - 1)%Z.
Proof.
  revert pos k. induction rest as [|y rest IH]; intros pos k Hk Hx Hf HN; [discriminate|].
  simpl. destruct (Z.ltb_spec pos N); [|lia].
  destruct k as [|k]; simpl in *.
  - injection Hk as ->. rewrite Hx. lia.
  - apply Forall_cons in Hf as [Hy Hf]. rewrite Hy.
    rewrite (IH (pos + 1)%Z k Hk Hx Hf) by lia. lia.
Qed.

Lemma SplitTwts_loop_fresh rest pos N :
  Forall (fun y => old y = false) (take (Z.to_nat (N - pos)) rest) ->
  SplitTwts_loop old rest pos N
  = (pos + Z.of_nat (Nat.min (Z.to_nat (N - pos)) (length rest)))%Z.
Proof.
  revert pos. induction rest as [|y rest IH]; intros pos Hf; simpl.
  - rewrite Nat.min_0_r. lia.
  - destruct (Z.ltb_spec pos N) as [Hlt|Hge].
    + replace (Z.to_nat (N - pos)) with (S (Z.to_nat (N - (pos + 1)))) in * by lia.
      simpl in Hf. apply Forall_cons in Hf as [Hy Hf]. rewrite Hy.
      rewrite (IH _ Hf). simpl. lia.
    + replace (Z.to_nat (N - pos)) with 0%nat by lia. simpl. lia.
Qed.

Lemma SplitTwts_loop_bounds rest pos N :
  (pos - 1 <= SplitTwts_loop old rest pos N <= pos + Z.of_nat (length rest))%Z
  /\ (SplitTwts_loop old rest pos N <= Z.max pos N)%Z
  /\ Forall (fun y => old y = false)
       (take (Z.to_nat (SplitTwts_loop old rest pos N - pos)) rest).
Proof.
  revert pos. induction rest as [|y rest IH]; intros pos; simpl.
  - split; [lia|]. split; [lia|]. rewrite take_nil. constructor.
  - destruct (Z.ltb_spec pos N) as [Hlt|Hge].
    + destruct (old y) eqn:Hy.
      * split; [lia|]. split; [lia|].
        replace (Z.to_nat (pos - 1 - pos)) with 0%nat by lia. constructor.
      * destruct (IH (pos + 1)%Z) as (B & M & F).
        split; [lia|]. split; [lia|].
        destruct (Z.eq_dec (SplitTwts_loop old rest (pos + 1) N) pos) as [->|Hne].
        { rewrite Z.sub_diag. constructor. }
        replace (Z.to_nat (SplitTwts_loop old rest (pos + 1) N - pos))
          with (S (Z.to_nat (SplitTwts_loop old rest (pos + 1) N - (pos + 1)))) by lia.
        simpl. constructor; assumption.
    + split; [lia|]. split; [lia|].
      replace (Z.to_nat (pos - pos)) with 0%nat by lia. constructor.
Qed.

(** X15: the two groups [SplitTwts] returns are, one after the other, the
    sorted slice; the first group holds at most [N] Twts and none that was
    created before the old time. *)
Theorem X15_SplitTwts_splits_the_sorted_slice twts N :
  (SplitTwts old sort_Sort twts N).1 ++ (SplitTwts old sort_Sort twts N).2 = sort_Sort twts
  /\ (Z.of_nat (length (SplitTwts old sort_Sort twts N).1) <= Z.max 0 N)%Z
  /\ Forall (fun twt => old twt = false) (SplitTwts old sort_Sort twts N).1.
Proof.
  unfold SplitTwts.
  destruct (SplitTwts_loop_bounds (sort_Sort twts) 0 N) as (B & M & F).
  destruct (Z.ltb_spec (SplitTwts_loop old (sort_Sort twts) 0 N) 1); simpl.
  - split; [reflexivity|]. split; [lia|constructor].
  - split; [apply take_drop|]. split.
    + rewrite length_take. lia.
    + rewrite Z.sub_0_r in F. exact F.
Qed.

(** X16: when the [k]-th Twt of the sorted slice (from 0, with [k < N]) is
    the first one created before the old time, the first group is the first
    [k - 1] Twts, not the first [k]: the last Twt that is not old goes to
    the second group, and the first group is empty when [k] is 0 or 1. When
    none of the first [N] Twts is old, the first group is the first [N]. *)
Theorem X16_SplitTwts_steps_back_one twts N :
  (forall k x,
     sort_Sort twts !! k = Some x -> old x = true ->
     Forall (fun y => old y = false) (take k (sort_Sort twts)) ->
     (Z.of_nat k < N)%Z ->
     SplitTwts old sort_Sort twts N
     = (take (k - 1) (sort_Sort twts), drop (k - 1) (sort_Sort twts)))
  /\ (Forall (fun y => old y = false) (take (Z.to_nat N) (sort_Sort twts)) ->
      SplitTwts old sort_Sort twts N
      = (take (Z.to_nat N) (sort_Sort twts), drop (Z.to_nat N) (sort_Sort twts))).
Proof.
  unfold SplitTwts. split.
  - intros k x Hk Hx Hf HN.
    rewrite (SplitTwts_loop_old _ 0 N k x Hk Hx Hf) by lia.
    destruct (Z.ltb_spec (0 + Z.of_nat k - 1) 1).
    + replace (k - 1)%nat with 0%nat by lia. rewrite take_0, drop_0. reflexivity.
    + replace (Z.to_nat (0 + Z.of_nat k - 1)) with (k - 1)%nat by lia. reflexivity.
  - intros Hf. rewrite SplitTwts_loop_fresh by (rewrite Z.sub_0_r; exact Hf).
    rewrite Z.sub_0_r, Z.add_0_l.
    destruct (Z.ltb_spec (Z.of_nat (Nat.min (Z.to_nat N) (length (sort_Sort twts)))) 1).
    + assert (E : take (Z.to_nat N) (sort_Sort twts) = []).
      { destruct (sort_Sort twts) as [|y l]; [apply take_nil|].
        simpl in *. replace (Z.to_nat N) with 0%nat by lia. reflexivity. }
      rewrite <- (take_drop (Z.to_nat N) (sort_Sort twts)) at 1. rewrite E. reflexivity.
    + rewrite Nat2Z.id.
      destruct (Nat.min_spec (Z.to_nat N) (length (sort_Sort twts))) as [[_ ->]|[Hle ->]];
        [reflexivity|].
      rewrite !take_ge, !drop_ge by lia. reflexivity.
Qed.

End TypesSplitTwtsProperties.

(** X16 on four Twts created at 100, 300, 200 and 50 with the old time 150:
    the Twt created at 200 is not old and yet in the second group. *)
Lemma X16_witness :
  demo_sort [100; 300; 200; 50]%Z !! 2%nat = Some 100%Z
  /\ SplitTwts (fun t => (t <? 150)%Z) demo_sort [100; 300; 200; 50]%Z 10
     = ([300%Z], [200; 100; 50]%Z).
Proof.
  split; [reflexivity|].
  apply (proj1 (X16_SplitTwts_steps_back_one (fun t => (t <? 150)%Z) demo_sort
                  [100; 300; 200; 50]%Z 10) 2%nat 100%Z).
  - reflexivity.
  - reflexivity.
  - repeat constructor.
  - lia.
Defined.

(** ** types.Twts: the counts *)

Lemma occurrences_cons k x keys :
  occurrences k (x :: keys)
  = ((if decide (x = k) then 1 else 0) + occurrences k keys)%Z.
Proof.
  unfold occurrences, len. rewrite filter_cons.
  destruct (decide (x = k)); simpl length; lia.
Qed.

Lemma occurrences_nonneg k keys : (0 <= occurrences k keys)%Z.
Proof. unfold occurrences, len. lia. Qed.

Lemma occurrences_le k keys : (occurrences k keys <= len keys)%Z.
Proof.
  unfold occurrences, len. pose proof (length_filter (fun x => x = k) keys). lia.
Qed.

Lemma incr_lookup m x k :
  incr m x !! k
  = if decide (x = k) then Some (int_add (default 0%Z (m !! k)) 1) else m !! k.
Proof.
  unfold incr. destruct (decide (x = k)) as [->|Hne].
  - apply lookup_insert_eq.
  - apply lookup_insert_ne. exact Hne.
Qed.

Lemma fold_incr keys m k :
  (0 <= default 0 (m !! k))%Z ->
  (default 0 (m !! k) + occurrences k keys <= int_max)%Z ->
  fold_left incr keys m !! k
  = if (occurrences k keys =? 0)%Z then m !! k
    else Some (default 0 (m !! k) + occurrences k keys)%Z.
Proof.
  revert m. induction keys as [|x keys IH]; intros m H0 Hmax; [reflexivity|].
  simpl fold_left. rewrite occurrences_cons in *.
  pose proof (occurrences_nonneg k keys) as Hn.
  pose proof (incr_lookup m x k) as Hx.
  destruct (decide (x = k)) as [->|Hne].
  - assert (Hd : default 0%Z (incr m k !! k) = (default 0 (m !! k) + 1)%Z).
    { rewrite Hx. simpl. unfold int_add. apply wrap_int_id.
      unfold is_int, int_min, int_max in *. lia. }
    rewrite IH; rewrite Hd; try lia.
    destruct (Z.eqb_spec (1 + occurrences k keys) 0); [lia|].
    destruct (Z.eqb_spec (occurrences k keys) 0) as [E|E].
    + rewrite Hx, E. simpl. unfold int_add. rewrite wrap_int_id; [f_equal; lia|].
      unfold is_int, int_min, int_max in *. lia.
    + f_equal. lia.
  - rewrite IH.
    + rewrite Hx, Z.add_0_l. reflexivity.
    + rewrite Hx. exact H0.
    + rewrite Hx. lia.
Qed.

Lemma fold_left_flat {A B C} (g : C -> B -> C) (F : A -> list B) (l : list A) (c : C) :
  fold_left (fun c a => fold_left g (F a) c) l c = fold_left g (flat_map F l) c.
Proof.
  revert c. induction l as [|a l IH]; intros c; simpl; [reflexivity|].
  rewrite fold_left_app. apply IH.
Qed.

Lemma fold_left_keys {B C} (g : C -> B -> C) (h : C -> string -> C) (f : B -> string)
    (l : list B) (c : C) :
  (forall c b, g c b = h c (f b)) -> fold_left g l c = fold_left h (map f l) c.
Proof.
  intros E. revert c. induction l as [|b l IH]; intros c; simpl; [reflexivity|].
  rewrite E. apply IH.
Qed.

Lemma fold_left_gather {A B} (F : A -> list B) (l : list A) (acc : list B) :
  fold_left (fun acc a => acc ++ F a) l acc = acc ++ flat_map F l.
Proof.
  revert acc. induction l as [|a l IH]; intros acc; simpl.
  - rewrite app_nil_r. reflexivity.
  - rewrite IH, <- app_assoc. reflexivity.
Qed.

Lemma count_of_keys keys k :
  (len keys <= int_max)%Z ->
  fold_left incr keys ∅ !! k = counted (occurrences k keys).
Proof.
  intros H. pose proof (occurrences_le k keys).
  rewrite fold_incr; rewrite lookup_empty; simpl; try lia.
  unfold counted. destruct (occurrences k keys =? 0)%Z; reflexivity.
Qed.

Section TypesCountsProperties.
Context {T TG MN LK : Type}.
Variable types_Twt_Tags : T -> list TG.
Variable TwtTag_Text : TG -> string.
Variable TwtTag_Target : TG -> string.
Variable types_Twt_Mentions : T -> list MN.
Variable TwtMention_Twter : MN -> Twter.
Variable types_Twt_Links : T -> list LK.
Variable TwtLink_String : LK -> string.

(** X17: [TagCount] holds for a key the number of Tags of all the Twts whose
    text is that key, or whose target is when their text is empty, and holds
    no entry for a key that none has; [MentionCount] counts the Mentions by
    the nick of their Twter and [LinkCount] the Links by their string in the
    same way. The lists counted are those [Tags()], [Mentions()] and
    [Links()] of the Twts return. *)
Theorem X17_counts_count twts k :
  ((len (Twts_Tags types_Twt_Tags twts) <= int_max)%Z ->
     Twts_TagCount types_Twt_Tags TwtTag_Text TwtTag_Target twts !! k
     = counted (occurrences k (map (tag_key TwtTag_Text TwtTag_Target)
                                   (Twts_Tags types_Twt_Tags twts))))
  /\ ((len (Twts_Mentions types_Twt_Mentions twts) <= int_max)%Z ->
      Twts_MentionCount types_Twt_Mentions TwtMention_Twter twts !! k
      = counted (occurrences k (map (fun m => Nick (TwtMention_Twter m))
                                    (Twts_Mentions types_Twt_Mentions twts))))
  /\ ((len (Twts_Links types_Twt_Links twts) <= int_max)%Z ->
      Twts_LinkCount types_Twt_Links TwtLink_String twts !! k
      = counted (occurrences k (map TwtLink_String (Twts_Links types_Twt_Links twts)))).
Proof.
  unfold Twts_Tags, Twts_Mentions, Twts_Links. rewrite !fold_left_gather. simpl.
  split; [|split]; intros H.
  - unfold Twts_TagCount. rewrite fold_left_flat.
    rewrite (fold_left_keys _ incr (tag_key TwtTag_Text TwtTag_Target)).
    + apply count_of_keys. unfold len in *. rewrite length_map. exact H.
    + intros c b. unfold tag_key. destruct (String.eqb (TwtTag_Text b) ""); reflexivity.
  - unfold Twts_MentionCount. rewrite fold_left_flat.
    rewrite (fold_left_keys _ incr (fun m => Nick (TwtMention_Twter m)));
      [|reflexivity].
    apply count_of_keys. unfold len in *. rewrite length_map. exact H.
  - unfold Twts_LinkCount. rewrite fold_left_flat.
    rewrite (fold_left_keys _ incr TwtLink_String); [|reflexivity].
    apply count_of_keys. unfold len in *. rewrite length_map. exact H.
Qed.

End TypesCountsProperties.

(** X17 on two Twts given by their Tags, each a text and a target. *)
Lemma X17_witness :
  Twts_TagCount (fun twt : list (string * string) => twt) fst snd
    [[("rocq", ""); ("", "https://example.com/x")]; [("rocq", "https://example.com/r")]]
    !! "rocq"
  = Some 2%Z.
Proof.
  apply (proj1 (X17_counts_count (T := list (string * string)) (MN := unit) (LK := unit)
                  (fun twt => twt) fst snd (fun _ => []) (fun _ => Twter_zero)
                  (fun _ => []) (fun _ => "")
                  [[("rocq", ""); ("", "https://example.com/x")];
                   [("rocq", "https://example.com/r")]] "rocq")).
  vm_compute. discriminate.
Defined.

(** ** IsZero and String *)

Lemma prefix_cons a s1 b s2 :
  String.prefix (String a s1) (String b s2)
  = if ascii_dec a b then String.prefix s1 s2 else false.
Proof. reflexivity. Qed.

Lemma prefix_LS_cons c s :
  String.prefix LS (String c s) = true ->
  c = ascii_of_nat 226 /\ exists s', s = String (ascii_of_nat 128) (String (ascii_of_nat 168) s').
Proof.
  change LS with (String (ascii_of_nat 226) (String (ascii_of_nat 128)
                    (String (ascii_of_nat 168) ""))).
  rewrite prefix_cons. destruct (ascii_dec (ascii_of_nat 226) c) as [E|E]; [|discriminate].
  destruct s as [|c1 s]; [discriminate|].
  rewrite prefix_cons. destruct (ascii_dec (ascii_of_nat 128) c1) as [E1|E1]; [|discriminate].
  destruct s as [|c2 s]; [discriminate|].
  rewrite prefix_cons. destruct (ascii_dec (ascii_of_nat 168) c2) as [E2|E2]; [|discriminate].
  intros _. subst. split; [reflexivity|]. exists s. reflexivity.
Qed.

Lemma prefix_LS_intro s' :
  String.prefix LS (String (ascii_of_nat 226) (String (ascii_of_nat 128)
                      (String (ascii_of_nat 168) s'))) = true.
Proof.
  change LS with (String (ascii_of_nat 226) (String (ascii_of_nat 128)
                    (String (ascii_of_nat 168) ""))).
  rewrite !prefix_cons.
  destruct (ascii_dec (ascii_of_nat 226) (ascii_of_nat 226)); [|congruence].
  destruct (ascii_dec (ascii_of_nat 128) (ascii_of_nat 128)); [|congruence].
  destruct (ascii_dec (ascii_of_nat 168) (ascii_of_nat 168)); [|congruence].
  apply prefix_nil.
Qed.

Lemma index0_cons s1 b s2 :
  index 0 s1 (String b s2)
  = if String.prefix s1 (String b s2) then Some 0
    else match index 0 s1 s2 with Some n => Some (S n) | None => None end.
Proof. reflexivity. Qed.

Lemma Contains_step sub b s :
  Contains (String b s) sub = String.prefix sub (String b s) || Contains s sub.
Proof.
  unfold Contains. rewrite index0_cons.
  destruct (String.prefix sub (String b s)); [reflexivity|].
  destruct (index 0 sub s); reflexivity.
Qed.

Lemma replace_LS_cons c s :
  replace_from LS NL (String c s) 0
  = if String.prefix LS (String c s)
    then String (ascii_of_nat 10) (replace_from LS NL s 2)
    else String c (replace_from LS NL s 0).
Proof. reflexivity. Qed.

(** What the replacement of the line separators starts with. *)
Lemma replace_LS_head s x r :
  replace_from LS NL s 0 = String x r ->
  x = ascii_of_nat 10
  \/ exists s2, s = String x s2 /\ r = replace_from LS NL s2 0.
Proof.
  destruct s as [|c s]; [discriminate|]. rewrite replace_LS_cons.
  destruct (String.prefix LS (String c s)); intros [= <- <-].
  - left. reflexivity.
  - right. exists s. split; reflexivity.
Qed.

Lemma replace_LS_no_prefix c s :
  String.prefix LS (String c s) = false ->
  String.prefix LS (String c (replace_from LS NL s 0)) = false.
Proof.
  intros H. destruct (String.prefix LS (String c (replace_from LS NL s 0))) eqn:E;
    [|reflexivity].
  apply prefix_LS_cons in E as (-> & r & E).
  apply replace_LS_head in E as [E|(s2 & -> & E)]; [discriminate E|].
  symmetry in E. apply replace_LS_head in E as [E|(s3 & -> & _)]; [discriminate E|].
  rewrite prefix_LS_intro in H. discriminate H.
Qed.

Lemma replace_LS_clean_upto n s :
  String.length s <= n -> Contains (replace_from LS NL s 0) LS = false.
Proof.
  revert s. induction n as [|n IH]; intros s Hn.
  - destruct s; [reflexivity|simpl in Hn; lia].
  - destruct s as [|c s]; [reflexivity|]. simpl in Hn.
    rewrite replace_LS_cons.
    destruct (String.prefix LS (String c s)) eqn:Hp.
    + apply prefix_LS_cons in Hp as (-> & s' & ->).
      change (replace_from LS NL (String (ascii_of_nat 128) (String (ascii_of_nat 168) s')) 2)
        with (replace_from LS NL s' 0).
      rewrite Contains_step, IH by (simpl in Hn; lia).
      destruct (String.prefix LS (String (ascii_of_nat 10) (replace_from LS NL s' 0))) eqn:E;
        [|reflexivity].
      apply prefix_LS_cons in E as [E _]. discriminate E.
    + rewrite Contains_step, (replace_LS_no_prefix _ _ Hp), IH by lia. reflexivity.
Qed.

Lemma ReplaceAll_LS_clean s : Contains (ReplaceAll s LS NL) LS = false.
Proof. apply (replace_LS_clean_upto (String.length s)). reflexivity. Qed.

Lemma ReplaceAll_LS_id s : Contains s LS = false -> ReplaceAll s LS NL = s.
Proof.
  unfold ReplaceAll. induction s as [|c s IH]; intros H; [reflexivity|].
  rewrite Contains_step in H. apply orb_false_iff in H as [Hp Hs].
  rewrite replace_LS_cons, Hp, (IH Hs). reflexivity.
Qed.

Section LextwtIsZeroString.
Context {L : GoLib}.
Variable time_IsZero : time_Time -> bool.

(** X18: [String()] of a Twt whose elements are non-nil and point to
    existing objects is its literal line with every line separator U+2028
    replaced by a newline: the result holds no line separator, and it is the
    literal line itself when that holds none. [Code.String()] holds no line
    separator either. *)
Theorem X18_String_has_no_line_separator h t :
  Twt_ok h t ->
  (exists line s,
     reads (Twt_Literal t) h line
     /\ reads (Twt_String t) h s
     /\ s = ReplaceAll line LS NL
     /\ Contains s LS = false
     /\ (Contains line LS = false -> s = line))
  /\ (forall c, Contains (Code_String c) LS = false).
Proof.
  intros Hok. split; [|intros c; apply ReplaceAll_LS_clean].
  destruct (LiteralText_reads h t Hok) as (lt & R & _).
  exists (DateTime_Literal (dt t) +:+ TAB +:+ lt +:+ NL). eexists.
  assert (RL : reads (Twt_Literal t) h (DateTime_Literal (dt t) +:+ TAB +:+ lt +:+ NL)).
  { unfold reads, Twt_Literal, collect, bind, write. rewrite R. reflexivity. }
  split; [exact RL|]. split.
  - unfold reads, Twt_String, bind, ret. rewrite RL. reflexivity.
  - split; [reflexivity|]. split; [apply ReplaceAll_LS_clean|apply ReplaceAll_LS_id].
Qed.

(** X19: [IsZero()] of a non-nil Twt whose elements are non-nil and point to
    existing objects is [Created().IsZero()]: its literal line ends in a
    newline and is never empty, so a Twt with no text is not zero for that.
    On a nil Twt it is true. *)
Theorem X19_IsZero_is_the_zero_time h t :
  Twt_ok h t ->
  reads (Twt_IsZero time_IsZero (Some t)) h (time_IsZero (Twt_Created t))
  /\ reads (Twt_IsZero time_IsZero None) h true.
Proof.
  intros Hok. split; [|reflexivity].
  destruct (LiteralText_reads h t Hok) as (lt & R & _).
  assert (RL : reads (Twt_Literal t) h (DateTime_Literal (dt t) +:+ TAB +:+ lt +:+ NL)).
  { unfold reads, Twt_Literal, collect, bind, write. rewrite R. reflexivity. }
  unfold reads, Twt_IsZero, bind, ret. rewrite RL.
  destruct (String.eqb_spec (DateTime_Literal (dt t) +:+ TAB +:+ lt +:+ NL) "") as [E|_];
    [|reflexivity].
  exfalso. revert E. apply sapp_not_empty, sapp_not_empty, sapp_not_empty. discriminate.
Qed.

End LextwtIsZeroString.

(** X18 at [demoTwt], which holds a line separator and a code block with
    one. *)
Lemma X18_witness :
  Twt_ok (L := demoLib) demoStore demoTwt
  /\ exists line s,
       reads (Twt_Literal (L := demoLib) demoTwt) demoStore line
       /\ reads (Twt_String (L := demoLib) demoTwt) demoStore s
       /\ Contains line LS = true
       /\ Contains s LS = false.
Proof.
  split; [exact demoTwt_ok|].
  destruct (X18_String_has_no_line_separator (L := demoLib) demoStore demoTwt demoTwt_ok)
    as [(line & s & R1 & R2 & _ & C & _) _].
  exists line, s. split; [exact R1|]. split; [exact R2|]. split; [|exact C].
  assert (E : Twt_Literal (L := demoLib) demoTwt demoStore
              = (Ok (DateTime_Literal (dt demoTwt) +:+ TAB
                     +:+ String.concat "" demoLiterals +:+ NL), "", demoStore))
    by (vm_compute; reflexivity).
  unfold reads in R1. rewrite E in R1. injection R1 as <-. vm_compute. reflexivity.
Defined.

(** X19 at [demoTwt], which was created in 2020. *)
Lemma X19_witness :
  Twt_ok (L := demoLib) demoStore demoTwt
  /\ reads (Twt_IsZero (L := demoLib) civil_IsZero (Some demoTwt)) demoStore false.
Proof.
  split; [exact demoTwt_ok|].
  exact (proj1 (X19_IsZero_is_the_zero_time (L := demoLib) civil_IsZero
                  demoStore demoTwt demoTwt_ok)).
Defined.

(** ** NewMention and the indices of NewTwt *)

Section LextwtConstructors.
Context {L : GoLib}.

Lemma Mention_FormatText_fields n n' :
  Mention_name n' = Mention_name n -> Mention_target n' = Mention_target n ->
  Mention_FormatText n' = Mention_FormatText n.
Proof. unfold Mention_FormatText. intros -> ->. reflexivity. Qed.

(** X20: [NewMention(name, target)] adds one Mention and changes no other
    object. Its literal is the text format of the name and the target as
    given, and its target is the target. When the name holds no @, the name
    is kept and [FormatText] of the new Mention writes its literal, and its
    [Twter()] has the name as nick; when the name is [a@b] with no @ in [a],
    the Mention is named [a], and its domain is [b] unless [b] is empty. *)
Theorem X20_NewMention_splits_the_name name target h :
  exists m,
    NewMention name target h
    = (Ok (length (mentionsAt h)), "", mkStore (mentionsAt h ++ [m]) (tagsAt h))
    /\ Mention_lit m = Mention_FormatText (mkMention "" name "" target None None)
    /\ Mention_target m = target
    /\ (Contains name "@" = false ->
        Mention_name m = name
        /\ Mention_FormatText m = Mention_lit m
        /\ Mention_Twter m = mkTwter name target "" "")
    /\ (forall a b, Contains a "@" = false -> name = a +:+ "@" +:+ b ->
        Mention_name m = a /\ (b <> "" -> Mention_domain m = b)).
Proof.
  unfold NewMention, newMention. eexists. split; [reflexivity|].
  set (m0 := mkMention "" name "" target None None).
  set (m1 := set_Mention_lit m0 (Mention_FormatText m0)).
  set (m2 := match SplitN name "@" 2 with
             | [a; b] => set_Mention_domain (set_Mention_name m1 a) b
             | _ => m1
             end).
  assert (F : forall x : Mention,
            Mention_lit x = Mention_FormatText m0 /\ Mention_target x = target ->
            forall N D, Mention_name x = N -> (D <> "" -> Mention_domain x = D) ->
            let m3 := if String.eqb (Mention_domain x) ""
                         && negb (String.eqb (Mention_target x) "")
                      then match Mention_URL x with
                           | (x', Some u) => set_Mention_domain x' (url_Hostname u)
                           | (x', None) => x'
                           end
                      else x in
            Mention_lit m3 = Mention_FormatText m0 /\ Mention_target m3 = target
            /\ Mention_name m3 = N /\ (D <> "" -> Mention_domain m3 = D)).
  { intros x [Hl Ht] N D HN HD m3. subst m3.
    destruct (String.eqb_spec (Mention_domain x) "") as [Hd|Hd]; simpl;
      [|repeat split; assumption].
    destruct (negb (String.eqb (Mention_target x) "")); [|repeat split; assumption].
    unfold Mention_URL.
    destruct (Mention_url x) as [u|], (Mention_err x) as [e|];
      try destruct (url_Parse (Mention_target x)); simpl;
      repeat split; try assumption; intros HD'; specialize (HD HD'); congruence. }
  assert (S1 : Contains name "@" = false -> m2 = m1).
  { intros C. subst m2. change "@" with (String "@"%char "") in *.
    rewrite SplitN_two. unfold Contains in C.
    destruct (index 0 (String "@"%char "") name); [discriminate|reflexivity]. }
  assert (S2 : forall a b, Contains a "@" = false -> name = a +:+ "@" +:+ b ->
                 m2 = set_Mention_domain (set_Mention_name m1 a) b).
  { intros a b C ->. subst m2. change "@" with (String "@"%char "") in *.
    unfold SplitN. change (String "@"%char "" +:+ b) with (String "@"%char b).
    rewrite (splitn_loop_cut 0 _ a b C). reflexivity. }
  assert (G : Mention_lit m2 = Mention_FormatText m0 /\ Mention_target m2 = target).
  { subst m2. destruct (SplitN name "@" 2) as [|a [|b [|x l]]]; split; reflexivity. }
  destruct (F m2 G (Mention_name m2) "" eq_refl ltac:(congruence)) as (A1 & A2 & _).
  split; [exact A1|]. split; [exact A2|]. split.
  - intros C. rewrite (S1 C) in *.
    destruct (F m1 G name "" eq_refl ltac:(congruence)) as (_ & _ & A3 & _).
    split; [exact A3|]. split.
    + rewrite A1. apply Mention_FormatText_fields; [exact A3|exact A2].
    + unfold Mention_Twter. rewrite A3, A2. reflexivity.
  - intros a b C E. rewrite (S2 a b C E) in *.
    destruct (F _ G a b eq_refl ltac:(reflexivity)) as (_ & _ & A3 & A4).
    split; [exact A3|exact A4].
Qed.

Lemma Twt_append_links twt e : links (Twt_append twt e) = links twt ++ elem_links e.
Proof.
  unfold Twt_append, elem_links.
  destruct e as [|[p|]|[p|]|[s|]|[t|]| |[l|]|[c|]]; simpl;
    rewrite ?app_nil_r; reflexivity.
Qed.

Lemma fold_append_links elems twt :
  links (fold_left Twt_append elems twt) = links twt ++ flat_map elem_links elems.
Proof.
  revert twt. induction elems as [|e elems IH]; intros twt; simpl.
  - rewrite app_nil_r. reflexivity.
  - rewrite IH, Twt_append_links, <- app_assoc. reflexivity.
Qed.

Lemma elem_of_flat_map_single {A} (f : Elem -> list A) (g : A -> Elem) (l : list Elem) x :
  (forall e y, y ∈ f e <-> e = g y) ->
  x ∈ flat_map f l <-> g x ∈ l.
Proof.
  intros H. induction l as [|e l IH]; simpl.
  - split; intros E; inversion E.
  - rewrite elem_of_app, IH, elem_of_cons, H. split; intros [E|E]; auto.
Qed.

(** X21: the indices of a Twt made by [NewTwt] follow its elements: the
    Mentions index holds the Mentions among the elements given and the Links
    index the Links, in their order, and a Mention or Link is in the index
    exactly when it is among the elements kept; the Twt has the author and
    the time stamp given, no hash and the file position 0. *)
Theorem X21_NewTwt_indices tw d elems :
  Twt_Mentions (NewTwt tw d elems) = flat_map elem_mentions elems
  /\ Twt_Links (NewTwt tw d elems) = flat_map elem_links elems
  /\ (forall p, p ∈ Twt_Mentions (NewTwt tw d elems)
                <-> EMention (Some p) ∈ Twt_Elems (NewTwt tw d elems))
  /\ (forall l, l ∈ Twt_Links (NewTwt tw d elems)
                <-> ELink (Some l) ∈ Twt_Elems (NewTwt tw d elems))
  /\ Twt_Twter (NewTwt tw d elems) = tw
  /\ dt (NewTwt tw d elems) = d
  /\ hash (NewTwt tw d elems) = ""
  /\ Twt_FilePos (NewTwt tw d elems) = 0%Z.
Proof.
  assert (Hm : Twt_Mentions (NewTwt tw d elems) = flat_map elem_mentions elems)
    by (unfold Twt_Mentions, NewTwt; rewrite fold_append_mentions; reflexivity).
  assert (Hl : Twt_Links (NewTwt tw d elems) = flat_map elem_links elems)
    by (unfold Twt_Links, NewTwt; rewrite fold_append_links; reflexivity).
  assert (Hr : forall e, Elem_IsNil e = false -> e ∈ retained elems <-> e ∈ elems).
  { intros e He. unfold retained. rewrite list_elem_of_filter. tauto. }
  split; [exact Hm|]. split; [exact Hl|]. split; [|split].
  - intros p. rewrite Hm. unfold Twt_Elems. rewrite NewTwt_msg, Hr by reflexivity.
    apply (elem_of_flat_map_single elem_mentions (fun p => EMention (Some p))).
    intros e y. destruct e as [|[q|]|[q|]|[s|]|[t|]| |[l|]|[c|]]; simpl;
      rewrite ?list_elem_of_singleton; split; intros E;
      try (inversion E; fail); try congruence.
  - intros l. rewrite Hl. unfold Twt_Elems. rewrite NewTwt_msg, Hr by reflexivity.
    apply (elem_of_flat_map_single elem_links (fun l => ELink (Some l))).
    intros e y. destruct e as [|[q|]|[q|]|[s|]|[t|]| |[k|]|[c|]]; simpl;
      rewrite ?list_elem_of_singleton; split; intros E;
      try (inversion E; fail); try congruence.
  - unfold NewTwt, Twt_Twter, Twt_FilePos.
    destruct (fold_append_carried elems (mkTwt d [] [] [] [] "" None tw 0)) as (A & B & C).
    rewrite fold_append_dt. repeat split; assumption.
Qed.

End LextwtConstructors.

(** ** FormatText in the text mode *)

Lemma redacted_refl h : redacted h h.
Proof. split; apply Forall2_diag; intros a; split; auto. Qed.

Lemma redacted_trans a b c : redacted a b -> redacted b c -> redacted a c.
Proof.
  intros [A1 A2] [B1 B2]. split.
  - eapply Forall2_chain; [|exact A1|exact B1].
    intros x y z [X1 X2] [Y1 Y2]. split; [congruence|auto].
  - eapply Forall2_chain; [|exact A2|exact B2].
    intros x y z [X1 X2] [Y1 Y2]. split; [congruence|auto].
Qed.

Lemma Forall_flat_map_inv {A B} (Q : B -> Prop) (f : A -> list B) (l : list A) :
  Forall Q (flat_map f l) -> Forall (fun a => Forall Q (f a)) l.
Proof.
  induction l as [|a l IH]; simpl; intros H; [constructor|].
  apply Forall_app in H as [H1 H2]. constructor; [exact H1|apply IH; exact H2].
Qed.

Section LextwtTextMode.
Context {L : GoLib}.

Lemma redacts_FormatText_tag p : preserves redacted (FormatText_tag TextFmt p).
Proof.
  intros h. unfold FormatText_tag. change (TextFmt =? TextFmt)%Z with true. cbv iota.
  unfold bind, loadTag, storeTag.
  destruct (tagsAt h !! p) as [n|] eqn:Hn; [|apply redacted_refl]. simpl.
  split; [apply Forall2_diag; intros a; split; auto|].
  apply (Forall2_insert_here _ _ _ n); [intros a; split; auto|exact Hn|].
  split; reflexivity.
Qed.

Lemma redacts_FormatText_mention o p : preserves redacted (FormatText_mention TextFmt o p).
Proof.
  intros h. unfold FormatText_mention. change (TextFmt =? TextFmt)%Z with true. cbv iota.
  unfold bind, loadMention, storeMention, panic, ret.
  destruct (mentionsAt h !! p) as [n|] eqn:Hn; [|apply redacted_refl].
  destruct (_ && _); [destruct (LocalURL o)|]; simpl; try apply redacted_refl;
    (split; [|apply Forall2_diag; intros a; split; auto]);
    (apply (Forall2_insert_here _ _ _ n); [intros a; split; auto|exact Hn|]);
    split; reflexivity.
Qed.

Lemma FormatText_tags_loop ps h :
  Forall (fun p => p < length (tagsAt h)) ps ->
  exists h',
    forM_ ps (FormatText_tag TextFmt) h = (Ok tt, "", h')
    /\ redacted h h'
    /\ Forall (fun p => exists n, tagsAt h' !! p = Some n /\ Tag_target n = "") ps.
Proof.
  revert h. induction ps as [|p ps IH]; intros h Hps.
  - exists h. split; [reflexivity|]. split; [apply redacted_refl|constructor].
  - apply Forall_cons in Hps as [Hp Hps].
    pose proof (redacts_FormatText_tag p h) as R1.
    destruct (lookup_lt_is_Some_2 _ _ Hp) as [n Hn].
    assert (E1 : FormatText_tag TextFmt p h
                 = (Ok tt, "", mkStore (mentionsAt h) (<[p := set_Tag_target n ""]> (tagsAt h)))).
    { unfold FormatText_tag. change (TextFmt =? TextFmt)%Z with true. cbv iota.
      unfold bind, loadTag, storeTag. rewrite Hn. reflexivity. }
    rewrite E1 in R1. simpl in R1.
    destruct (IH (mkStore (mentionsAt h) (<[p := set_Tag_target n ""]> (tagsAt h))))
      as (h' & E & R & F).
    { simpl. rewrite length_insert. exact Hps. }
    exists h'. split; [|split].
    + simpl forM_. unfold bind. rewrite E1, E. reflexivity.
    + eapply redacted_trans; eassumption.
    + constructor; [|exact F].
      destruct R as [_ RT]. simpl in RT.
      destruct (Forall2_lookup_l _ _ _ p (set_Tag_target n "") RT) as (n' & Hn' & _ & Ht).
      { apply list_lookup_insert_eq. exact Hp. }
      exists n'. split; [exact Hn'|apply Ht; reflexivity].
Qed.

Lemma FormatText_mentions_loop o u ps h :
  LocalURL o = Some u ->
  Forall (fun p => p < length (mentionsAt h)) ps ->
  exists h',
    forM_ ps (FormatText_mention TextFmt o) h = (Ok tt, "", h')
    /\ redacted h h'
    /\ Forall (fun p => exists n, mentionsAt h' !! p = Some n /\ Mention_target n = "") ps.
Proof.
  intros Hu. revert h. induction ps as [|p ps IH]; intros h Hps.
  - exists h. split; [reflexivity|]. split; [apply redacted_refl|constructor].
  - apply Forall_cons in Hps as [Hp Hps].
    pose proof (redacts_FormatText_mention o p h) as R1.
    destruct (lookup_lt_is_Some_2 _ _ Hp) as [n Hn].
    assert (E1 : exists n1, Mention_target n1 = ""
                 /\ FormatText_mention TextFmt o p h
                    = (Ok tt, "", mkStore (<[p := n1]> (mentionsAt h)) (tagsAt h))).
    { unfold FormatText_mention. change (TextFmt =? TextFmt)%Z with true. cbv iota.
      unfold bind, loadMention, storeMention, ret. rewrite Hn, Hu.
      destruct (_ && _); eexists; (split; [|reflexivity]); reflexivity. }
    destruct E1 as (n1 & Ht1 & E1).
    rewrite E1 in R1. simpl in R1.
    destruct (IH (mkStore (<[p := n1]> (mentionsAt h)) (tagsAt h))) as (h' & E & R & F).
    { simpl. rewrite length_insert. exact Hps. }
    exists h'. split; [|split].
    + simpl forM_. unfold bind. rewrite E1, E. reflexivity.
    + eapply redacted_trans; eassumption.
    + constructor; [|exact F].
      destruct R as [RM _]. simpl in RM.
      destruct (Forall2_lookup_l _ _ _ p n1 RM) as (n' & Hn' & _ & Ht).
      { apply list_lookup_insert_eq. exact Hp. }
      exists n'. split; [exact Hn'|apply Ht; exact Ht1].
Qed.

End LextwtTextMode.

Lemma bind_quiet {A B} (m : M A) (f : A -> M B) h a h' :
  m h = (Ok a, "", h') -> bind m f h = f a h'.
Proof.
  intros H. unfold bind. rewrite H. destruct (f a h') as [[r w] h2]. reflexivity.
Qed.

Section LextwtTextModeResult.
Context {L : GoLib}.

Lemma same_mentions_FormatText_tags mode ps :
  preserves same_mentions (forM_ ps (FormatText_tag mode)).
Proof.
  apply preserves_forM; [reflexivity|unfold same_mentions; congruence|].
  intros p h. unfold same_mentions, FormatText_tag.
  destruct (mode =? TextFmt)%Z; [|reflexivity].
  unfold bind, loadTag, storeTag. destruct (tagsAt h !! p); reflexivity.
Qed.

(** The loop over the Mentions panics at the first Mention without domain
    whose target is a local feed, when the options have no local URL. *)
Lemma FormatText_mentions_panic o ps p n :
  LocalURL o = None ->
  Mention_domain n = "" ->
  IsLocalURL o (Mention_target n) = true ->
  HasSuffix (Mention_target n) "/twtxt.txt" = true ->
  forall h,
    p ∈ ps -> mentionsAt h !! p = Some n ->
    exists h', forM_ ps (FormatText_mention TextFmt o) h = (Panic, "", h').
Proof.
  intros Hu Hd Hl Hs. induction ps as [|q ps IH]; intros h Hin Hn; [inversion Hin|].
  simpl forM_. unfold bind.
  assert (Hstep : FormatText_mention TextFmt o q h = (Panic, "", h)
                  \/ exists nq, mentionsAt h !! q = Some nq /\ q <> p
                       /\ FormatText_mention TextFmt o q h
                          = (Ok tt, "", mkStore (<[q := set_Mention_target nq ""]> (mentionsAt h))
                                           (tagsAt h))).
  { unfold FormatText_mention. change (TextFmt =? TextFmt)%Z with true. cbv iota.
    unfold bind, loadMention, storeMention, panic, ret.
    destruct (mentionsAt h !! q) as [nq|] eqn:Hq; [|left; reflexivity].
    destruct (String.eqb (Mention_domain nq) "" && IsLocalURL o (Mention_target nq)
              && HasSuffix (Mention_target nq) "/twtxt.txt") eqn:Hc.
    - left. rewrite Hu. reflexivity.
    - right. exists nq. split; [reflexivity|]. split; [|reflexivity].
      intros ->. rewrite Hn in Hq. injection Hq as <-.
      rewrite Hd, Hl, Hs in Hc. discriminate Hc. }
  destruct Hstep as [E|(nq & Hq & Hne & E)]; rewrite E.
  - exists h. reflexivity.
  - apply elem_of_cons in Hin as [->|Hin]; [contradiction|].
    destruct (IH (mkStore (<[q := set_Mention_target nq ""]> (mentionsAt h)) (tagsAt h)) Hin)
      as [h' E'].
    { simpl. rewrite list_lookup_insert_ne by exact Hne. exact Hn. }
    exists h'. rewrite E'. reflexivity.
Qed.

(** X22: in the text mode with options, [FormatText] on a Twt whose elements
    are non-nil and point to existing objects returns the type name
    lextwt.Twt, whatever the Twt holds, when the options have a local URL:
    the targets it has removed on the clone are never written, since the verb
    T does not reach [Format]. When [LocalURL()] of the options is nil and a
    Mention of the Twt has no domain and a target that is a local feed
    ending in /twtxt.txt, the call panics. *)
Theorem X22_FormatText_text_mode_with_options h t o :
  Twt_ok h t ->
  (forall u, LocalURL o = Some u ->
     outcome (Twt_FormatText TextFmt (Some o) t h) = (Ok "lextwt.Twt", ""))
  /\ (LocalURL o = None ->
      forall p n,
        EMention (Some p) ∈ Twt_Elems t ->
        mentionsAt h !! p = Some n ->
        Mention_domain n = "" ->
        IsLocalURL o (Mention_target n) = true ->
        HasSuffix (Mention_target n) "/twtxt.txt" = true ->
        outcome (Twt_FormatText TextFmt (Some o) t h) = (Panic, "")).
Proof.
  intros Hok.
  destruct (mapM_Clone_spec (msg t) h Hok) as (es' & h1 & E & K & Ok1 & _ & V).
  pose proof (views_back _ _ _ _ K Hok V) as V'.
  set (c := NewTwt (twter t) (dt t) es').
  assert (Htags : tags c = flat_map elem_tags es')
    by (unfold c, NewTwt; rewrite fold_append_tags; reflexivity).
  assert (Hment : mentions c = flat_map elem_mentions es')
    by (unfold c, NewTwt; rewrite fold_append_mentions; reflexivity).
  assert (EC : Twt_CloneTwt t h = (Ok c, "", h1)).
  { unfold Twt_CloneTwt. rewrite (bind_quiet _ _ _ _ _ E). reflexivity. }
  assert (Bt : Forall (fun p => p < length (tagsAt h1)) (tags c)).
  { rewrite Htags. apply Forall_flat_map. eapply Forall_impl; [exact Ok1|].
    intros e He. apply (elem_ok_below h1 e He). }
  assert (Bm : Forall (fun p => p < length (mentionsAt h1)) (mentions c)).
  { rewrite Hment. apply Forall_flat_map. eapply Forall_impl; [exact Ok1|].
    intros e He. apply (elem_ok_below h1 e He). }
  destruct (FormatText_tags_loop (tags c) h1 Bt) as (h2 & E2 & R2 & _).
  pose proof (same_mentions_FormatText_tags TextFmt (tags c) h1) as SM.
  rewrite E2 in SM. unfold same_mentions in SM. simpl in SM.
  split.
  - intros u Hu.
    assert (Bm2 : Forall (fun p => p < length (mentionsAt h2)) (mentions c))
      by (rewrite SM; exact Bm).
    destruct (FormatText_mentions_loop o u (mentions c) h2 Hu Bm2) as (h3 & E3 & _ & _).
    unfold Twt_FormatText. rewrite (bind_quiet _ _ _ _ _ EC).
    unfold FormatText_on. change (TextFmt =? HTMLFmt)%Z with false.
    change (TextFmt =? TextFmt)%Z with true. cbv iota.
    assert (EL : (forM_ (tags c) (FormatText_tag TextFmt) ;;;
                  forM_ (mentions c) (FormatText_mention TextFmt o)) h1 = (Ok tt, "", h3)).
    { rewrite (bind_quiet _ _ _ _ _ E2). exact E3. }
    rewrite (bind_quiet _ _ _ _ _ EL). reflexivity.
  - intros Hu p n Hin Hn Hd Hl Hs. unfold Twt_Elems in Hin.
    apply list_elem_of_lookup in Hin as [i Hi].
    destruct (Forall2_lookup_r _ _ _ _ _ V' Hi) as (e' & Hi' & Hv).
    assert (He' : exists p', e' = EMention (Some p') /\ mentionsAt h1 !! p' = Some n).
    { simpl in Hv. rewrite Hn in Hv.
      destruct e' as [|[p'|]|p'|s'|t'| |l'|c']; simpl in Hv; try discriminate Hv.
      injection Hv as Hv. exists p'. split; [reflexivity|exact Hv]. }
    destruct He' as (p' & -> & Hn').
    assert (Hp' : p' ∈ mentions c).
    { rewrite Hment. apply list_elem_of_In, in_flat_map.
      exists (EMention (Some p')). split; [|left; reflexivity].
      apply list_elem_of_In, list_elem_of_lookup. exists i. exact Hi'. }
    rewrite <- SM in Hn'.
    destruct (FormatText_mentions_panic o (mentions c) p' n Hu Hd Hl Hs h2 Hp' Hn')
      as [h3 E3].
    unfold Twt_FormatText. rewrite (bind_quiet _ _ _ _ _ EC).
    unfold FormatText_on, bind. rewrite E2, E3. reflexivity.
Qed.

End LextwtTextModeResult.

(** X22 at [demoTwt]: the result is the type name, while [Text()] returns
    the text. *)
Lemma X22_witness :
  Twt_ok (L := demoLib) demoStore demoTwt
  /\ LocalURL demoOpts = Some (mkURL "alice.example" "")
  /\ outcome (Twt_FormatText (L := demoLib) TextFmt (Some demoOpts) demoTwt demoStore)
     = (Ok "lextwt.Twt", "").
Proof.
  split; [exact demoTwt_ok|]. split; [reflexivity|].
  exact (proj1 (X22_FormatText_text_mode_with_options (L := demoLib) demoStore demoTwt demoOpts
                  demoTwt_ok) (mkURL "alice.example" "") eq_refl).
Defined.

(** X20 for the name bob@example.com: the Mention is named bob, its domain
    is example.com, and its literal keeps the name as it was given. *)
Lemma X20_witness :
  exists m,
    NewMention (L := demoLib) "bob@example.com" "" emptyStore
    = (Ok 0, "", mkStore [m] [])
    /\ Mention_lit m = "@bob@example.com"
    /\ Mention_name m = "bob"
    /\ Mention_domain m = "example.com".
Proof.
  destruct (X20_NewMention_splits_the_name (L := demoLib) "bob@example.com" "" emptyStore)
    as (m & E & Hl & _ & _ & H).
  destruct (H "bob" "example.com" eq_refl eq_refl) as [Hn Hd].
  exists m. split; [exact E|]. split; [exact Hl|]. split; [exact Hn|].
  apply Hd. discriminate.
Defined.

(** ** ExpandLinks: when it panics, and what a second call does *)

Section LextwtExpandLinksCalls.
Context {L : GoLib}.

Lemma ExpandLinks_tag_noop opts p h n :
  tagsAt h !! p = Some n -> Tag_target n <> "" ->
  ExpandLinks_tag opts p h = (Ok tt, "", h).
Proof.
  intros Hn Ht. unfold ExpandLinks_tag, bind, loadTag, ret. rewrite Hn.
  destruct (String.eqb_spec (Tag_target n) ""); [contradiction|reflexivity].
Qed.

Lemma ExpandLinks_tag_nil p h :
  (forall n, tagsAt h !! p = Some n -> Tag_target n = "") ->
  ExpandLinks_tag None p h = (Panic, "", h).
Proof.
  intros H. unfold ExpandLinks_tag, bind, loadTag, panic.
  destruct (tagsAt h !! p) as [n|]; [|reflexivity].
  rewrite (H n eq_refl). reflexivity.
Qed.

Lemma ExpandLinks_mention_noop lookup p h n :
  mentionsAt h !! p = Some n -> (lookup <> None -> Mention_target n <> "") ->
  ExpandLinks_mention lookup p h = (Ok tt, "", h).
Proof.
  intros Hn Ht. unfold ExpandLinks_mention, bind, loadMention, ret. rewrite Hn.
  destruct lookup as [f|]; [|reflexivity].
  destruct (String.eqb_spec (Mention_target n) "") as [E|_]; [|reflexivity].
  exfalso. apply Ht; [discriminate|exact E].
Qed.

Lemma ExpandLinks_tags_noop opts ps h :
  Forall (fun p => exists n, tagsAt h !! p = Some n /\ Tag_target n <> "") ps ->
  forM_ ps (ExpandLinks_tag opts) h = (Ok tt, "", h).
Proof.
  induction 1 as [|p ps (n & Hn & Ht) _ IH]; [reflexivity|].
  simpl forM_. rewrite (bind_quiet _ _ _ _ _ (ExpandLinks_tag_noop opts p h n Hn Ht)).
  exact IH.
Qed.

Lemma ExpandLinks_mentions_noop lookup ps h :
  Forall (fun p => exists n, mentionsAt h !! p = Some n
                             /\ (lookup <> None -> Mention_target n <> "")) ps ->
  forM_ ps (ExpandLinks_mention lookup) h = (Ok tt, "", h).
Proof.
  induction 1 as [|p ps (n & Hn & Ht) _ IH]; [reflexivity|].
  simpl forM_. rewrite (bind_quiet _ _ _ _ _ (ExpandLinks_mention_noop lookup p h n Hn Ht)).
  exact IH.
Qed.

Lemma ExpandLinks_tags_nil ps h p :
  p ∈ ps ->
  (forall n, tagsAt h !! p = Some n -> Tag_target n = "") ->
  forM_ ps (ExpandLinks_tag None) h = (Panic, "", h).
Proof.
  intros Hin Hp. induction ps as [|q ps IH]; [inversion Hin|].
  simpl forM_.
  destruct (tagsAt h !! q) as [n|] eqn:Hq.
  - destruct (String.eqb_spec (Tag_target n) "") as [E|E].
    + unfold bind. rewrite ExpandLinks_tag_nil; [reflexivity|].
      intros n' Hn'. congruence.
    + rewrite (bind_quiet _ _ _ _ _ (ExpandLinks_tag_noop None q h n Hq E)).
      apply IH. apply elem_of_cons in Hin as [->|Hin]; [|exact Hin].
      exfalso. apply E. apply Hp. exact Hq.
  - unfold bind. rewrite ExpandLinks_tag_nil; [reflexivity|].
    intros n' Hn'. congruence.
Qed.

Lemma ExpandLinks_mentions_unknown f ps h p :
  p ∈ ps ->
  (forall n, mentionsAt h !! p = Some n -> Mention_target n = "") ->
  (forall q n, q ∈ ps -> mentionsAt h !! q = Some n -> Mention_target n = "" ->
               f (Mention_name n) = None) ->
  forM_ ps (ExpandLinks_mention (Some f)) h = (Panic, "", h).
Proof.
  intros Hin Hp Hf. induction ps as [|q ps IH]; [inversion Hin|].
  simpl forM_.
  assert (Hstep : (exists n, mentionsAt h !! q = Some n /\ Mention_target n <> "")
                  \/ ExpandLinks_mention (Some f) q h = (Panic, "", h)).
  { unfold ExpandLinks_mention, bind, loadMention, panic.
    destruct (mentionsAt h !! q) as [n|] eqn:Hq; [|right; reflexivity].
    destruct (String.eqb_spec (Mention_target n) "") as [E|E].
    - right. rewrite (Hf q n (list_elem_of_here _ _) Hq E). reflexivity.
    - left. exists n. split; [reflexivity|exact E]. }
  destruct Hstep as [(n & Hq & E)|Hpanic].
  - rewrite (bind_quiet _ _ _ _ _
               (ExpandLinks_mention_noop (Some f) q h n Hq (fun _ => E))).
    apply IH.
    + apply elem_of_cons in Hin as [->|Hin]; [|exact Hin].
      exfalso. apply E. apply Hp. exact Hq.
    + intros q' n' Hq'. apply Hf. apply list_elem_of_further. exact Hq'.
  - unfold bind. rewrite Hpanic. reflexivity.
Qed.

(** X23: [ExpandLinks] panics, and changes nothing before it does, in two
    cases. With nil options, when a Tag of the index has no target. With a
    lookup, when every Tag of the index has a target, a Mention of the index
    has none, and the lookup returns nil for the name of every Mention that
    has none. *)
Theorem X23_ExpandLinks_panics h t :
  (forall lookup p,
     p ∈ Twt_Tags t ->
     (forall n, tagsAt h !! p = Some n -> Tag_target n = "") ->
     Twt_ExpandLinks None lookup t h = (Panic, "", h))
  /\ (forall opts f p,
        Forall (fun q => exists n, tagsAt h !! q = Some n /\ Tag_target n <> "") (Twt_Tags t) ->
        p ∈ Twt_Mentions t ->
        (forall n, mentionsAt h !! p = Some n -> Mention_target n = "") ->
        (forall q n, q ∈ Twt_Mentions t -> mentionsAt h !! q = Some n ->
                     Mention_target n = "" -> f (Mention_name n) = None) ->
        Twt_ExpandLinks opts (Some f) t h = (Panic, "", h)).
Proof.
  unfold Twt_Tags, Twt_Mentions. split.
  - intros lookup p Hin Hp. unfold Twt_ExpandLinks, bind.
    rewrite (ExpandLinks_tags_nil _ _ _ Hin Hp). reflexivity.
  - intros opts f p Ht Hin Hp Hf. unfold Twt_ExpandLinks.
    rewrite (bind_quiet _ _ _ _ _ (ExpandLinks_tags_noop opts _ _ Ht)).
    apply (ExpandLinks_mentions_unknown f _ h p Hin Hp Hf).
Qed.

Lemma ExpandLinks_tags_fill o ps h :
  (forall tag, URLForTag o tag <> "") ->
  Forall (fun p => p < length (tagsAt h)) ps ->
  exists h',
    forM_ ps (ExpandLinks_tag (Some o)) h = (Ok tt, "", h')
    /\ expanded h h'
    /\ Forall (fun p => exists n, tagsAt h' !! p = Some n /\ Tag_target n <> "") ps.
Proof.
  intros Hurl. revert h. induction ps as [|p ps IH]; intros h Hps.
  - exists h. split; [reflexivity|]. split; [apply expanded_refl|constructor].
  - apply Forall_cons in Hps as [Hp Hps].
    destruct (lookup_lt_is_Some_2 _ _ Hp) as [n Hn].
    assert (S1 : exists h1 n1,
               ExpandLinks_tag (Some o) p h = (Ok tt, "", h1)
               /\ tagsAt h1 !! p = Some n1 /\ Tag_target n1 <> ""
               /\ length (tagsAt h1) = length (tagsAt h)).
    { destruct (String.eqb_spec (Tag_target n) "") as [E|E].
      - exists (mkStore (mentionsAt h)
                  (<[p := set_Tag_target n (URLForTag o (Tag_tag n))]> (tagsAt h))),
               (set_Tag_target n (URLForTag o (Tag_tag n))).
        split; [|split; [|split]].
        + unfold ExpandLinks_tag, bind, loadTag, storeTag. rewrite Hn.
          rewrite (proj2 (String.eqb_eq _ _) E). reflexivity.
        + apply list_lookup_insert_eq. exact Hp.
        + apply Hurl.
        + apply length_insert.
      - exists h, n. split; [apply (ExpandLinks_tag_noop _ _ _ n Hn E)|].
        split; [exact Hn|]. split; [exact E|reflexivity]. }
    destruct S1 as (h1 & n1 & E1 & Hn1 & Ht1 & Hlen).
    pose proof (expands_ExpandLinks_tag (Some o) p h) as X1. rewrite E1 in X1. simpl in X1.
    destruct (IH h1) as (h' & E & X & F); [rewrite Hlen; exact Hps|].
    exists h'. split; [|split].
    + simpl forM_. rewrite (bind_quiet _ _ _ _ _ E1). exact E.
    + eapply expanded_trans; eassumption.
    + constructor; [|exact F].
      destruct X as [_ XT].
      destruct (Forall2_lookup_l _ _ _ _ _ XT Hn1) as (n' & Hn' & (_ & _ & _ & _ & Hsame)).
      exists n'. split; [exact Hn'|]. rewrite (Hsame Ht1). exact Ht1.
Qed.

Lemma ExpandLinks_mentions_fill f ps h :
  (forall name, exists tw, f name = Some tw /\ URL tw <> "") ->
  Forall (fun p => p < length (mentionsAt h)) ps ->
  exists h',
    forM_ ps (ExpandLinks_mention (Some f)) h = (Ok tt, "", h')
    /\ expanded h h'
    /\ Forall (fun p => exists n, mentionsAt h' !! p = Some n /\ Mention_target n <> "") ps.
Proof.
  intros Hf. revert h. induction ps as [|p ps IH]; intros h Hps.
  - exists h. split; [reflexivity|]. split; [apply expanded_refl|constructor].
  - apply Forall_cons in Hps as [Hp Hps].
    destruct (lookup_lt_is_Some_2 _ _ Hp) as [n Hn].
    assert (S1 : exists h1 n1,
               ExpandLinks_mention (Some f) p h = (Ok tt, "", h1)
               /\ mentionsAt h1 !! p = Some n1 /\ Mention_target n1 <> ""
               /\ length (mentionsAt h1) = length (mentionsAt h)).
    { destruct (String.eqb_spec (Mention_target n) "") as [E|E].
      - destruct (Hf (Mention_name n)) as (tw & Htw & Hurl).
        eexists (mkStore (<[p := _]> (mentionsAt h)) (tagsAt h)), _.
        split; [|split; [|split]].
        + unfold ExpandLinks_mention, bind, loadMention, storeMention. rewrite Hn.
          rewrite (proj2 (String.eqb_eq _ _) E), Htw. reflexivity.
        + apply list_lookup_insert_eq. exact Hp.
        + exact Hurl.
        + apply length_insert.
      - exists h, n.
        split; [apply (ExpandLinks_mention_noop _ _ _ n Hn (fun _ => E))|].
        split; [exact Hn|]. split; [exact E|reflexivity]. }
    destruct S1 as (h1 & n1 & E1 & Hn1 & Ht1 & Hlen).
    pose proof (expands_ExpandLinks_mention (Some f) p h) as X1.
    rewrite E1 in X1. simpl in X1.
    destruct (IH h1) as (h' & E & X & F); [rewrite Hlen; exact Hps|].
    exists h'. split; [|split].
    + simpl forM_. rewrite (bind_quiet _ _ _ _ _ E1). exact E.
    + eapply expanded_trans; eassumption.
    + constructor; [|exact F].
      destruct X as [XM _].
      destruct (Forall2_lookup_l _ _ _ _ _ XM Hn1) as (n' & Hn' & (_ & _ & _ & Hsame)).
      exists n'. split; [exact Hn'|]. rewrite (Hsame Ht1). exact Ht1.
Qed.

(** X24: with options whose [URLForTag] never returns the empty string and a
    lookup that knows every name and returns Twters with a URL, [ExpandLinks]
    on a Twt whose indices point to existing objects returns without a
    panic and leaves every Tag and every Mention of the indices with a
    target; a second call then changes nothing. *)
Theorem X24_ExpandLinks_twice h t o f :
  Forall (fun p => p < length (tagsAt h)) (Twt_Tags t) ->
  Forall (fun p => p < length (mentionsAt h)) (Twt_Mentions t) ->
  (forall tag, URLForTag o tag <> "") ->
  (forall name, exists tw, f name = Some tw /\ URL tw <> "") ->
  exists h1,
    Twt_ExpandLinks (Some o) (Some f) t h = (Ok tt, "", h1)
    /\ Forall (fun p => exists n, tagsAt h1 !! p = Some n /\ Tag_target n <> "") (Twt_Tags t)
    /\ Forall (fun p => exists n, mentionsAt h1 !! p = Some n /\ Mention_target n <> "")
         (Twt_Mentions t)
    /\ forall opts lookup, Twt_ExpandLinks opts lookup t h1 = (Ok tt, "", h1).
Proof.
  unfold Twt_Tags, Twt_Mentions. intros Bt Bm Hurl Hf.
  destruct (ExpandLinks_tags_fill o _ h Hurl Bt) as (h2 & E2 & X2 & F2).
  assert (Bm2 : Forall (fun p => p < length (mentionsAt h2)) (mentions t)).
  { destruct X2 as [XM _]. rewrite <- (Forall2_length _ _ _ XM). exact Bm. }
  destruct (ExpandLinks_mentions_fill f _ h2 Hf Bm2) as (h1 & E1 & X1 & F1).
  assert (F2' : Forall (fun p => exists n, tagsAt h1 !! p = Some n /\ Tag_target n <> "")
                  (tags t)).
  { eapply Forall_impl; [exact F2|]. intros p (n & Hn & Ht).
    destruct X1 as [_ XT].
    destruct (Forall2_lookup_l _ _ _ _ _ XT Hn) as (n' & Hn' & (_ & _ & _ & _ & Hsame)).
    exists n'. split; [exact Hn'|]. rewrite (Hsame Ht). exact Ht. }
  exists h1. split; [|split; [exact F2'|split; [exact F1|]]].
  - unfold Twt_ExpandLinks. rewrite (bind_quiet _ _ _ _ _ E2). exact E1.
  - intros opts lookup. unfold Twt_ExpandLinks.
    rewrite (bind_quiet _ _ _ _ _ (ExpandLinks_tags_noop opts _ _ F2')).
    apply ExpandLinks_mentions_noop.
    eapply Forall_impl; [exact F1|]. intros p (n & Hn & Ht).
    exists n. split; [exact Hn|intros _; exact Ht].
Qed.

End LextwtExpandLinksCalls.

(** X23 at [demoTwt], whose first Tag has no target, with nil options. *)
Lemma X23_witness :
  0 ∈ Twt_Tags demoTwt
  /\ (exists n, tagsAt demoStore !! 0 = Some n /\ Tag_target n = "")
  /\ Twt_ExpandLinks (L := demoLib) None None demoTwt demoStore = (Panic, "", demoStore).
Proof.
  assert (Hin : 0 ∈ Twt_Tags demoTwt) by (apply list_elem_of_In; vm_compute; auto).
  split; [exact Hin|]. split; [eexists; split; vm_compute; reflexivity|].
  apply (proj1 (X23_ExpandLinks_panics (L := demoLib) demoStore demoTwt) None 0 Hin).
  intros n Hn. vm_compute in Hn. injection Hn as <-. reflexivity.
Defined.

(** X24 at [demoTwt], with the options of the examples and the lookup that
    knows every name. *)
Lemma X24_witness :
  Forall (fun p => p < length (tagsAt demoStore)) (Twt_Tags demoTwt)
  /\ Forall (fun p => p < length (mentionsAt demoStore)) (Twt_Mentions demoTwt)
  /\ exists h1,
       Twt_ExpandLinks (L := demoLib) (Some demoOpts) (Some demoDirectory) demoTwt demoStore
       = (Ok tt, "", h1)
       /\ forall opts lookup,
            Twt_ExpandLinks (L := demoLib) opts lookup demoTwt h1 = (Ok tt, "", h1).
Proof.
  assert (Bt : Forall (fun p => p < length (tagsAt demoStore)) (Twt_Tags demoTwt))
    by (vm_compute; repeat constructor).
  assert (Bm : Forall (fun p => p < length (mentionsAt demoStore)) (Twt_Mentions demoTwt))
    by (vm_compute; repeat constructor).
  split; [exact Bt|]. split; [exact Bm|].
  destruct (X24_ExpandLinks_twice (L := demoLib) demoStore demoTwt demoOpts demoDirectory
              Bt Bm) as (h1 & E & _ & _ & N).
  - intros tag. unfold demoOpts, URLForTag. rewrite sapp_cons. discriminate.
  - intros name. eexists. split; [reflexivity|]. unfold URL.
    rewrite sapp_cons. discriminate.
  - exists h1. split; [exact E|exact N].
Defined.

(** ** The parse a Mention keeps *)

Section LextwtMentionCache.
Context {L : GoLib}.

(** X25: a Mention parses its target at most once. After [URL()] a second
    [URL()] returns the same and changes nothing, and the same holds for
    [Domain()]; neither changes literal, name or target. [SetTarget] drops
    the parse kept, so that [URL()] after it is the parse of the new target,
    but it keeps the domain: [Domain()] of a Mention that has a domain
    returns it whatever the target is set to. *)
Theorem X25_Mention_parses_once n :
  Mention_URL (Mention_URL n).1 = Mention_URL n
  /\ Mention_Domain (Mention_Domain n).1 = Mention_Domain n
  /\ (Mention_lit (Mention_Domain n).1 = Mention_lit n
      /\ Mention_name (Mention_Domain n).1 = Mention_name n
      /\ Mention_target (Mention_Domain n).1 = Mention_target n)
  /\ (forall target,
        (Mention_URL (Mention_SetTarget n target)).2
        = match url_Parse target with inl u => Some u | inr _ => None end
        /\ (Mention_Err (Mention_SetTarget n target)).2
           = match url_Parse target with inl _ => None | inr e => Some e end
        /\ (Mention_domain n <> "" ->
            (Mention_Domain (Mention_SetTarget n target)).2 = Mention_domain n)).
Proof.
  split; [|split; [|split]].
  - unfold Mention_URL.
    destruct n as [lit name dom target [u|] [e|]]; simpl; try reflexivity.
    destruct (url_Parse target); reflexivity.
  - unfold Mention_Domain, Mention_URL.
    destruct n as [lit name dom target [u|] [e|]]; simpl;
      try destruct (url_Parse target) as [u'|e']; simpl;
      destruct (String.eqb_spec dom "") as [->|Hd]; simpl;
      try (destruct (String.eqb_spec (url_Hostname u) ""); reflexivity);
      try (destruct (String.eqb_spec (url_Hostname u') ""); reflexivity);
      try (destruct (String.eqb_spec dom ""); [contradiction|reflexivity]);
      reflexivity.
  - unfold Mention_Domain, Mention_URL.
    destruct n as [lit name dom target [u|] [e|]]; simpl;
      try destruct (url_Parse target) as [u'|e']; simpl;
      destruct (String.eqb dom ""); repeat split; reflexivity.
  - intros target. unfold Mention_Err, Mention_Domain, Mention_URL, Mention_SetTarget. simpl.
    destruct (url_Parse target) as [u|e]; simpl;
      (split; [reflexivity|]; split; [reflexivity|]); intros Hd;
      destruct (String.eqb_spec (Mention_domain n) ""); try contradiction; reflexivity.
Qed.

End LextwtMentionCache.

(** ** FormatText in the Markdown and HTML modes *)

Section LextwtLinkedModes.
Context {L : GoLib}.

(** The clones of the elements of a Twt are distinct objects. *)
Lemma mapM_Clone_nodup es :
  forall h es' h',
    Forall (elem_ok h) es ->
    mapM Elem_Clone es h = (Ok es', "", h') ->
    NoDup (flat_map elem_mentions es').
Proof.
  induction es as [|e es IH]; intros h es' h' Hok E.
  - injection E as <- _. constructor.
  - apply Forall_cons in Hok as [He Hes].
    destruct (Elem_Clone_spec h e He) as (e1 & h1 & E1 & Ok1 & Fr1 & V1).
    pose proof (frames_Elem_Clone (length (mentionsAt h)) (length (tagsAt h)) e h
                  (le_n _) (le_n _)) as K1.
    rewrite E1 in K1. simpl in K1. pose proof K1 as (_ & _ & Lm & Lt).
    assert (Hes1 : Forall (elem_ok h1) es).
    { eapply Forall_impl; [exact Hes|]. intros a. apply elem_ok_mono; assumption. }
    destruct (mapM_Clone_spec es h1 Hes1) as (es2 & h2 & E2 & _ & _ & Fr2 & _).
    simpl in E. unfold bind in E. rewrite E1, E2 in E. simpl in E.
    injection E as <- _. simpl.
    apply NoDup_app. split; [|split].
    + destruct e1 as [|[p|]|[p|]|[s|]|[t|]| |[l|]|[c|]]; simpl;
        try constructor; try (intros X; inversion X); constructor.
    + intros p Hp Hp2.
      assert (B : p < length (mentionsAt h1)).
      { destruct (elem_ok_below h1 e1 Ok1) as [B _].
        exact (proj1 (Forall_forall (fun q => q < length (mentionsAt h1)) _) B p Hp). }
      assert (F : Forall (fun q => length (mentionsAt h1) <= q) (flat_map elem_mentions es2)).
      { apply Forall_flat_map. eapply Forall_impl; [exact Fr2|]. intros a [A _]. exact A. }
      pose proof (proj1 (Forall_forall _ _) F p Hp2) as F'. simpl in F'. lia.
    + exact (IH h1 es2 h2 Hes1 E2).
Qed.

Lemma FormatText_mention_linked mode o p h n :
  mode = MarkdownFmt \/ mode = HTMLFmt ->
  mentionsAt h !! p = Some n ->
  FormatText_mention mode o p h
  = (Ok tt, "", mkStore (<[p := Mention_linked o n]> (mentionsAt h)) (tagsAt h)).
Proof.
  intros Hmode Hn. unfold FormatText_mention.
  assert (E : (mode =? TextFmt)%Z = false /\ (mode =? MarkdownFmt)%Z || (mode =? HTMLFmt)%Z = true)
    by (destruct Hmode as [->| ->]; split; reflexivity).
  destruct E as [-> ->].
  unfold bind, loadMention, storeMention. rewrite Hn. unfold Mention_linked.
  destruct (_ && _); reflexivity.
Qed.

Lemma FormatText_tags_skip mode ps h :
  mode = MarkdownFmt \/ mode = HTMLFmt ->
  forM_ ps (FormatText_tag mode) h = (Ok tt, "", h).
Proof.
  intros Hmode. induction ps as [|p ps IH]; [reflexivity|].
  simpl forM_. rewrite (bind_quiet _ _ _ tt h); [exact IH|].
  unfold FormatText_tag. destruct Hmode as [->| ->]; reflexivity.
Qed.

Lemma FormatText_mentions_linked mode o ps :
  mode = MarkdownFmt \/ mode = HTMLFmt ->
  NoDup ps ->
  forall h,
    Forall (fun p => p < length (mentionsAt h)) ps ->
    exists h',
      forM_ ps (FormatText_mention mode o) h = (Ok tt, "", h')
      /\ tagsAt h' = tagsAt h
      /\ (forall p, p ∈ ps -> mentionsAt h' !! p = Mention_linked o <$> mentionsAt h !! p)
      /\ (forall p, p ∉ ps -> mentionsAt h' !! p = mentionsAt h !! p).
Proof.
  intros Hmode. induction 1 as [|p ps Hnin Hnd IH]; intros h Hps.
  - exists h. split; [reflexivity|]. split; [reflexivity|]. split; [|reflexivity].
    intros p Hp. inversion Hp.
  - apply Forall_cons in Hps as [Hp Hps].
    destruct (lookup_lt_is_Some_2 _ _ Hp) as [n Hn].
    pose proof (FormatText_mention_linked mode o p h n Hmode Hn) as E1.
    destruct (IH (mkStore (<[p := Mention_linked o n]> (mentionsAt h)) (tagsAt h)))
      as (h' & E & Ht & Hin & Hout).
    { simpl. rewrite length_insert. exact Hps. }
    exists h'. split; [|split; [exact Ht|split]].
    + simpl forM_. rewrite (bind_quiet _ _ _ _ _ E1). exact E.
    + intros q Hq. apply elem_of_cons in Hq as [->|Hq].
      * rewrite (Hout p Hnin). simpl. rewrite list_lookup_insert_eq by exact Hp.
        rewrite Hn. reflexivity.
      * rewrite (Hin q Hq). simpl.
        rewrite list_lookup_insert_ne; [reflexivity|]. intros ->. contradiction.
    + intros q Hq. apply not_elem_of_cons in Hq as [Hne Hq].
      rewrite (Hout q Hq). simpl. apply list_lookup_insert_ne. congruence.
Qed.

(** The view of a cloned element after its Mention was linked is the view
    of the original among linked Mentions. *)
Lemma view_linked o h h1 h3 e' e :
  view h1 e' = view h e ->
  tagsAt h3 = tagsAt h1 ->
  (forall p, p ∈ elem_mentions e' ->
             mentionsAt h3 !! p = Mention_linked o <$> mentionsAt h1 !! p) ->
  elem_ok h1 e' ->
  view h3 e' = view (linked o h) e.
Proof.
  intros Hv Ht Hm Hok.
  destruct e' as [|[p'|]|p'|s'|t'| |l'|c'], e as [|p|p|s|t| |l|c];
    simpl in Hv; try discriminate Hv; simpl in Hok; try contradiction;
    simpl; try rewrite Ht; try exact Hv.
  injection Hv as Hv. f_equal.
  rewrite (Hm p' (list_elem_of_here _ _)), Hv.
  destruct p as [p|]; simpl; [|reflexivity].
  rewrite list_lookup_fmap. reflexivity.
Qed.

Lemma views_linked o h h1 h3 es' es :
  Forall2 (fun e' e => view h1 e' = view h e) es' es ->
  tagsAt h3 = tagsAt h1 ->
  Forall (elem_ok h1) es' ->
  (forall e', e' ∈ es' -> forall p, p ∈ elem_mentions e' ->
              mentionsAt h3 !! p = Mention_linked o <$> mentionsAt h1 !! p) ->
  Forall2 (fun e' e => view h3 e' = view (linked o h) e) es' es.
Proof.
  intros V Ht. induction V as [|e' e es2 es3 Hv _ IH]; intros Ok1 Hin; [constructor|].
  apply Forall_cons in Ok1 as [Ok Ok1]. constructor.
  - apply (view_linked o h h1 h3 e' e Hv Ht); [|exact Ok].
    intros p Hp. apply (Hin e'); [apply list_elem_of_here|exact Hp].
  - apply IH; [exact Ok1|]. intros e2 He2. apply Hin. apply list_elem_of_further. exact He2.
Qed.

(** X26: in the Markdown and in the HTML mode, [FormatText] with options on
    a Twt whose elements are non-nil and point to existing objects returns
    what [fmt.Sprintf] with the verb M or H would return on the receiver if
    every Mention were linked: given the user URL of its target when that is
    a local feed, and else the external URL of its name and target, with the
    domain taken from the target when it has none. The Tags are formatted as
    they are. *)
Theorem X26_FormatText_links_the_mentions h t mode o :
  Twt_ok h t ->
  mode = MarkdownFmt \/ mode = HTMLFmt ->
  outcome (Twt_FormatText mode (Some o) t h)
  = outcome (Sprintf_Twt false (if (mode =? HTMLFmt)%Z then "H" else "M")%char t
               (linked o h)).
Proof.
  intros Hok Hmode.
  destruct (mapM_Clone_spec (msg t) h Hok) as (es' & h1 & E & K & Ok1 & _ & V).
  pose proof (views_back _ _ _ _ K Hok V) as V'.
  pose proof (mapM_Clone_nodup _ _ _ _ Hok E) as ND.
  set (c := NewTwt (twter t) (dt t) es').
  assert (Hmsg : msg c = es').
  { unfold c, NewTwt. rewrite fold_append_msg. simpl. apply (retained_all _ _ Ok1). }
  assert (Hment : mentions c = flat_map elem_mentions es')
    by (unfold c, NewTwt; rewrite fold_append_mentions; reflexivity).
  assert (Hdt : dt c = dt t) by (unfold c, NewTwt; rewrite fold_append_dt; reflexivity).
  assert (EC : Twt_CloneTwt t h = (Ok c, "", h1)).
  { unfold Twt_CloneTwt. rewrite (bind_quiet _ _ _ _ _ E). reflexivity. }
  assert (Bm : Forall (fun p => p < length (mentionsAt h1)) (mentions c)).
  { rewrite Hment. apply Forall_flat_map. eapply Forall_impl; [exact Ok1|].
    intros e He. apply (elem_ok_below h1 e He). }
  rewrite <- Hment in ND.
  destruct (FormatText_mentions_linked mode o (mentions c) Hmode ND h1 Bm)
    as (h3 & E3 & Ht & Hin & _).
  assert (V3 : Forall2 (fun e' e => view h3 e' = view (linked o h) e) (msg c) (msg t)).
  { rewrite Hmsg. apply (views_linked o h h1 h3 es' (msg t) V' Ht Ok1).
    intros e' He' p Hp. apply Hin. rewrite Hment. apply list_elem_of_In, in_flat_map.
    exists e'. split; apply list_elem_of_In; assumption. }
  assert (ES : forall v, outcome (Sprintf_Twt false v c h3)
                         = outcome (Sprintf_Twt false v t (linked o h))).
  { intros v. apply Sprintf_outcome. apply Twt_Format_outcome; [exact Hdt|].
    apply forM_Format_view. exact V3. }
  unfold Twt_FormatText. rewrite (bind_quiet _ _ _ _ _ EC). unfold FormatText_on.
  assert (EL : (forM_ (tags c) (FormatText_tag mode) ;;;
                forM_ (mentions c) (FormatText_mention mode o)) h1 = (Ok tt, "", h3)).
  { rewrite (bind_quiet _ _ _ _ _ (FormatText_tags_skip mode _ h1 Hmode)). exact E3. }
  rewrite (bind_quiet _ _ _ _ _ EL).
  destruct Hmode as [->| ->].
  - change (MarkdownFmt =? HTMLFmt)%Z with false.
    change (MarkdownFmt =? TextFmt)%Z with false.
    change (MarkdownFmt =? MarkdownFmt)%Z with true. cbv iota. apply ES.
  - change (HTMLFmt =? HTMLFmt)%Z with true. cbv iota. apply ES.
Qed.

End LextwtLinkedModes.

(** X26 at [demoTwt], in the HTML mode. *)
Lemma X26_witness :
  Twt_ok (L := demoLib) demoStore demoTwt
  /\ outcome (Twt_FormatText (L := demoLib) HTMLFmt (Some demoOpts) demoTwt demoStore)
     = outcome (Sprintf_Twt (L := demoLib) false "H" demoTwt
                  (linked (L := demoLib) demoOpts demoStore)).
Proof.
  split; [exact demoTwt_ok|].
  exact (X26_FormatText_links_the_mentions (L := demoLib) demoStore demoTwt HTMLFmt demoOpts
           demoTwt_ok (or_intror eq_refl)).
Defined.
